(** * Discotron: message routing, guild registry and owner registry

    A shallow embedding of [src/core/discotron.js], [src/core/models/guild.js]
    and [src/core/models/owner.js], with the properties of the routing core
    stated and proved over it.

    Conventions.
    - JavaScript strings are modelled as [string].  [toLowerCase] is the
      built-in of the runtime: only its action on ASCII text is fixed, where
      it folds the letters A-Z and leaves every other character alone.
    - A JavaScript [Set] of identifiers is a [gset string]; an object used as
      a dictionary and only read by key is a [gmap string _]; an object whose
      keys are enumerated ([for ... in], [Object.keys]) is an association
      list in enumeration order, read with the properties it inherits from
      [Object.prototype] where the code does not guard against them.
    - Calls to the persistence layer ([db.select], [db.insert], ...) are
      recorded, in program order, as [DbOp] values.  Code placed in a
      [.then] callback is a separate function, run when the promise settles.
    - [Logger.debug] output is not modelled: it is diagnostic output below
      the configured severity ([src/bot/index.js], line 2). *)

From Stdlib Require Import String Ascii List Bool Arith NArith Lia.
From stdpp Require Import base gmap strings list.
Import ListNotations.

Local Open Scope string_scope.

#[local] Set Warnings "-clear-no-such-hyp".

(** ** JavaScript string primitives used by the router *)

Module JsString.

(** One ASCII character with the letters A-Z folded. *)
Definition lowerChar (c : ascii) : ascii :=
  let n := nat_of_ascii c in
  if (65 <=? n)%nat && (n <=? 90)%nat then ascii_of_nat (n + 32) else c.

Fixpoint lowerAscii (s : string) : string :=
  match s with
  | EmptyString => EmptyString
  | String c rest => String (lowerChar c) (lowerAscii rest)
  end.

(** Text made of ASCII characters only. *)
Fixpoint isAscii (s : string) : bool :=
  match s with
  | EmptyString => true
  | String c rest => (nat_of_ascii c <? 128)%nat && isAscii rest
  end.

(** [s.toLowerCase()].  The built-in maps every cased character of
    Unicode; what is fixed here is its result on ASCII text. *)
Class Lowering : Type := {
  toLowerCase : string -> string;
  toLowerCase_ascii : forall s, isAscii s = true -> toLowerCase s = lowerAscii s
}.

(** [s.startsWith(p)] *)
Definition startsWith (s p : string) : bool := String.prefix p s.

(** [s.split(" ")]: the pieces between single spaces; never empty. *)
Fixpoint splitAcc (cur : string) (s : string) : list string :=
  match s with
  | EmptyString => [cur]
  | String c rest =>
      if Ascii.eqb c " "%char then cur :: splitAcc EmptyString rest
      else splitAcc (cur ++ String c EmptyString) rest
  end.

Definition split (s : string) : list string := splitAcc EmptyString s.

End JsString.

(** ** Calls into the persistence layer ([database/crud.js]) *)

Definition DbFilter := list (string * string).

Inductive DbOp : Type :=
| DbSelect (table : string) (fields : list string) (filter : DbFilter)
| DbInsert (table : string) (row : DbFilter)
| DbUpdate (table : string) (values : DbFilter) (filter : DbFilter)
| DbDelete (table : string) (filter : DbFilter).

(** ** Owner registry ([src/core/models/owner.js]) *)

Module Owner.

(** What [setOwners] does, in program order: assignments to the static
    field [Owner._owners] and calls to the persistence layer. *)
Inductive effect : Type :=
| AssignOwners (s : gset string)
| Db (op : DbOp).

Record state : Type := mkState {
  _owners : gset string;       (* Owner._owners *)
  effects : list effect        (* effects so far, oldest first *)
}.

Definition isDb (e : effect) : bool :=
  match e with Db _ => true | AssignOwners _ => false end.

(** [static setOwners(discordUserIds)], the synchronous part: the guard,
    the assignment and the call [db.delete("Owners", {}, true)]. *)
Definition setOwners (discordUserIds : list string) (st : state) : state :=
  if (length discordUserIds =? 0)%nat then st
  else
    let s := list_to_set discordUserIds in
    {| _owners := s;
       effects := effects st ++ [AssignOwners s; Db (DbDelete "Owners" [])] |}.

(** The callback given to [.then] of the delete: one insert per element of
    the input array, in order.  It runs only when the delete succeeded. *)
Definition setOwners_then (discordUserIds : list string) (st : state) : state :=
  {| _owners := _owners st;
     effects := effects st ++
       map (fun id => Db (DbInsert "Owners" [("discordUserId", id)]))
           discordUserIds |}.

(** The rows of table [Owners] after the persistence layer has carried out
    the recorded calls on [rows]. *)
Definition applyEffect (rows : list string) (e : effect) : list string :=
  match e with
  | Db (DbDelete "Owners" _) => []
  | Db (DbInsert "Owners" [(_, id)]) => rows ++ [id]
  | _ => rows
  end.

Definition persisted (rows : list string) (es : list effect) : list string :=
  fold_left applyEffect es rows.

(** [static isOwner(discordUserId)]: [discordUserId && _owners.has(...)];
    the empty string is falsy. *)
Definition isOwner (discordUserId : string) (owners : gset string) : bool :=
  negb (String.eqb discordUserId "") && bool_decide (discordUserId ∈ owners).

End Owner.

(** ** Principals and permission records
    ([user-role.js] and [permission.js] are collaborators; only the data the
    guild model stores is represented here.) *)

Record UserRole : Type := mkUserRole {
  _discordUserId : option string;
  _discordRoleId : option string;
  ur_discordGuildId : string
}.

Record Permission : Type := mkPermission {
  perm_discordGuildId : string;
  perm_pluginId : string;
  _usersRoles : list UserRole
}.

(** The Permission Resolver: [Permission.prototype.allows(discordUserId)]. *)
Class PermissionResolver : Type := {
  allows : Permission -> string -> bool
}.

(** The Spam Guard: [SpamUser.onAction(user)] and
    [SpamUser.isRestricted(user)] over its own registry of tracked users.
    [isRestricted] may prune the user's history, so it returns the registry
    as well. *)
Class SpamGuard : Type := {
  SpamState : Type;
  onAction : string -> SpamState -> SpamState;
  isRestricted : string -> SpamState -> bool * SpamState
}.

(** ** Plain JavaScript objects used as dictionaries

    The own enumerable properties of an object, in the order [for ... in] and
    [Object.keys] list them: the keys that are array indices first, in
    ascending numeric order, then the other keys in the order they were
    created. *)

Module Obj.

(** The property names a plain object inherits from [Object.prototype]. *)
Definition inherited : list string :=
  ["constructor"; "__defineGetter__"; "__defineSetter__"; "hasOwnProperty";
   "__lookupGetter__"; "__lookupSetter__"; "isPrototypeOf";
   "propertyIsEnumerable"; "toString"; "valueOf"; "__proto__";
   "toLocaleString"].

Definition isInherited (k : string) : bool := existsb (String.eqb k) inherited.

(** The [length] of the inherited value: the number of parameters of the
    function, and none for [__proto__], whose value is [Object.prototype]
    itself. *)
Definition inheritedLength (k : string) : option nat :=
  if String.eqb k "__proto__" then None
  else if existsb (String.eqb k) ["__defineGetter__"; "__defineSetter__"] then Some 2
  else if existsb (String.eqb k) ["toString"; "valueOf"; "toLocaleString"] then Some 0
  else Some 1.

Definition digitOf (c : ascii) : option N :=
  let n := N_of_ascii c in
  if (48 <=? n)%N && (n <=? 57)%N then Some (n - 48)%N else None.

Fixpoint number (s : string) (acc : N) : option N :=
  match s with
  | EmptyString => Some acc
  | String c rest =>
      match digitOf c with
      | Some d => number rest (10 * acc + d)%N
      | None => None
      end
  end.

(** An array index: the canonical decimal numeral of an integer below
    [2^32 - 1]. *)
Definition arrayIndex (k : string) : option N :=
  match k with
  | EmptyString => None
  | String c rest =>
      match digitOf c with
      | None => None
      | Some d =>
          if (d =? 0)%N then
            match rest with EmptyString => Some 0%N | _ => None end
          else
            match number rest d with
            | Some n => if (n <=? 4294967294)%N then Some n else None
            | None => None
            end
      end
  end.

(** [k] may be enumerated before [k']: an array index comes before a
    greater one and before every other key; the other keys come in the
    order they were created. *)
Definition precedes (k k' : string) : bool :=
  match arrayIndex k, arrayIndex k' with
  | Some n, Some n' => (n <=? n')%N
  | Some _, None => true
  | None, Some _ => false
  | None, None => true
  end.

(** A list of keys in enumeration order. *)
Fixpoint enumerated (l : list string) : bool :=
  match l with
  | [] => true
  | k :: rest => forallb (precedes k) rest && enumerated rest
  end.

Section Obj.
Context {V : Type}.

Definition keys (o : list (string * V)) : list string := map fst o.

(** The own property [k], if any. *)
Fixpoint get (k : string) (o : list (string * V)) : option V :=
  match o with
  | [] => None
  | (k', v) :: rest => if String.eqb k k' then Some v else get k rest
  end.

(** What reading [o[k]] gives: an own property, a property inherited
    from [Object.prototype] (a function or object that is none of the
    stored values), or [undefined]. *)
Inductive Read : Type :=
| Own (v : V)
| Inherited
| Undefined.

Definition read (k : string) (o : list (string * V)) : Read :=
  match get k o with
  | Some v => Own v
  | None => if isInherited k then Inherited else Undefined
  end.

(** [o[k] = v] on an existing key: the key keeps its place. *)
Fixpoint overwrite (k : string) (v : V) (o : list (string * V))
    : list (string * V) :=
  match o with
  | [] => []
  | (k', v') :: rest =>
      if String.eqb k k' then (k, v) :: rest else (k', v') :: overwrite k v rest
  end.

(** A new array index [n] goes before the first key that is a greater
    index or no index at all. *)
Fixpoint insertIndex (n : N) (k : string) (v : V) (o : list (string * V))
    : list (string * V) :=
  match o with
  | [] => [(k, v)]
  | (k', v') :: rest =>
      match arrayIndex k' with
      | Some n' =>
          if (n <? n')%N then (k, v) :: o
          else (k', v') :: insertIndex n k v rest
      | None => (k, v) :: o
      end
  end.

(** [o[k] = v], for every key but [__proto__], whose assignment replaces
    the prototype and creates no property. *)
Definition set (k : string) (v : V) (o : list (string * V)) : list (string * V) :=
  match get k o with
  | Some _ => overwrite k v o
  | None =>
      match arrayIndex k with
      | Some n => insertIndex n k v o
      | None => (o ++ [(k, v)])%list
      end
  end.

(** [delete o[k]] *)
Fixpoint remove (k : string) (o : list (string * V)) : list (string * V) :=
  match o with
  | [] => []
  | (k', v') :: rest =>
      if String.eqb k k' then remove k rest else (k', v') :: remove k rest
  end.
End Obj.
End Obj.

(** [array.includes(x)] on an array of strings *)
Definition includes (x : string) (l : list string) : bool :=
  existsb (String.eqb x) l.

(** ** What the Discord client knows about a guild *)

Record DiscordRole : Type := mkRole {
  role_id : string;
  role_administrator : bool        (* role.hasPermission("ADMINISTRATOR") *)
}.

Record DiscordGuild : Type := mkDiscordGuild {
  dg_id : string;
  dg_ownerID : string;
  dg_roles : list DiscordRole
}.

(** [client.guilds.get(id)] *)
Definition clientGuild (guilds : list DiscordGuild) (id : string) : option DiscordGuild :=
  find (fun g => String.eqb (dg_id g) id) guilds.

(** ** Guild model ([src/core/models/guild.js]) *)

Module Guild.

Record t : Type := mkGuild {
  discordId : string;
  commandPrefix : string;
  allowedChannelIds : gset string;
  enabledPlugins : gset string;
  _admins : list UserRole;
  _discordAdmins : list UserRole;
  permissions : gmap string Permission
}.

Definition with_enabledPlugins (s : gset string) (g : t) : t :=
  {| discordId := discordId g; commandPrefix := commandPrefix g;
     allowedChannelIds := allowedChannelIds g; enabledPlugins := s;
     _admins := _admins g; _discordAdmins := _discordAdmins g;
     permissions := permissions g |}.

Definition with_discordAdmins (a : list UserRole) (g : t) : t :=
  {| discordId := discordId g; commandPrefix := commandPrefix g;
     allowedChannelIds := allowedChannelIds g;
     enabledPlugins := enabledPlugins g;
     _admins := _admins g; _discordAdmins := a;
     permissions := permissions g |}.

Definition with_permissions (p : gmap string Permission) (g : t) : t :=
  {| discordId := discordId g; commandPrefix := commandPrefix g;
     allowedChannelIds := allowedChannelIds g;
     enabledPlugins := enabledPlugins g;
     _admins := _admins g; _discordAdmins := _discordAdmins g;
     permissions := p |}.

(** The object built by [super({discordId: discordId})]; the shared guild
    model supplies the default command prefix, every collection starts
    empty. *)
Definition fresh (defaultPrefix : string) (id : string) : t :=
  {| discordId := id; commandPrefix := defaultPrefix;
     allowedChannelIds := ∅; enabledPlugins := ∅;
     _admins := []; _discordAdmins := [];
     permissions := ∅ |}.

(** [isPluginEnabled(pluginId)] *)
Definition isPluginEnabled (pluginId : string) (g : t) : bool :=
  bool_decide (pluginId ∈ enabledPlugins g).

(** The loop of [setPluginEnabled] over the keys of [Plugin.getAll()]. *)
Fixpoint addAllBut (pluginId : string) (installed : list string)
    (s : gset string) : gset string :=
  match installed with
  | [] => s
  | pluginId_ :: rest =>
      if negb (String.eqb pluginId pluginId_)
      then addAllBut pluginId rest (s ∪ {[pluginId_]})
      else addAllBut pluginId rest s
  end.

(** [setPluginEnabled(pluginId, enabled)]: the update of
    [this._enabledPlugins] and the delete it issues; [installed] are the
    keys of [Plugin.getAll()]. *)
Definition setPluginEnabled (installed : list string) (pluginId : string)
    (enabled : bool) (g : t) : t * list DbOp :=
  let s := enabledPlugins g in
  let s' :=
    if (size s =? 0)%nat then
      if negb enabled then addAllBut pluginId installed s
      else s (* should not happen *)
    else
      if enabled then s ∪ {[pluginId]} else s ∖ {[pluginId]} in
  (with_enabledPlugins s' g,
   [DbDelete "GuildEnabledPlugins" [("discordGuildId", discordId g)]]).

(** The [.then] callback of that delete: one insert per member of the set
    as it is when the callback runs.  The code issues them in the
    insertion order of the [Set], which a [gset] does not record: they are
    listed here in the order of [elements], and only which rows are
    inserted is meant. *)
Definition setPluginEnabled_then (g : t) : list DbOp :=
  map (fun element =>
         DbInsert "GuildEnabledPlugins"
           [("pluginId", element); ("discordGuildId", discordId g)])
      (elements (enabledPlugins g)).

(** [_loadPluginPermission(pluginId)], synchronous part: a record with no
    principals is stored before the select is issued. *)
Definition _loadPluginPermission (pluginId : string) (g : t) : t * list DbOp :=
  (with_permissions
     (<[pluginId := mkPermission (discordId g) pluginId []]> (permissions g)) g,
   [DbSelect "Permissions" ["userRoleId"]
      [("discordGuildId", discordId g); ("pluginId", pluginId)]]).

(** [onPluginLoaded(pluginId)] *)
Definition onPluginLoaded (pluginId : string) (g : t) : t * list DbOp :=
  _loadPluginPermission pluginId g.

(** [onPluginDeleted(pluginId)] *)
Definition onPluginDeleted (pluginId : string) (g : t) : t :=
  with_enabledPlugins (enabledPlugins g ∖ {[pluginId]})
    (with_permissions (delete pluginId (permissions g)) g).

(** The roles loop of [loadDiscordAdmins]. *)
Fixpoint adminRoles (guildId : string) (roles : list DiscordRole) : list UserRole :=
  match roles with
  | [] => []
  | role :: rest =>
      if role_administrator role
      then mkUserRole None (Some (role_id role)) guildId :: adminRoles guildId rest
      else adminRoles guildId rest
  end.

(** [loadDiscordAdmins()]: the guild owner, then every administrator role.
    [None] stands for a guild the client does not know, where the source
    dereferences [undefined]; [updateGuilds] never gets there. *)
Definition loadDiscordAdmins (guild : option DiscordGuild) (g : t) : t :=
  match guild with
  | Some guild =>
      with_discordAdmins
        (mkUserRole (Some (dg_ownerID guild)) None (discordId g)
           :: adminRoles (discordId g) (dg_roles guild)) g
  | None => g
  end.

End Guild.

(** ** Guild registry and reconciliation ([discotron.js], [guild.js]) *)

Module Registry.

Record state : Type := mkState {
  _guilds : list (string * Guild.t);      (* Guild._guilds *)
  listeners : list (string * string);     (* discotron.on(action, ...) by guild *)
  issued : list DbOp                      (* persistence calls, oldest first *)
}.

(** [Guild.get(discordId)] *)
Definition get (id : string) (st : state) : option Guild.t :=
  Obj.get id (_guilds st).

(** [new Guild(discordId)]: two listeners, [_init()] up to its first
    [await] (the select of [_tryAdd]), then the registration. *)
Definition newGuild (defaultPrefix : string) (id : string) (st : state) : state :=
  {| _guilds := Obj.set id (Guild.fresh defaultPrefix id) (_guilds st);
     listeners := listeners st ++ [("plugin-loaded", id); ("plugin-deleted", id)];
     issued := issued st ++
       [DbSelect "Guilds" ["discordGuildId"] [("discordGuildId", id)]] |}.

(** [guild.delete()], synchronous part: only the call to the persistence
    layer; the registry is not touched yet. *)
Definition delete (id : string) (st : state) : state :=
  {| _guilds := _guilds st;
     listeners := listeners st;
     issued := issued st ++ [DbDelete "Guilds" [("discordGuildId", id)]] |}.

(** The [.then] callback of [delete()], run when the delete succeeded. *)
Definition delete_then (id : string) (st : state) : state :=
  {| _guilds := Obj.remove id (_guilds st);
     listeners := listeners st;
     issued := issued st |}.

(** [Guild.get(id).loadDiscordAdmins()] *)
Definition loadDiscordAdmins (client : list DiscordGuild) (id : string)
    (st : state) : state :=
  match get id st with
  | Some g =>
      {| _guilds := Obj.set id (Guild.loadDiscordAdmins (clientGuild client id) g)
                            (_guilds st);
         listeners := listeners st;
         issued := issued st |}
  | None => st
  end.

Definition addedGuilds (oldGuildIds newGuildIds : list string) : list string :=
  List.filter (fun id => negb (includes id oldGuildIds)) newGuildIds.

Definition removedGuilds (oldGuildIds newGuildIds : list string) : list string :=
  List.filter (fun id => negb (includes id newGuildIds)) oldGuildIds.

(** [updateGuilds()] *)
Definition updateGuilds (defaultPrefix : string) (client : list DiscordGuild)
    (st : state) : state :=
  let oldGuildIds := Obj.keys (_guilds st) in
  let newGuildIds := map dg_id client in
  let added := addedGuilds oldGuildIds newGuildIds in
  let removed := removedGuilds oldGuildIds newGuildIds in
  let st1 := fold_left (fun s id => newGuild defaultPrefix id s) added st in
  let st2 := fold_left (fun s id => delete id s) removed st1 in
  fold_left (fun s id => loadDiscordAdmins client id s) newGuildIds st2.

(** The persistence calls a run of [updateGuilds] adds to the log. *)
Definition issuedBy (defaultPrefix : string) (client : list DiscordGuild)
    (st : state) : list DbOp :=
  drop (length (issued st)) (issued (updateGuilds defaultPrefix client st)).

Definition isGuildsDelete (op : DbOp) : bool :=
  match op with
  | DbDelete table _ => String.eqb table "Guilds"
  | _ => false
  end.

End Registry.

(** ** Message router ([src/core/discotron.js], [onMessage]) *)

Module Router.

Record Author : Type := mkAuthor {
  id : string;                  (* message.author.id *)
  bot : bool                    (* message.author.bot *)
}.

Record Message : Type := mkMessage {
  author : Author;
  guild : option string;        (* message.guild: null, or a guild and its id *)
  channel : string;             (* message.channel.id *)
  content : string
}.

(** How a call of [command.doMessageAction(message, words, api)] ends;
    [plugin.getApiObject()] is evaluated inside the same [try]. *)
Inductive ActionResult : Type := Returns | Throws.

(** A command object as the router uses it. [triggeredBy] receives the
    message, the lower-cased text and, for [command]-type triggers only,
    the effective prefix. *)
Record Command : Type := mkCommand {
  trigger : string;
  scope : string;
  bypassSpamDetection : bool;
  triggeredBy : Message -> string -> option string -> bool;
  doMessageAction : Message -> list string -> ActionResult
}.

Record Plugin : Type := mkPlugin {
  name : string;
  prefix : string;
  enabled : bool;
  commands_command : list Command;    (* plugin.commands.command *)
  commands_words : list Command;      (* plugin.commands.words *)
  commands_all : list Command         (* plugin.commands.all *)
}.

(** The state [onMessage] reads: [botSettings], [Owner._owners],
    [Guild._guilds] and [Plugin.getAll()] in enumeration order. *)
Record Bot : Type := mkBot {
  maintenance : bool;
  owners : gset string;
  guilds : list (string * Guild.t);
  plugins : list (string * Plugin)
}.

Definition with_maintenance (m : bool) (b : Bot) : Bot :=
  {| maintenance := m; owners := owners b; guilds := guilds b;
     plugins := plugins b |}.

(** What a run of [onMessage] does, in program order. *)
Inductive Event : Type :=
| SpamAction (userId : string)                 (* SpamUser.onAction(author) *)
| SpamCheck (userId : string)                  (* SpamUser.isRestricted(author) *)
| Exec (pluginId : string) (command : Command) (* command.doMessageAction(...) *)
| LogErr (pluginName : string) (commandTrigger : string).   (* Logger.err(...) *)

(** How [onMessage] ends: it returns, or the dereference of
    [guild.permissions[pluginId]] raises a [TypeError] (line 81), or the
    value found for the guild is no guild and [guild.allowedChannelIds.has]
    raises one (line 64). *)
Inductive Outcome : Type :=
| Completed
| TypeError (pluginId : string)
| NotAGuild.

Definition isExec (e : Event) : bool :=
  match e with Exec _ _ => true | _ => false end.

Definition isSpamAction (e : Event) : bool :=
  match e with SpamAction _ => true | _ => false end.

Definition isSpamEvent (e : Event) : bool :=
  match e with SpamAction _ | SpamCheck _ => true | _ => false end.

(** The commands a trace invoked, with the plugin they belong to. *)
Fixpoint executed (t : list Event) : list (string * Command) :=
  match t with
  | [] => []
  | Exec p c :: rest => (p, c) :: executed rest
  | _ :: rest => executed rest
  end.

(** Lines 59-62: the guild context, when [Guild.get] finds a guild the
    registry holds. *)
Definition guildOf (b : Bot) (message : Message) : option Guild.t :=
  match guild message with
  | Some gid => Obj.get gid (guilds b)
  | None => None
  end.

(** Lines 59-62: [Guild.get] reads [Guild._guilds[id]], a plain object; for
    an identifier the registry does not hold but [Object.prototype] has a
    property for, what it returns is defined and no guild. *)
Definition guildIsInherited (b : Bot) (message : Message) : bool :=
  match guild message with
  | Some gid =>
      match Obj.read gid (guilds b) with
      | Obj.Inherited => true
      | _ => false
      end
  | None => false
  end.

(** Line 64: the allowed-channel gate. *)
Definition channelRejected (g : option Guild.t) (message : Message) : bool :=
  match g with
  | Some g =>
      negb (bool_decide (channel message ∈ Guild.allowedChannelIds g))
      && (0 <? size (Guild.allowedChannelIds g))%nat
  | None => false
  end.

(** Line 70 *)
Definition isCommand (g : option Guild.t) (message : Message) : bool :=
  match g with
  | None => true
  | Some g => JsString.startsWith (content message) (Guild.commandPrefix g)
  end.

(** Line 85: the enabled-plugin gate. *)
Definition notEnabledInGuild (g : option Guild.t) (pluginId : string) : bool :=
  match g with
  | Some g =>
      negb (bool_decide (pluginId ∈ Guild.enabledPlugins g))
      && (0 <? size (Guild.enabledPlugins g))%nat
  | None => false
  end.

(** Lines 89-95 *)
Definition effectivePrefix (g : option Guild.t) (plugin : Plugin) : string :=
  (match g with Some g => Guild.commandPrefix g | None => "" end) ++ prefix plugin.

Section WithCollaborators.
Context `{JsString.Lowering} `{PermissionResolver} `{SpamGuard}.

(** Lines 97-105: the [command]-type matches. *)
Definition prefixMatches (g : option Guild.t) (message : Message)
  (plugin : Plugin) : list Command :=
let loweredCaseMessage := JsString.toLowerCase (content message) in
let prefix := effectivePrefix g plugin in
if isCommand g message && JsString.startsWith loweredCaseMessage prefix
then List.filter (fun c => triggeredBy c message loweredCaseMessage (Some prefix))
                 (commands_command plugin)
else [].

(** Lines 107-114: the [words]-type matches, tried when nothing matched. *)
Definition candidates (g : option Guild.t) (message : Message)
  (plugin : Plugin) : list Command :=
let loweredCaseMessage := JsString.toLowerCase (content message) in
let commands := prefixMatches g message plugin in
if (length commands =? 0)%nat
then List.filter (fun c => triggeredBy c message loweredCaseMessage None)
                 (commands_words plugin)
else commands.

(** Lines 131-136: the [all]-type matches. *)
Definition allMatches (message : Message) (plugin : Plugin) : list Command :=
List.filter
  (fun c => triggeredBy c message (JsString.toLowerCase (content message)) None)
  (commands_all plugin).

(** Line 143 *)
Definition scopeMatches (g : option Guild.t) (c : Command) : bool :=
String.eqb (scope c) "everywhere"
|| (String.eqb (scope c) "pm" && negb (bool_decide (is_Some g)))
|| (String.eqb (scope c) "guild" && bool_decide (is_Some g)).

(** Lines 139-150: the execution loop with its [try]/[catch]. *)
Fixpoint execute (g : option Guild.t) (message : Message) (pluginId : string)
  (plugin : Plugin) (commands : list Command) : list Event :=
match commands with
| [] => []
| command :: rest =>
    (if scopeMatches g command then
       match doMessageAction command message (JsString.split (content message)) with
       | Returns => [Exec pluginId command]
       | Throws => [Exec pluginId command; LogErr (name plugin) (trigger command)]
       end
     else [])
    ++ execute g message pluginId plugin rest
end.

(** The result of a run, or of one turn of the plugin loop. *)
Record Run : Type := mkRun {
  spam : SpamState;
  trace : list Event;
  outcome : Outcome
}.

(** Lines 118-127: the loop stops at the first command that does not
    bypass spam detection; [rest] is what is left to scan of [commands]. *)
Fixpoint spamScan (userId : string) (rest commands : list Command)
    (st : SpamState) : list Command * SpamState * list Event :=
  match rest with
  | [] => (commands, st, [])
  | command :: rest' =>
      if negb (bypassSpamDetection command) then
        let st1 := onAction userId st in
        let '(restricted, st2) := isRestricted userId st1 in
        (if restricted then [] else commands, st2,
         [SpamAction userId; SpamCheck userId])
      else spamScan userId rest' commands st
  end.

(** Lines 116-128 *)
Definition spamDetection (b : Bot) (message : Message)
    (commands : list Command) (st : SpamState)
    : list Command * SpamState * list Event :=
  if negb (length commands =? 0)%nat
     && negb (Owner.isOwner (id (author message)) (owners b))
  then spamScan (id (author message)) commands commands st
  else (commands, st, []).

(** Lines 89-150: a plugin that passed every gate. *)
Definition evaluate (b : Bot) (g : option Guild.t) (message : Message)
    (pluginId : string) (plugin : Plugin) (st : SpamState) : Run :=
  let '(commands, st', spamEvents) :=
    spamDetection b message (candidates g message plugin) st in
  let commands := (commands ++ allMatches message plugin)%list in
  {| spam := st';
     trace := (spamEvents ++ execute g message pluginId plugin commands)%list;
     outcome := Completed |}.

Definition skip (st : SpamState) : Run :=
  {| spam := st; trace := []; outcome := Completed |}.

(** Lines 74-150: one turn of the loop over [plugins]. *)
Definition routePlugin (b : Bot) (g : option Guild.t) (message : Message)
    (pluginId : string) (plugin : Plugin) (st : SpamState) : Run :=
  if negb (enabled plugin) then skip st
  else
    match g with
    | None => evaluate b g message pluginId plugin st
    | Some guild =>
        match Guild.permissions guild !! pluginId with
        | None => {| spam := st; trace := []; outcome := TypeError pluginId |}
        | Some permission =>
            if negb (allows permission (id (author message))) then skip st
            else if notEnabledInGuild g pluginId then skip st
            else evaluate b g message pluginId plugin st
        end
    end.

(** Lines 73-151: the loop; an exception ends it. *)
Fixpoint routePlugins (b : Bot) (g : option Guild.t) (message : Message)
    (ps : list (string * Plugin)) (st : SpamState) : Run :=
  match ps with
  | [] => skip st
  | (pluginId, plugin) :: rest =>
      let r := routePlugin b g message pluginId plugin st in
      match outcome r with
      | Completed =>
          let r' := routePlugins b g message rest (spam r) in
          {| spam := spam r'; trace := (trace r ++ trace r')%list;
             outcome := outcome r' |}
      | TypeError _ | NotAGuild => r
      end
  end.

(** [onMessage(message)] *)
Definition onMessage (b : Bot) (message : Message) (st : SpamState) : Run :=
  if bot (author message) then skip st
  else if maintenance b && negb (Owner.isOwner (id (author message)) (owners b))
  then skip st
  else if guildIsInherited b message
  then {| spam := st; trace := []; outcome := NotAGuild |}
  else
    let g := guildOf b message in
    if channelRejected g message then skip st
    else routePlugins b g message (plugins b) st.

End WithCollaborators.

Arguments Run {_}.
Arguments mkRun {_}.

End Router.

(** ** Sample collaborators and data, used where a property is exercised on
    concrete input *)

Module Fixtures.
Import Router.

(** The built-in on ASCII text, which is all the sample data holds. *)
#[export] Instance asciiLowering : JsString.Lowering := {|
  JsString.toLowerCase := JsString.lowerAscii;
  JsString.toLowerCase_ascii := fun s _ => eq_refl
|}.

(** Modelled from the spec: [spam-user.js] is not among the sources.  A
    registry of actions per user without timestamps; a user is restricted
    from the tenth recorded action on (spec, scenario D); nothing ages out. *)
#[export] Instance countingGuard : SpamGuard := {|
  SpamState := list string;
  onAction := fun userId st => userId :: st;
  isRestricted := fun userId st =>
    ((10 <=? count_occ string_dec st userId)%nat, st)
|}.

(** Modelled from the spec: [permission.js] is not among the sources.  An
    empty principal list admits everyone; otherwise the user must be listed
    by identifier (no user holds a role here). *)
#[export] Instance listedUsers : PermissionResolver := {|
  allows := fun permission userId =>
    match _usersRoles permission with
    | [] => true
    | l => existsb
             (fun ur => match _discordUserId ur with
                        | Some u => String.eqb u userId
                        | None => false
                        end) l
    end
|}.

(** A command triggered by its word after the effective prefix. *)
Definition prefixed (t sc : string) (exempt : bool) (r : ActionResult) : Command :=
  {| trigger := t; scope := sc; bypassSpamDetection := exempt;
     triggeredBy := fun _ lowered p =>
       match p with
       | Some p => JsString.startsWith lowered (p ++ t)
       | None => false
       end;
     doMessageAction := fun _ _ => r |}.

(** A command triggered by every message. *)
Definition always (t sc : string) (r : ActionResult) : Command :=
  {| trigger := t; scope := sc; bypassSpamDetection := false;
     triggeredBy := fun _ _ _ => true;
     doMessageAction := fun _ _ => r |}.

Definition hello : Command := prefixed "hello" "everywhere" false Returns.
Definition boom : Command := prefixed "hello" "everywhere" false Throws.
Definition watcher : Command := always "watch" "everywhere" Returns.
Definition pmWatcher : Command := always "watch" "pm" Returns.

Definition greeter : Plugin :=
  {| name := "Greeter"; prefix := "p "; enabled := true;
     commands_command := [hello]; commands_words := [];
     commands_all := [watcher] |}.

Definition faulty : Plugin :=
  {| name := "Faulty"; prefix := "p "; enabled := true;
     commands_command := [boom; hello]; commands_words := [];
     commands_all := [] |}.

(** A plugin whose prefix is configured with an upper-case letter. *)
Definition shouting : Plugin :=
  {| name := "Shouting"; prefix := "P "; enabled := true;
     commands_command := [hello]; commands_words := [];
     commands_all := [] |}.

Definition pmOnly : Plugin :=
  {| name := "PmOnly"; prefix := "p "; enabled := true;
     commands_command := [hello]; commands_words := [];
     commands_all := [pmWatcher] |}.

Definition openPermission (pluginId : string) : Permission :=
  mkPermission "g1" pluginId [].

(** Guild [g1]: prefix [!], every channel and every plugin allowed,
    permission records for the plugins [greeter] and [faulty]. *)
Definition g1 : Guild.t :=
  {| Guild.discordId := "g1"; Guild.commandPrefix := "!";
     Guild.allowedChannelIds := ∅; Guild.enabledPlugins := ∅;
     Guild._admins := []; Guild._discordAdmins := [];
     Guild.permissions :=
       <["greeter" := openPermission "greeter"]>
         (<["faulty" := openPermission "faulty"]> ∅) |}.

Definition alice : Author := mkAuthor "alice" false.

Definition inGuild (text : string) : Message :=
  {| author := alice; guild := Some "g1"; channel := "general"; content := text |}.

Definition direct (text : string) : Message :=
  {| author := alice; guild := None; channel := "dm"; content := text |}.

(** A message of [alice] in the guild with identifier [gid]. *)
Definition inGuildOf (gid text : string) : Message :=
  {| author := alice; guild := Some gid; channel := "general"; content := text |}.

(** A command exempt from spam detection, and a plugin with that command
    alone. *)
Definition ping : Command := prefixed "ping" "everywhere" true Returns.

Definition pinger : Plugin :=
  {| name := "Pinger"; prefix := "p "; enabled := true;
     commands_command := [ping]; commands_words := [];
     commands_all := [] |}.

Definition bot1 : Bot :=
  {| maintenance := false; owners := {["root"]};
     guilds := [("g1", g1)];
     plugins := [("greeter", greeter)] |}.

(** Nine actions already recorded for [alice]: the next one restricts. *)
Definition nineActions : list string := repeat "alice" 9.

(** Ten of them: [alice] is restricted. *)
Definition tenActions : list string := repeat "alice" 10.

Definition root : Author := mkAuthor "root" false.

Definition fromRoot (text : string) : Message :=
  {| author := root; guild := Some "g1"; channel := "general"; content := text |}.

Definition maintenanceBot : Bot := with_maintenance true bot1.

(** Guild [g2]: only channel [bots] and only plugin [greeter] allowed. *)
Definition g2 : Guild.t :=
  {| Guild.discordId := "g2"; Guild.commandPrefix := "!";
     Guild.allowedChannelIds := {["bots"]}; Guild.enabledPlugins := {["greeter"]};
     Guild._admins := []; Guild._discordAdmins := [];
     Guild.permissions :=
       <["greeter" := mkPermission "g2" "greeter" []]>
         (<["faulty" := mkPermission "g2" "faulty" []]> ∅) |}.

Definition inG2 (ch text : string) : Message :=
  {| author := alice; guild := Some "g2"; channel := ch; content := text |}.

Definition bot2 : Bot :=
  {| maintenance := false; owners := {["root"]};
     guilds := [("g1", g1); ("g2", g2)];
     plugins := [("faulty", faulty); ("greeter", greeter)] |}.

(** Guild [g3] as [new Guild("g3")] leaves it: no permission record yet. *)
Definition g3 : Guild.t := Guild.fresh "!" "g3".

Definition inG3 (text : string) : Message :=
  {| author := alice; guild := Some "g3"; channel := "general"; content := text |}.

Definition bot3 : Bot :=
  {| maintenance := false; owners := {["root"]};
     guilds := [("g1", g1); ("g3", g3)];
     plugins := [("greeter", greeter); ("faulty", faulty)] |}.

(** Guild [g4]: the prefix contains a letter. *)
Definition g4 : Guild.t :=
  {| Guild.discordId := "g4"; Guild.commandPrefix := "t!";
     Guild.allowedChannelIds := ∅; Guild.enabledPlugins := ∅;
     Guild._admins := []; Guild._discordAdmins := [];
     Guild.permissions := <["greeter" := mkPermission "g4" "greeter" []]> ∅ |}.

Definition inG4 (text : string) : Message :=
  {| author := alice; guild := Some "g4"; channel := "general"; content := text |}.

Definition bot4 : Bot :=
  {| maintenance := false; owners := {["root"]};
     guilds := [("g4", g4)];
     plugins := [("greeter", greeter)] |}.

(** Guild [g8]: every plugin enabled (empty set), and the permission
    record of [greeter] lists [carol] alone. *)
Definition g8 : Guild.t :=
  {| Guild.discordId := "g8"; Guild.commandPrefix := "!";
     Guild.allowedChannelIds := ∅; Guild.enabledPlugins := ∅;
     Guild._admins := []; Guild._discordAdmins := [];
     Guild.permissions :=
       <["greeter" := mkPermission "g8" "greeter"
                        [mkUserRole (Some "carol") None "g8"]]> ∅ |}.

Definition bot8 : Bot :=
  {| maintenance := false; owners := {["root"]};
     guilds := [("g8", g8)];
     plugins := [("greeter", greeter)] |}.

(** A registry that knows guild [g1] only. *)
Definition registry1 : Registry.state :=
  {| Registry._guilds := [("g1", g1)]; Registry.listeners := [];
     Registry.issued := [] |}.

(** The client is connected to [g5] only. *)
Definition client5 : list DiscordGuild :=
  [mkDiscordGuild "g5" "ann" [mkRole "r1" true; mkRole "r2" false]].

End Fixtures.

(** ** Vocabulary of the properties *)

Module Props.
Import Router.

(** A message that gets past lines 51-66 of [onMessage], the three early
    returns and the read of the allowed channels of what [Guild.get]
    found, and so reaches the loop over the plugins. *)
Definition reachesPlugins (b : Bot) (message : Message) : bool :=
  negb (bot (author message))
  && negb (maintenance b && negb (Owner.isOwner (id (author message)) (owners b)))
  && negb (guildIsInherited b message)
  && negb (channelRejected (guildOf b message) message).

(** The same command with an action that never throws. *)
Definition silence (c : Command) : Command :=
  {| trigger := trigger c; scope := scope c;
     bypassSpamDetection := bypassSpamDetection c;
     triggeredBy := triggeredBy c;
     doMessageAction := fun _ _ => Returns |}.

Definition silencePlugin (p : Plugin) : Plugin :=
  {| name := name p; prefix := prefix p; enabled := enabled p;
     commands_command := map silence (commands_command p);
     commands_words := map silence (commands_words p);
     commands_all := map silence (commands_all p) |}.

Definition silenceBot (b : Bot) : Bot :=
  {| maintenance := maintenance b; owners := owners b; guilds := guilds b;
     plugins := map (fun '(pluginId, p) => (pluginId, silencePlugin p)) (plugins b) |}.

Definition silenceExecuted (l : list (string * Command)) : list (string * Command) :=
  map (fun '(pluginId, c) => (pluginId, silence c)) l.

(** Two runs that differ only in which actions throw: [r'] is the run
    without throwing actions. *)
Definition sameRouting `{SpamGuard} (r r' : Run) : Prop :=
  spam r' = spam r ∧ outcome r' = outcome r
  ∧ executed (trace r') = silenceExecuted (executed (trace r)).

(** The array [commands] of a plugin after line 136: what the spam gate
    kept of the prefix/word candidates, then the [all]-type matches. *)
Definition survivors `{JsString.Lowering} `{SpamGuard} (b : Bot) (g : option Guild.t)
    (message : Message) (plugin : Plugin) (st : SpamState) : list Command :=
  ((spamDetection b message (candidates g message plugin) st).1.1
   ++ allMatches message plugin)%list.

(** The permission record of [pluginId] in [g] exists and allows the
    author of the message. *)
Definition authorized `{PermissionResolver} (g : Guild.t) (message : Message)
    (pluginId : string) : bool :=
  match Guild.permissions g !! pluginId with
  | Some permission => allows permission (id (author message))
  | None => false
  end.

(** The plugins [ps] evaluated one after the other, each by lines 89-150,
    the spam registry handed on from one to the next. *)
Fixpoint evaluateAll `{JsString.Lowering} `{PermissionResolver} `{SpamGuard}
    (b : Bot) (g : option Guild.t) (message : Message)
    (ps : list (string * Plugin)) (st : SpamState) : Run :=
  match ps with
  | [] => skip st
  | (pluginId, plugin) :: rest =>
      let r := evaluate b g message pluginId plugin st in
      let r' := evaluateAll b g message rest (spam r) in
      {| spam := spam r'; trace := (trace r ++ trace r')%list;
         outcome := Completed |}
  end.

(** The bot with nothing registered under [pluginId]. *)
Definition withoutPlugin (pluginId : string) (b : Bot) : Bot :=
  {| maintenance := maintenance b; owners := owners b; guilds := guilds b;
     plugins := Obj.remove pluginId (plugins b) |}.

(** "For every guild whose [enabledPlugins] set is empty, every installed,
    globally-enabled plugin is evaluated for every message routed in that
    guild." *)
Definition emptySetEvaluatesEveryEnabledPlugin : Prop :=
  ∀ (L : JsString.Lowering) (R : PermissionResolver) (S : SpamGuard)
    (b : Bot) (g : Guild.t) (message : Message) (st : SpamState),
    guildOf b message = Some g →
    reachesPlugins b message = true →
    Guild.enabledPlugins g = ∅ →
    onMessage b message st
    = evaluateAll b (Some g) message
        (List.filter (fun p => enabled p.2) (plugins b)) st.

(** The events one candidate contributes to the trace once it passed the
    scope test. *)
Definition invocation (message : Message) (pluginId : string)
    (plugin : Plugin) (c : Command) : list Event :=
  match doMessageAction c message (JsString.split (content message)) with
  | Returns => [Exec pluginId c]
  | Throws => [Exec pluginId c; LogErr (name plugin) (trigger c)]
  end.

(** A character that lower-casing neither changes nor produces from
    another ASCII character: anything but a letter A-Z or a-z. *)
Definition caseless (c : ascii) : bool :=
  let n := nat_of_ascii c in
  negb ((65 <=? n)%nat && (n <=? 90)%nat) && negb ((97 <=? n)%nat && (n <=? 122)%nat).

Fixpoint caselessString (s : string) : bool :=
  match s with
  | EmptyString => true
  | String c rest => caseless c && caselessString rest
  end.

(** An upper-case letter, and a string that contains one. *)
Definition isUpper (c : ascii) : bool :=
  let n := nat_of_ascii c in (65 <=? n)%nat && (n <=? 90)%nat.

Fixpoint hasUpper (s : string) : bool :=
  match s with
  | EmptyString => false
  | String c rest => isUpper c || hasUpper rest
  end.

(** The reading of the message text that ignores letter case while the
    prefix is taken as configured. *)
Definition startsWithIgnoringMessageCase `{JsString.Lowering}
    (text p : string) : bool :=
  JsString.startsWith (JsString.toLowerCase text) p.

(** "The [isCommand] gate compares case-insensitively on the message
    text": whenever the message, letter case ignored, starts with the
    guild's prefix, the gate is open. *)
Definition isCommandIgnoresMessageCase `{JsString.Lowering} : Prop :=
  ∀ (g : Guild.t) (message : Message),
    startsWithIgnoringMessageCase (content message) (Guild.commandPrefix g) = true →
    isCommand (Some g) message = true.

(** "No delete operations are issued on the second call" of
    [updateGuilds] with the same connected guilds. *)
Definition secondCallIssuesNoDelete : Prop :=
  ∀ (defaultPrefix : string) (client : list DiscordGuild) (st : Registry.state),
    List.filter Registry.isGuildsDelete
      (Registry.issuedBy defaultPrefix client
         (Registry.updateGuilds defaultPrefix client st)) = [].

(** The registry once the deletes a run of [updateGuilds] started have
    all succeeded and their callbacks have run. *)
Definition deletesSettled (removed : list string) (st : Registry.state)
    : Registry.state :=
  fold_left (fun s id => Registry.delete_then id s) removed st.

(** A guild whose native admins are what the client reports for [id]. *)
Definition adminsLoaded (client : list DiscordGuild) (id : string)
    (g : Guild.t) : Prop :=
  Guild.loadDiscordAdmins (clientGuild client id) g = g.

(** The registry holds [id], native admins loaded. *)
Definition loadedAt (client : list DiscordGuild) (id : string)
    (st : Registry.state) : Prop :=
  ∃ g, Registry.get id st = Some g ∧ adminsLoaded client id g.

End Props.

(** * The rest of the sources *)

(** ** Further collaborators *)

(** [user-role.js]: [describes(discordUserId)], [UserRole.getById(id, guildId)]
    and [getId()], each taken at the value its promise resolves to. *)
Class UserRoles : Type := {
  describes : UserRole -> string -> bool;
  getById : string -> string -> UserRole;
  getId : UserRole -> string
}.

(** Modelled from the spec: [database/crud.js] is not among the sources.  The
    persistence layer keeps rows per logical table; [insert] adds a row,
    [delete] removes the rows of the table that agree with every entry of the
    filter, [select] returns those rows in insertion order, [update] rewrites
    the given columns of those rows. *)
Module Db.

Definition Row := DbFilter.

Definition t := list (string * Row).

(** The row agrees with every entry of the filter. *)
Definition matches (filter : DbFilter) (row : Row) : bool :=
  forallb (fun '(column, value) =>
             match Obj.get column row with
             | Some v => String.eqb v value
             | None => false
             end) filter.

Definition selected (table : string) (filter : DbFilter) (e : string * Row) : bool :=
  String.eqb table (fst e) && matches filter (snd e).

Definition select (table : string) (filter : DbFilter) (db : t) : list Row :=
  map snd (List.filter (selected table filter) db).

(** The values of one column of the rows returned (rows[i].column). *)
Fixpoint column (c : string) (rows : list Row) : list string :=
  match rows with
  | [] => []
  | row :: rest =>
      match Obj.get c row with
      | Some v => v :: column c rest
      | None => column c rest
      end
  end.

Definition apply (db : t) (op : DbOp) : t :=
  match op with
  | DbSelect _ _ _ => db
  | DbInsert table row => (db ++ [(table, row)])%list
  | DbDelete table filter =>
      List.filter (fun e => negb (selected table filter e)) db
  | DbUpdate table values filter =>
      map (fun e => if selected table filter e
                    then (fst e, fold_left (fun r '(c, v) => Obj.set c v r) values (snd e))
                    else e) db
  end.

Definition run (db : t) (ops : list DbOp) : t := fold_left apply ops db.

End Db.

(** ** Owner registry, continued ([owner.js], [getOwners]) *)

Module OwnerLoad.

(** The loop of [getOwners] over the rows of the select. *)
Definition addRows (rows : list string) (s : gset string) : gset string :=
  fold_left (fun s row => s ∪ {[row]}) rows s.

(** [static getOwners()]: [rows] is what [db.select("Owners")] resolves to,
    used only when the in-memory set is empty.  The result is the content
    of the array the promise resolves to. *)
Definition getOwners (rows : list string) (st : Owner.state)
    : Owner.state * gset string :=
  if (size (Owner._owners st) =? 0)%nat then
    let s := addRows rows (Owner._owners st) in
    (Owner.mkState s (Owner.effects st ++ [Owner.Db (DbSelect "Owners" [] [])])%list, s)
  else (st, Owner._owners st).

End OwnerLoad.

(** ** Guild model, continued ([guild.js]) *)

Module GuildOps.

Definition with_commandPrefix (p : string) (g : Guild.t) : Guild.t :=
  {| Guild.discordId := Guild.discordId g; Guild.commandPrefix := p;
     Guild.allowedChannelIds := Guild.allowedChannelIds g;
     Guild.enabledPlugins := Guild.enabledPlugins g;
     Guild._admins := Guild._admins g;
     Guild._discordAdmins := Guild._discordAdmins g;
     Guild.permissions := Guild.permissions g |}.

Definition with_allowedChannelIds (s : gset string) (g : Guild.t) : Guild.t :=
  {| Guild.discordId := Guild.discordId g;
     Guild.commandPrefix := Guild.commandPrefix g;
     Guild.allowedChannelIds := s;
     Guild.enabledPlugins := Guild.enabledPlugins g;
     Guild._admins := Guild._admins g;
     Guild._discordAdmins := Guild._discordAdmins g;
     Guild.permissions := Guild.permissions g |}.

Definition with_admins (a : list UserRole) (g : Guild.t) : Guild.t :=
  {| Guild.discordId := Guild.discordId g;
     Guild.commandPrefix := Guild.commandPrefix g;
     Guild.allowedChannelIds := Guild.allowedChannelIds g;
     Guild.enabledPlugins := Guild.enabledPlugins g;
     Guild._admins := a;
     Guild._discordAdmins := Guild._discordAdmins g;
     Guild.permissions := Guild.permissions g |}.

Definition guildFilter (g : Guild.t) : DbFilter :=
  [("discordGuildId", Guild.discordId g)].

Section WithUserRoles.
Context `{UserRoles}.

(** One [forEach] of [isAdmin]: the flag is raised by any principal that
    describes the user; returning [false] from the callback stops
    nothing. *)
Definition anyDescribes (admins : list UserRole) (discordUserId : string)
    (isAdmin : bool) : bool :=
  fold_left (fun isAdmin admin =>
               if describes admin discordUserId then true else isAdmin)
            admins isAdmin.

(** [isAdmin(discordUserId)] *)
Definition isAdmin (discordUserId : string) (g : Guild.t) : bool :=
  let isAdmin := anyDescribes (Guild._admins g) discordUserId false in
  if isAdmin then true
  else anyDescribes (Guild._discordAdmins g) discordUserId isAdmin.

(** How [isGuildAdmin] ends: with a boolean, or with the [TypeError] of
    calling [isAdmin] on [undefined]. *)
Inductive AdminAnswer : Type :=
| Answer (isAdmin : bool)
| NoSuchGuild.

(** [static isGuildAdmin(discordUserId, discordGuildId)]; an empty
    identifier is falsy. *)
Definition isGuildAdmin (discordUserId discordGuildId : string)
    (st : Registry.state) : AdminAnswer :=
  if String.eqb discordGuildId "" || String.eqb discordUserId "" then Answer false
  else
    match Registry.get discordGuildId st with
    | Some guild => Answer (isAdmin discordUserId guild)
    | None => NoSuchGuild
    end.

(** [new UserRole(ur._discordUserId, ur._discordRoleId, this.discordId)] *)
Definition restamp (g : Guild.t) (ur : UserRole) : UserRole :=
  mkUserRole (_discordUserId ur) (_discordRoleId ur) (Guild.discordId g).

(** [set admins(usersRoles)], synchronous part: the principals are
    rebuilt for this guild (twice over), stored, and the delete issued. *)
Definition set_admins (usersRoles : list UserRole) (g : Guild.t)
    : Guild.t * list DbOp :=
  let usersRoles := map (restamp g) usersRoles in
  let usersRoles := map (restamp g) usersRoles in
  (with_admins usersRoles g, [DbDelete "Admins" (guildFilter g)]).

(** The [.then] callback of that delete. *)
Definition set_admins_then (g : Guild.t) : list DbOp :=
  map (fun userRole =>
         DbInsert "Admins"
           [("discordGuildId", Guild.discordId g); ("userRoleId", getId userRole)])
      (Guild._admins g).

(** [setPluginPermission(pluginId, userRoles)], synchronous part; [None]
    is the [TypeError] of assigning to a property of [undefined]. *)
Definition setPluginPermission (pluginId : string) (userRoles : list UserRole)
    (g : Guild.t) : option (Guild.t * list DbOp) :=
  match Guild.permissions g !! pluginId with
  | None => None
  | Some permission =>
      Some (Guild.with_permissions
              (<[pluginId := mkPermission (perm_discordGuildId permission)
                               (perm_pluginId permission) userRoles]>
                 (Guild.permissions g)) g,
            [DbDelete "Permissions"
               [("discordGuildId", Guild.discordId g); ("pluginId", pluginId)]])
  end.

(** The [.then] callback of that delete. *)
Definition setPluginPermission_then (pluginId : string)
    (userRoles : list UserRole) (g : Guild.t) : list DbOp :=
  map (fun userRole =>
         DbInsert "Permissions"
           [("discordGuildId", Guild.discordId g); ("pluginId", pluginId);
            ("userRoleId", getId userRole)])
      userRoles.

(** [_loadAdminsFromDatabase()]: [rows] are the [userRoleId]s selected;
    the principals are added in the order of the rows. *)
Definition _loadAdminsFromDatabase (rows : list string) (g : Guild.t) : Guild.t :=
  with_admins
    (Guild._admins g ++ map (fun id => getById id (Guild.discordId g)) rows)%list g.

End WithUserRoles.

(** [set commandPrefix(prefix)] *)
Definition set_commandPrefix (p : string) (g : Guild.t) : Guild.t * list DbOp :=
  (with_commandPrefix p g,
   [DbUpdate "GuildSettings" [("prefix", p)] (guildFilter g)]).

(** [set allowedChannelIds(discordChannelIds)], synchronous part. *)
Definition set_allowedChannelIds (discordChannelIds : list string) (g : Guild.t)
    : Guild.t * list DbOp :=
  (with_allowedChannelIds (list_to_set discordChannelIds) g,
   [DbDelete "AllowedChannels" (guildFilter g)]).

(** The [.then] callback of that delete: the [return] inside the [for] loop
    leaves it in its first turn. *)
Definition set_allowedChannelIds_then (discordChannelIds : list string)
    (g : Guild.t) : list DbOp :=
  match discordChannelIds with
  | [] => []
  | discordChannelId :: _ =>
      [DbInsert "AllowedChannels"
         [("discordGuildId", Guild.discordId g);
          ("discordChannelId", discordChannelId)]]
  end.

(** [_loadEnabledPlugins()]: [rows] are the [pluginId]s selected. *)
Definition _loadEnabledPlugins (rows : list string) (g : Guild.t) : Guild.t :=
  Guild.with_enabledPlugins
    (fold_left (fun s row => s ∪ {[row]}) rows (Guild.enabledPlugins g)) g.

(** [_loadAllowedChannels()]: [rows] are the [discordChannelId]s selected. *)
Definition _loadAllowedChannels (rows : list string) (g : Guild.t) : Guild.t :=
  with_allowedChannelIds
    (fold_left (fun s row => s ∪ {[row]}) rows (Guild.allowedChannelIds g)) g.

(** [_loadGuildSettings()]: [rows] are the [prefix]es selected; [None] is
    the rejection with [GuildSettings not found]. *)
Definition _loadGuildSettings (rows : list string) (g : Guild.t) : option Guild.t :=
  match rows with
  | p :: _ => Some (with_commandPrefix p g)
  | [] => None
  end.

(** [_tryAdd()]: [rows] are the rows of [Guilds] for this guild. *)
Definition _tryAdd (rows : list string) (g : Guild.t) : list DbOp :=
  (DbSelect "Guilds" ["discordGuildId"] (guildFilter g)
   :: (if (length rows =? 0)%nat
       then [DbInsert "Guilds" (guildFilter g);
             DbInsert "GuildSettings" (guildFilter g)]
       else []))%list.

(** What the five selects of [_init] resolve to. *)
Record Answers : Type := mkAnswers {
  guildsRows : list string;
  settingsRows : list string;
  adminsRows : list string;
  channelsRows : list string;
  pluginsRows : list string
}.

Record Initialised : Type := mkInitialised {
  guild : Guild.t;
  issued : list DbOp;
  logged : list string         (* messages of the errors given to Logger.err *)
}.

(** [async _init()]: the five steps in order; the rejection of
    [_loadGuildSettings] is caught and logged, the steps after it do not
    run.  The persistence calls themselves are taken to succeed. *)
Definition _init `{UserRoles} (a : Answers) (g : Guild.t) : Initialised :=
  let ops := (_tryAdd (guildsRows a) g
              ++ [DbSelect "GuildSettings" ["prefix"] (guildFilter g)])%list in
  match _loadGuildSettings (settingsRows a) g with
  | None => {| guild := g; issued := ops; logged := ["GuildSettings not found"] |}
  | Some g1 =>
      let g2 := _loadAdminsFromDatabase (adminsRows a) g1 in
      let g3 := _loadAllowedChannels (channelsRows a) g2 in
      let g4 := _loadEnabledPlugins (pluginsRows a) g3 in
      {| guild := g4;
         issued := (ops ++
                    [DbSelect "Admins" ["userRoleId"] (guildFilter g);
                     DbSelect "AllowedChannels" ["discordChannelId"] (guildFilter g);
                     DbSelect "GuildEnabledPlugins" ["pluginId"] (guildFilter g)])%list;
         logged := [] |}
  end.

(** The guild after [plugin-loaded] reached it for each of [pluginIds]. *)
Definition pluginsLoaded (pluginIds : list string) (g : Guild.t) : Guild.t :=
  fold_left (fun g pluginId => (Guild.onPluginLoaded pluginId g).1) pluginIds g.

End GuildOps.

(** [loadGuilds()], the [.then] callback: one [new Guild] per row of
    [GuildSettings]. *)
Definition loadGuilds_then (defaultPrefix : string) (rows : list string)
    (st : Registry.state) : Registry.state :=
  fold_left (fun s discordGuildId => Registry.newGuild defaultPrefix discordGuildId s)
            rows st.

(** ** Event bus ([discotron.js], [on] and [triggerEvent]) *)

Module EventBus.

Section Bus.
Context {L D : Type}.

(** [on(actionName, action)]; [actions] is the object [actions], read by
    key only.  Under a name that [Object.prototype] has a property for
    and nobody registered, [actions[actionName]] is that property, which
    has no [push]: the call throws ([None]) and changes nothing. *)
Definition on (actionName : string) (action : L)
    (actions : gmap string (list L)) : option (gmap string (list L)) :=
  match actions !! actionName with
  | Some registered => Some (<[actionName := (registered ++ [action])%list]> actions)
  | None =>
      if Obj.isInherited actionName then None
      else Some (<[actionName := [action]]> actions)
  end.

(** What [triggerEvent] does: a warning, or the listeners called with the
    data, in order, or a [TypeError]. *)
Inductive Triggered : Type :=
| Warned (message : string)
| Called (calls : list (L * D))
| Raised.

(** [triggerEvent(actionName, data)].  Under an inherited name the loop
    runs up to the [length] of the inherited value, and its first turn
    calls [undefined]. *)
Definition triggerEvent (actionName : string) (data : D)
    (actions : gmap string (list L)) : Triggered :=
  match actions !! actionName with
  | Some registered => Called (map (fun action => (action, data)) registered)
  | None =>
      if Obj.isInherited actionName then
        match Obj.inheritedLength actionName with
        | Some (S _) => Raised
        | _ => Called []
        end
      else Warned ("Cannot trigger inexistent action: **" ++ actionName ++ "**")
  end.

(** A sequence of [on] calls, oldest first; a call that throws leaves
    [actions] as it was. *)
Definition registerAll (calls : list (string * L))
    (actions : gmap string (list L)) : gmap string (list L) :=
  fold_left (fun acts '(actionName, action) =>
               default acts (on actionName action acts))
            calls actions.

(** The listeners a sequence of [on] calls gave to [actionName]. *)
Definition registeredFor (actionName : string) (calls : list (string * L)) : list L :=
  map snd (List.filter (fun c => String.eqb (fst c) actionName) calls).

End Bus.

End EventBus.

(** ** Start-up ([src/bot/index.js]) *)

Module BotIndex.

(** Truthiness of a value that is a string or [undefined]. *)
Definition truthy (v : option string) : bool :=
  match v with
  | Some s => negb (String.eqb s "")
  | None => false
  end.

(** [handleArgs(args)]: [configPath] is [args["config-path"]], [c] is
    [args.c]; the result is [global.discotronConfigPath], which was
    [current] before the call. *)
Definition handleArgs (configPath c : option string) (current : string) : string :=
  let cfgPath := if truthy configPath then configPath else c in
  match cfgPath with
  | Some p =>
      if truthy cfgPath then
        match String.get (String.length p - 1) p with
        | Some "/"%char => String.substring 0 (String.length p - 1) p
        | _ => p
        end
      else current
  | None => current
  end.

(** The fields of [bot.json] that [loadConfig] looks at. *)
Record AppConfig : Type := mkAppConfig {
  token : option string;
  applicationId : option string;
  oauth2Secret : option string;
  redirectURI : option string
}.

(** [typeof v === "undefined" || v === ""] *)
Definition missing (v : option string) : bool :=
  match v with
  | Some s => String.eqb s ""
  | None => true
  end.

(** A field that is there and not empty. *)
Definition present (v : option string) : Prop :=
  ∃ s, v = Some s ∧ s ≠ "".

(** How [loadConfig] ends: [appConfig] is set, or the process exits after
    the message was logged. *)
Inductive Loaded : Type :=
| Ready (appConfig : AppConfig)
| Exits (message : string).

(** [loadConfig()]: [required] is what [require(".../bot.json")] returns,
    [None] when it throws. *)
Definition loadConfig (required : option AppConfig) : Loaded :=
  match required with
  | None => Exits "Please run **npm install** and set up the application config."
  | Some appConfig =>
      if missing (token appConfig) then Exits "Missing **token** in **bot.json**."
      else if missing (applicationId appConfig)
      then Exits "Missing **applicationId** in **bot.json**."
      else if missing (oauth2Secret appConfig)
      then Exits "Missing **oauth2Secret** in **bot.json**."
      else if missing (redirectURI appConfig)
      then Exits "Missing **redirectURI** in **bot.json**."
      else Ready appConfig
  end.

End BotIndex.

(** ** Dashboard models ([src/dashboard/www/scripts/models]) *)

Module Dashboard.

(** A call of [discotron.WebAPI.queryBot(plugin, endpoint, data, guildId)]. *)
Inductive Query : Type :=
| QueryBot (plugin endpoint : string) (data : DbFilter) (guildId : option string).

(** *** [user.js] *)

Record UserOptions : Type := mkUserOptions {
  name : string;
  discordId : string;
  avatarURL : string;
  discriminator : string
}.

Record User : Type := mkUser {
  _name : string;
  _discriminator : string;
  _discordId : string;
  _tag : string;
  _avatarURL : string
}.

(** [new discotron.User(options)] *)
Definition newUser (options : UserOptions) : User :=
  {| _name := name options; _discriminator := discriminator options;
     _discordId := discordId options;
     _tag := name options ++ "#" ++ discriminator options;
     _avatarURL := avatarURL options |}.

(** [static create(options)]; [users] is [discotron.User._users]. *)
Definition createUser (options : UserOptions) (users : list (string * User))
    : User * list (string * User) :=
  let user := newUser options in
  (user, Obj.set (discordId options) user users).

(** What the promise of [get] resolves with: a user, or what
    [Object.prototype] holds under the identifier. *)
Inductive Resolved : Type :=
| ResolvedUser (user : User)
| ResolvedInherited.

(** [static get(discordId)]; [userObject] is what the bot answers to
    [get-user-info], asked only when [_users[discordId]] is [undefined]. *)
Definition getUser (id : string) (userObject : UserOptions)
    (users : list (string * User))
    : Resolved * list (string * User) * list Query :=
  match Obj.read id users with
  | Obj.Undefined =>
      let '(user, users') := createUser userObject users in
      (ResolvedUser user, users',
       [QueryBot "discotron-dashboard" "get-user-info" [("discordId", id)] None])
  | Obj.Own user => (ResolvedUser user, users, [])
  | Obj.Inherited => (ResolvedInherited, users, [])
  end.

(** [static getByTag(tag)], over the own keys of [_users] in the order
    [for ... in] lists them; [None] is [undefined]. *)
Fixpoint getByTag (tag : string) (users : list (string * User)) : option User :=
  match users with
  | [] => None
  | (_, user) :: rest =>
      if String.eqb (_tag user) tag then Some user else getByTag tag rest
  end.

(** *** [plugin.js], the plugin cache *)

Section PluginCache.
Context {P : Type}.
Variable idOf : P -> string.       (* options.id *)

(** [static create(options)] *)
Definition createPlugin (plugin : P) (plugins : list (string * P))
    : list (string * P) :=
  Obj.set (idOf plugin) plugin plugins.

(** [static getAll()]; [data] is what the bot answers to [get-plugins],
    asked only when the cache is empty. *)
Definition getAllPlugins (data : list P) (plugins : list (string * P))
    : list (string * P) * list Query :=
  if (length (Obj.keys plugins) =? 0)%nat then
    (fold_left (fun ps plugin => createPlugin plugin ps) data plugins,
     [QueryBot "discotron-dashboard" "get-plugins" [] None])
  else (plugins, []).

(** [static clearCache()] *)
Definition clearCache (plugins : list (string * P)) : list (string * P) := [].

End PluginCache.

(** *** [plugin.js], the guild as the dashboard keeps it *)

(** The loop in the callback of [setPluginEnabled]. *)
Fixpoint addOthers (pluginId : string) (plugins : list string)
    (s : gset string) : gset string :=
  match plugins with
  | [] => s
  | pluginId_ :: rest =>
      if negb (String.eqb pluginId_ pluginId)
      then addOthers pluginId rest (s ∪ {[pluginId_]})
      else addOthers pluginId rest s
  end.

Definition showBool (b : bool) : string := if b then "true" else "false".

(** [setPluginEnabled(pluginId, enabled)], synchronous part, on
    [this._enabledPlugins]: the set, whether the callback on
    [Plugin.getAll()] was set up, and the call to the bot (a query that
    [Plugin.getAll()] itself makes is that of [getAllPlugins]). *)
Definition setPluginEnabled (guildId pluginId : string) (enabled : bool)
    (s : gset string) : gset string * bool * list Query :=
  let call := QueryBot "discotron-dashboard" "set-plugin-enabled"
                [("pluginId", pluginId); ("enabled", showBool enabled)]
                (Some guildId) in
  if (size s =? 0)%nat then (s, negb enabled, [call])
  else (if enabled then s ∪ {[pluginId]} else s ∖ {[pluginId]}, false, [call]).

(** The callback: [plugins] are the keys [Plugin.getAll()] resolves to. *)
Definition setPluginEnabled_then (plugins : list string) (pluginId : string)
    (s : gset string) : gset string :=
  addOthers pluginId plugins s.

(** The set once the callback, if any, has run. *)
Definition setPluginEnabled_settled (plugins : list string)
    (guildId pluginId : string) (enabled : bool) (s : gset string) : gset string :=
  let '(s', pending, _) := setPluginEnabled guildId pluginId enabled s in
  if pending then setPluginEnabled_then plugins pluginId s' else s'.

End Dashboard.

(** ** More sample data *)

Module Samples.

(** Modelled from the spec: [user-role.js] is not among the sources.  A
    principal describes the user it names; a role principal describes
    nobody (no user holds a role here).  Stored principals are numbered by
    the user they name. *)
#[export] Instance byUserId : UserRoles := {|
  describes := fun ur discordUserId =>
    match _discordUserId ur with
    | Some u => String.eqb u discordUserId
    | None => false
    end;
  getById := fun id guildId => mkUserRole (Some id) None guildId;
  getId := fun ur =>
    match _discordUserId ur with
    | Some u => u
    | None => "0"
    end
|}.

Definition ann : UserRole := mkUserRole (Some "ann") None "elsewhere".
Definition mods : UserRole := mkUserRole None (Some "mods") "elsewhere".

(** Guild [g6]: explicit admin [ann], plugins [greeter] and [faulty]
    enabled, channels [bots] and [general] allowed. *)
Definition g6 : Guild.t :=
  {| Guild.discordId := "g6"; Guild.commandPrefix := "!";
     Guild.allowedChannelIds := {["bots"; "general"]};
     Guild.enabledPlugins := {["greeter"; "faulty"]};
     Guild._admins := [mkUserRole (Some "ann") None "g6"];
     Guild._discordAdmins := [];
     Guild.permissions := <["greeter" := mkPermission "g6" "greeter" []]> ∅ |}.

Definition registry6 : Registry.state :=
  {| Registry._guilds := [("g6", g6)]; Registry.listeners := [];
     Registry.issued := [] |}.

(** A database with rows of another guild. *)
Definition db0 : Db.t :=
  [("GuildEnabledPlugins", [("pluginId", "greeter"); ("discordGuildId", "g1")]);
   ("AllowedChannels", [("discordGuildId", "g1"); ("discordChannelId", "lobby")]);
   ("GuildEnabledPlugins", [("pluginId", "old"); ("discordGuildId", "g6")])].

(** Guild [g7]: new, then reached by [plugin-loaded] for both plugins. *)
Definition g7 : Guild.t :=
  GuildOps.pluginsLoaded ["greeter"; "faulty"] (Guild.fresh "!" "g7").

Definition bot7 : Router.Bot :=
  {| Router.maintenance := false; Router.owners := {["root"]};
     Router.guilds := [("g7", g7)];
     Router.plugins := [("greeter", Fixtures.greeter); ("faulty", Fixtures.faulty)] |}.

Definition inG7 (text : string) : Router.Message :=
  {| Router.author := Fixtures.alice; Router.guild := Some "g7";
     Router.channel := "general"; Router.content := text |}.

Definition bob : Dashboard.UserOptions :=
  Dashboard.mkUserOptions "bob" "42" "bob.png" "0001".

Definition eve : Dashboard.UserOptions :=
  Dashboard.mkUserOptions "eve" "43" "eve.png" "0002".

(** Another account with the tag of [bob]. *)
Definition bob43 : Dashboard.UserOptions :=
  Dashboard.mkUserOptions "bob" "43" "old.png" "0001".

End Samples.

(** ** Vocabulary of the further properties *)

Module RouterProps.
Import Router.

(** How command [c] of [plugin] came to match [message]. *)
Definition triggeredIn `{JsString.Lowering} (g : option Guild.t) (message : Message)
    (plugin : Plugin) (c : Command) : Prop :=
  let lowered := JsString.toLowerCase (content message) in
  (In c (commands_command plugin)
   ∧ triggeredBy c message lowered (Some (effectivePrefix g plugin)) = true
   ∧ isCommand g message = true
   ∧ JsString.startsWith lowered (effectivePrefix g plugin) = true)
  ∨ (In c (commands_words plugin)
     ∧ triggeredBy c message lowered None = true
     ∧ prefixMatches g message plugin = [])
  ∨ (In c (commands_all plugin)
     ∧ triggeredBy c message lowered None = true).

(** The guild, if there is one, lets the author use plugin [pluginId] in
    the channel of the message. *)
Definition cleared `{PermissionResolver} (g : option Guild.t)
    (message : Message) (pluginId : string) : Prop :=
  match g with
  | None => True
  | Some guild =>
      (∃ permission, Guild.permissions guild !! pluginId = Some permission
                     ∧ allows permission (id (author message)) = true)
      ∧ (Guild.enabledPlugins guild = ∅ ∨ pluginId ∈ Guild.enabledPlugins guild)
      ∧ (Guild.allowedChannelIds guild = ∅
         ∨ channel message ∈ Guild.allowedChannelIds guild)
  end.

End RouterProps.

(** * Properties *)

Local Open Scope list_scope.

(** ** Owner registry *)

Lemma setOwners_nonempty (ids : list string) (st : Owner.state) :
  ids ≠ [] →
  Owner.setOwners ids st =
    Owner.mkState (list_to_set ids)
      (Owner.effects st ++
         [Owner.AssignOwners (list_to_set ids); Owner.Db (DbDelete "Owners" [])]).
Proof.
  intros Hne. unfold Owner.setOwners.
  destruct ids as [|i ids]; [congruence | reflexivity].
Qed.

Lemma inserts_are_db (ids : list string) :
  forallb Owner.isDb
    (map (fun id => Owner.Db (DbInsert "Owners" [("discordUserId", id)])) ids) = true.
Proof. induction ids as [|i ids IH]; simpl; auto. Qed.

Lemma persisted_inserts (ids rows : list string) :
  Owner.persisted rows
    (map (fun id => Owner.Db (DbInsert "Owners" [("discordUserId", id)])) ids)
  = rows ++ ids.
Proof.
  unfold Owner.persisted.
  revert rows. induction ids as [|i ids IH]; intros rows; cbn [map fold_left].
  - by rewrite app_nil_r.
  - rewrite IH.
    change (Owner.applyEffect rows (Owner.Db (DbInsert "Owners" [("discordUserId", i)])))
      with (rows ++ [i]).
    by rewrite <- app_assoc.
Qed.

(** Once the delete and the inserts have been carried out, the table holds
    the given identifiers and nothing else. *)
Lemma setOwners_persisted (ids rows : list string) :
  Owner.persisted rows
    (Owner.Db (DbDelete "Owners" [])
       :: map (fun id => Owner.Db (DbInsert "Owners" [("discordUserId", id)])) ids)
  = ids.
Proof. exact (persisted_inserts ids []). Qed.

(** C8. [setOwners] with an empty array returns the state it was given: the
    in-memory set, the effect log and hence the persisted rows are the same.
    With a non-empty array the members of [Owner._owners] are exactly the
    given identifiers, and among the effects the call adds (its [.then]
    callback included) the assignment to [Owner._owners] comes first and
    everything after it is a persistence call. *)
Theorem setOwners_guard_and_order (ids : list string) (st : Owner.state) :
  (Owner.setOwners [] st = st
   ∧ ∀ rows, Owner.persisted rows (Owner.effects (Owner.setOwners [] st))
             = Owner.persisted rows (Owner.effects st))
  ∧ (ids ≠ [] →
     let st' := Owner.setOwners ids st in
     (∀ x, x ∈ Owner._owners st' ↔ x ∈ ids)
     ∧ (∃ writes,
          Owner.effects st' =
            Owner.effects st ++ Owner.AssignOwners (list_to_set ids) :: writes
          ∧ writes ≠ [] ∧ forallb Owner.isDb writes = true)
     ∧ (∃ writes,
          Owner.effects (Owner.setOwners_then ids st') =
            Owner.effects st ++ Owner.AssignOwners (list_to_set ids) :: writes
          ∧ forallb Owner.isDb writes = true)).
Proof.
  split; [split; reflexivity |].
  intros Hne st'. subst st'. rewrite (setOwners_nonempty ids st Hne). simpl.
  split; [| split].
  - intros x. apply elem_of_list_to_set.
  - exists [Owner.Db (DbDelete "Owners" [])].
    split; [reflexivity | split; [discriminate | reflexivity]].
  - exists (Owner.Db (DbDelete "Owners" [])
            :: map (fun id => Owner.Db (DbInsert "Owners" [("discordUserId", id)])) ids).
    split.
    + rewrite <- app_assoc. reflexivity.
    + simpl. apply inserts_are_db.
Qed.

Lemma setOwners_guard_and_order_witness :
  let st := Owner.mkState {["root"]} [] in
  Owner.setOwners [] st = st
  ∧ Owner._owners (Owner.setOwners ["ann"; "bob"] st) = list_to_set ["ann"; "bob"]
  ∧ "root" ∉ Owner._owners (Owner.setOwners ["ann"; "bob"] st).
Proof.
  intros st.
  destruct (setOwners_guard_and_order ["ann"; "bob"] st) as [[Hnoop _] Hrepl].
  assert (Hne : ["ann"; "bob"] ≠ []) by discriminate.
  destruct (Hrepl Hne) as [Hmem _].
  split; [exact Hnoop |]. split; [reflexivity |].
  intros Hin. apply Hmem in Hin.
  apply list_elem_of_In in Hin. simpl in Hin.
  destruct Hin as [Hin | [Hin | []]]; discriminate.
Defined.

(** ** Enabled-plugin set of a guild *)

Lemma addAllBut_spec (p : string) (installed : list string) (s : gset string) :
  Guild.addAllBut p installed s = s ∪ (list_to_set installed ∖ {[p]}).
Proof.
  revert s. induction installed as [|q rest IH]; intros s; simpl.
  - set_solver.
  - destruct (String.eqb_spec p q) as [-> | Hne]; simpl; rewrite IH; set_solver.
Qed.

Lemma notEnabledInGuild_empty (g : Guild.t) (q : string) :
  Guild.enabledPlugins g = ∅ → Router.notEnabledInGuild (Some g) q = false.
Proof.
  intros He. unfold Router.notEnabledInGuild. rewrite He, size_empty.
  apply andb_false_r.
Qed.

(** C6. On the sentinel (empty) set, disabling plugin [p] leaves exactly the
    installed plugins other than [p], and enabling leaves the set empty.  On
    a set that lists only [p], disabling [p] empties it, and the router's
    gate then rejects no plugin at all, [p] included. *)
Theorem setPluginEnabled_sentinel (installed : list string) (p : string) (g : Guild.t) :
  (Guild.enabledPlugins g = ∅ →
     Guild.enabledPlugins (Guild.setPluginEnabled installed p false g).1
       = list_to_set installed ∖ {[p]}
     ∧ Guild.enabledPlugins (Guild.setPluginEnabled installed p true g).1 = ∅)
  ∧ (Guild.enabledPlugins g = {[p]} →
     let g' := (Guild.setPluginEnabled installed p false g).1 in
     Guild.enabledPlugins g' = ∅
     ∧ ∀ q, Router.notEnabledInGuild (Some g') q = false).
Proof.
  split.
  - intros He. unfold Guild.setPluginEnabled. simpl. rewrite He, size_empty. simpl.
    split; [| reflexivity]. rewrite addAllBut_spec. set_solver.
  - intros Hs g'.
    assert (Hempty : Guild.enabledPlugins g' = ∅).
    { subst g'. unfold Guild.setPluginEnabled. simpl.
      rewrite Hs, size_singleton. simpl. set_solver. }
    split; [exact Hempty |].
    intros q. apply notEnabledInGuild_empty. exact Hempty.
Qed.

Lemma setPluginEnabled_sentinel_witness :
  Guild.enabledPlugins
    (Guild.setPluginEnabled ["greeter"; "faulty"; "pmOnly"] "faulty" false Fixtures.g1).1
  = list_to_set ["greeter"; "faulty"; "pmOnly"] ∖ {["faulty"]}
  ∧ Guild.enabledPlugins
      (Guild.setPluginEnabled ["greeter"]  "greeter" false
         (Guild.with_enabledPlugins {["greeter"]} Fixtures.g1)).1 = ∅.
Proof.
  split.
  - apply (setPluginEnabled_sentinel ["greeter"; "faulty"; "pmOnly"] "faulty" Fixtures.g1).
    reflexivity.
  - apply (setPluginEnabled_sentinel ["greeter"] "greeter"
             (Guild.with_enabledPlugins {["greeter"]} Fixtures.g1)).
    reflexivity.
Defined.

(** ** The gates of [onMessage] *)

Section Gates.
Context `{JsString.Lowering} `{PermissionResolver} `{SpamGuard}.
Import Router.

Lemma size_pos_of_nonempty (s : gset string) : s ≠ ∅ → (0 <? size s)%nat = true.
Proof.
  intros Hne. apply Nat.ltb_lt.
  destruct (size s) eqn:Hs; [| lia].
  exfalso. apply Hne. apply leibniz_equiv. by apply size_empty_inv.
Qed.

(** A guild the registry holds is a guild. *)
Lemma guildOf_held (b : Bot) (message : Message) (g : Guild.t) :
  guildOf b message = Some g → guildIsInherited b message = false.
Proof.
  unfold guildOf, guildIsInherited, Obj.read.
  destruct (guild message); [| done]. by intros ->.
Qed.

Lemma evaluate_outcome (b : Bot) g message pluginId plugin (st : SpamState) :
  outcome (evaluate b g message pluginId plugin st) = Completed.
Proof.
  unfold evaluate.
  by destruct (spamDetection b message (candidates g message plugin) st) as [[? ?] ?].
Qed.

(** The loop never raises the error of line 64. *)
Lemma routePlugin_past_lookup (b : Bot) g message pluginId plugin (st : SpamState) :
  outcome (routePlugin b g message pluginId plugin st) ≠ NotAGuild.
Proof.
  unfold routePlugin. destruct (enabled plugin); cbn [negb]; [| done].
  destruct g as [guild|]; [| by rewrite evaluate_outcome].
  destruct (Guild.permissions guild !! pluginId) as [permission|]; [| done].
  destruct (allows permission _); cbn [negb]; [| done].
  destruct (notEnabledInGuild (Some guild) pluginId);
    [done | by rewrite evaluate_outcome].
Qed.

Lemma routePlugins_past_lookup (b : Bot) g message ps (st : SpamState) :
  outcome (routePlugins b g message ps st) ≠ NotAGuild.
Proof.
  revert st. induction ps as [|[pluginId plugin] rest IH]; intros st; simpl;
    [done |].
  pose proof (routePlugin_past_lookup b g message pluginId plugin st) as Hq.
  destruct (outcome (routePlugin b g message pluginId plugin st)) eqn:Hr; simpl;
    [apply IH | by rewrite Hr | by rewrite Hr].
Qed.

Lemma spamDetection_owners (b b' : Bot) (message : Message)
    (cs : list Command) (st : SpamState) :
  owners b = owners b' →
  spamDetection b message cs st = spamDetection b' message cs st.
Proof. intros Ho. unfold spamDetection. by rewrite Ho. Qed.

Lemma routePlugin_owners (b b' : Bot) g message pluginId plugin (st : SpamState) :
  owners b = owners b' →
  routePlugin b g message pluginId plugin st
  = routePlugin b' g message pluginId plugin st.
Proof.
  intros Ho. unfold routePlugin, evaluate.
  by rewrite (spamDetection_owners b b' _ _ _ Ho).
Qed.

Lemma routePlugins_owners (b b' : Bot) g message ps (st : SpamState) :
  owners b = owners b' →
  routePlugins b g message ps st = routePlugins b' g message ps st.
Proof.
  intros Ho. revert st. induction ps as [|[pluginId plugin] rest IH]; intros st; simpl.
  - reflexivity.
  - rewrite (routePlugin_owners b b' _ _ _ _ _ Ho).
    destruct (outcome (routePlugin b' g message pluginId plugin st));
      [by rewrite IH | reflexivity | reflexivity].
Qed.

Lemma execute_no_spam g message pluginId plugin cs :
  List.filter isSpamEvent (execute g message pluginId plugin cs) = [].
Proof.
  induction cs as [|c cs IH]; simpl; [reflexivity |].
  rewrite List.filter_app, IH, app_nil_r.
  destruct (scopeMatches g c); [| reflexivity].
  by destruct (doMessageAction c message _).
Qed.

Lemma spamDetection_owner (b : Bot) message cs (st : SpamState) :
  Owner.isOwner (id (author message)) (owners b) = true →
  spamDetection b message cs st = (cs, st, []).
Proof.
  intros Ho. unfold spamDetection. rewrite Ho. simpl.
  by rewrite andb_false_r.
Qed.

Lemma routePlugin_owner (b : Bot) g message pluginId plugin (st : SpamState) :
  Owner.isOwner (id (author message)) (owners b) = true →
  let r := routePlugin b g message pluginId plugin st in
  spam r = st ∧ List.filter isSpamEvent (trace r) = [].
Proof.
  intros Ho r. subst r.
  assert (Hev : ∀ g', spam (evaluate b g' message pluginId plugin st) = st
            ∧ List.filter isSpamEvent
                (trace (evaluate b g' message pluginId plugin st)) = []).
  { intros g'. unfold evaluate. rewrite (spamDetection_owner _ _ _ _ Ho).
    split; [reflexivity | apply execute_no_spam]. }
  unfold routePlugin.
  destruct (enabled plugin); [| by split].
  destruct g as [guild|]; [| apply Hev].
  destruct (Guild.permissions guild !! pluginId) as [permission|]; [| by split].
  destruct (allows permission _); [| by split].
  destruct (notEnabledInGuild (Some guild) pluginId); [by split | apply Hev].
Qed.

Lemma routePlugins_owner (b : Bot) g message ps (st : SpamState) :
  Owner.isOwner (id (author message)) (owners b) = true →
  let r := routePlugins b g message ps st in
  spam r = st ∧ List.filter isSpamEvent (trace r) = [].
Proof.
  intros Ho. revert st.
  induction ps as [|[pluginId plugin] rest IH]; intros st; simpl; [by split |].
  destruct (routePlugin_owner b g message pluginId plugin st Ho) as [Hs Ht].
  destruct (outcome (routePlugin b g message pluginId plugin st)); simpl.
  - rewrite Hs. destruct (IH st) as [Hs' Ht'].
    split; [exact Hs' |]. by rewrite List.filter_app, Ht, Ht'.
  - by split.
  - by split.
Qed.

(** C5. In maintenance mode a message of a non-owner makes [onMessage]
    return at once: empty trace, spam registry untouched.  A message of an
    owner is routed exactly as with maintenance mode off, and its routing
    neither changes the spam registry nor calls [SpamUser.onAction] or
    [SpamUser.isRestricted]. *)
Theorem maintenance_mode (b : Bot) (message : Message) (st : SpamState) :
  maintenance b = true →
  (Owner.isOwner (id (author message)) (owners b) = false →
     onMessage b message st = skip st)
  ∧ (Owner.isOwner (id (author message)) (owners b) = true →
       onMessage b message st = onMessage (with_maintenance false b) message st
       ∧ spam (onMessage b message st) = st
       ∧ List.filter isSpamEvent (trace (onMessage b message st)) = []).
Proof.
  intros Hm. split; intros Ho.
  - unfold onMessage. rewrite Hm, Ho. simpl. by destruct (bot (author message)).
  - assert (Heq : onMessage b message st
                  = onMessage (with_maintenance false b) message st).
    { unfold onMessage. rewrite Hm. simpl. rewrite Ho. simpl.
      destruct (bot (author message)); [reflexivity |].
      change (guildIsInherited (with_maintenance false b) message)
        with (guildIsInherited b message).
      destruct (guildIsInherited b message); [reflexivity |].
      change (guildOf (with_maintenance false b) message) with (guildOf b message).
      destruct (channelRejected (guildOf b message) message); [reflexivity |].
      by apply routePlugins_owners. }
    split; [exact Heq |].
    unfold onMessage. rewrite Hm, Ho. simpl.
    destruct (bot (author message)); [by split |].
    destruct (guildIsInherited b message); [by split |].
    destruct (channelRejected (guildOf b message) message); [by split |].
    by apply routePlugins_owner.
Qed.

(** C4. With a guild context whose allowed-channel set is non-empty, a
    message from a channel outside the set makes [onMessage] return with an
    empty trace and the spam registry untouched; with an empty set the
    channel gate rejects no channel. *)
Theorem allowedChannels_gate (b : Bot) (message : Message) (g : Guild.t)
    (st : SpamState) :
  guildOf b message = Some g →
  (Guild.allowedChannelIds g ≠ ∅ →
     channel message ∉ Guild.allowedChannelIds g →
     onMessage b message st = skip st
     ∧ executed (trace (onMessage b message st)) = [])
  ∧ (Guild.allowedChannelIds g = ∅ → channelRejected (Some g) message = false).
Proof.
  intros Hg. split.
  - intros Hne Hnotin.
    assert (Hskip : onMessage b message st = skip st).
    { unfold onMessage. rewrite (guildOf_held _ _ _ Hg), Hg.
      destruct (bot (author message)); [reflexivity |].
      destruct (maintenance b && _); [reflexivity |].
      unfold channelRejected.
      rewrite (size_pos_of_nonempty _ Hne), bool_decide_eq_false_2 by exact Hnotin.
      reflexivity. }
    split; [exact Hskip | by rewrite Hskip].
  - intros He. unfold channelRejected. rewrite He, size_empty. apply andb_false_r.
Qed.

(** The gate of line 85, for one turn of the loop. *)
Lemma line85_gate (b : Bot) (g : Guild.t) (message : Message)
    (pluginId : string) (plugin : Plugin) (st : SpamState) :
  (Guild.enabledPlugins g = ∅ →
     notEnabledInGuild (Some g) pluginId = false
     ∧ ∀ permission,
         enabled plugin = true →
         Guild.permissions g !! pluginId = Some permission →
         allows permission (id (author message)) = true →
         routePlugin b (Some g) message pluginId plugin st
         = evaluate b (Some g) message pluginId plugin st)
  ∧ (Guild.enabledPlugins g ≠ ∅ →
     pluginId ∉ Guild.enabledPlugins g →
     notEnabledInGuild (Some g) pluginId = true
     ∧ trace (routePlugin b (Some g) message pluginId plugin st) = []
     ∧ spam (routePlugin b (Some g) message pluginId plugin st) = st
     ∧ (is_Some (Guild.permissions g !! pluginId) →
        routePlugin b (Some g) message pluginId plugin st = skip st)).
Proof.
  split.
  - intros He. split; [by apply notEnabledInGuild_empty |].
    intros permission Hen Hp Ha. unfold routePlugin.
    by rewrite Hen, Hp, Ha, (notEnabledInGuild_empty g pluginId He).
  - intros Hne Hnotin.
    assert (Hgate : notEnabledInGuild (Some g) pluginId = true).
    { unfold notEnabledInGuild.
      by rewrite (size_pos_of_nonempty _ Hne), bool_decide_eq_false_2. }
    split; [exact Hgate |]. unfold routePlugin. rewrite Hgate.
    destruct (enabled plugin); simpl.
    + destruct (Guild.permissions g !! pluginId) as [permission|]; simpl.
      * by destruct (allows permission _).
      * repeat split; try reflexivity. intros [? ?]; discriminate.
    + by repeat split.
Qed.

End Gates.

Import Fixtures.

Lemma maintenance_mode_witness :
  Router.onMessage Fixtures.maintenanceBot (Fixtures.inGuild "!p hello") []
    = Router.skip []
  ∧ Router.spam (Router.onMessage Fixtures.maintenanceBot (Fixtures.fromRoot "!p hello") [])
    = [].
Proof.
  split.
  - apply (@maintenance_mode Fixtures.asciiLowering Fixtures.listedUsers Fixtures.countingGuard
             Fixtures.maintenanceBot (Fixtures.inGuild "!p hello") []);
      reflexivity.
  - apply (@maintenance_mode Fixtures.asciiLowering Fixtures.listedUsers Fixtures.countingGuard
             Fixtures.maintenanceBot (Fixtures.fromRoot "!p hello") []);
      reflexivity.
Defined.

Lemma allowedChannels_gate_witness :
  Router.onMessage Fixtures.bot2 (Fixtures.inG2 "general" "!p hello") []
    = Router.skip []
  ∧ Router.channelRejected (Some Fixtures.g1) (Fixtures.inGuild "!p hello") = false.
Proof.
  split.
  - apply (@allowedChannels_gate Fixtures.asciiLowering Fixtures.listedUsers Fixtures.countingGuard
             Fixtures.bot2 (Fixtures.inG2 "general" "!p hello") Fixtures.g2 []).
    + reflexivity.
    + simpl. set_solver.
    + simpl. set_solver.
  - apply (@allowedChannels_gate Fixtures.asciiLowering Fixtures.listedUsers Fixtures.countingGuard
             Fixtures.bot1 (Fixtures.inGuild "!p hello") Fixtures.g1 []);
      reflexivity.
Defined.

(** ** The permission record of a plugin *)

Section PermissionRecords.
Context `{JsString.Lowering} `{PermissionResolver} `{SpamGuard}.
Import Router.

(** Where records come from: [new Guild(id)] starts without any, and
    [_loadPluginPermission], run on the [plugin-loaded] event, stores one. *)
Lemma fresh_has_no_record (defaultPrefix id pluginId : string) :
  Guild.permissions (Guild.fresh defaultPrefix id) !! pluginId = None.
Proof. apply lookup_empty. Qed.

Lemma loadPluginPermission_stores_record (pluginId : string) (g : Guild.t) :
  is_Some (Guild.permissions (Guild._loadPluginPermission pluginId g).1 !! pluginId).
Proof. simpl. rewrite lookup_insert_eq. by eexists. Qed.

Lemma routePlugin_outcome (b : Bot) (guild : Guild.t) message pluginId plugin
    (st : SpamState) :
  outcome (routePlugin b (Some guild) message pluginId plugin st) =
    if enabled plugin then
      match Guild.permissions guild !! pluginId with
      | Some _ => Completed
      | None => TypeError pluginId
      end
    else Completed.
Proof.
  unfold routePlugin. destruct (enabled plugin); [| reflexivity].
  destruct (Guild.permissions guild !! pluginId) as [permission|]; [| reflexivity].
  destruct (allows permission _); [| reflexivity].
  destruct (notEnabledInGuild (Some guild) pluginId);
    [reflexivity | apply evaluate_outcome].
Qed.

Lemma routePlugins_completed (b : Bot) (guild : Guild.t) message ps (st : SpamState) :
  outcome (routePlugins b (Some guild) message ps st) = Completed ↔
  ∀ pluginId plugin, In (pluginId, plugin) ps → enabled plugin = true →
                     is_Some (Guild.permissions guild !! pluginId).
Proof.
  revert st. induction ps as [|[p pl] rest IH]; intros st; simpl.
  - split; [intros _ ? ? [] | reflexivity].
  - pose proof (routePlugin_outcome b guild message p pl st) as Ho.
    destruct (outcome (routePlugin b (Some guild) message p pl st)) eqn:Hr; simpl.
    + rewrite IH. split.
      * intros Hrest q ql [Heq | Hin] Hen; [| by eapply Hrest].
        inversion Heq; subst q ql. rewrite Hen in Ho.
        destruct (Guild.permissions guild !! p); [by eexists | discriminate].
      * intros Hall q ql Hin. apply Hall. by right.
    + rewrite Hr. split; [discriminate |].
      intros Hall. exfalso.
      destruct (enabled pl) eqn:Hen; [| discriminate].
      destruct (Hall p pl (or_introl eq_refl) Hen) as [x Hx].
      rewrite Hx in Ho. discriminate.
    + by destruct (routePlugin_past_lookup b (Some guild) message p pl st).
Qed.

Lemma routePlugins_typeError (b : Bot) (guild : Guild.t) message ps (st : SpamState) p :
  outcome (routePlugins b (Some guild) message ps st) = TypeError p →
  ∃ plugin, In (p, plugin) ps ∧ enabled plugin = true
            ∧ Guild.permissions guild !! p = None.
Proof.
  revert st. induction ps as [|[q ql] rest IH]; intros st; simpl; [discriminate |].
  pose proof (routePlugin_outcome b guild message q ql st) as Ho.
  destruct (outcome (routePlugin b (Some guild) message q ql st)) eqn:Hr; simpl.
  - intros Hrest. destruct (IH _ Hrest) as (pl & Hin & Hen & Hp).
    exists pl. by auto.
  - rewrite Hr. intros Heq. inversion Heq; subst pluginId.
    destruct (enabled ql) eqn:Hen; [| discriminate].
    destruct (Guild.permissions guild !! q) eqn:Hp; [discriminate |].
    inversion Ho; subst q. exists ql. by auto.
  - by destruct (routePlugin_past_lookup b (Some guild) message q ql st).
Qed.

Lemma routePlugins_no_guild (b : Bot) message ps (st : SpamState) :
  outcome (routePlugins b None message ps st) = Completed.
Proof.
  revert st. induction ps as [|[q ql] rest IH]; intros st; simpl; [reflexivity |].
  assert (Ho : outcome (routePlugin b None message q ql st) = Completed).
  { unfold routePlugin. destruct (enabled ql); [apply evaluate_outcome | reflexivity]. }
  rewrite Ho. simpl. apply IH.
Qed.

Lemma onMessage_reaches (b : Bot) message (st : SpamState) :
  Props.reachesPlugins b message = true →
  onMessage b message st = routePlugins b (guildOf b message) message (plugins b) st.
Proof.
  unfold Props.reachesPlugins, onMessage. intros Hr.
  apply andb_prop in Hr as [Hr Hc]. apply andb_prop in Hr as [Hr Ha].
  apply andb_prop in Hr as [Hb Hm].
  apply negb_true_iff in Hb, Hm, Ha, Hc. by rewrite Hb, Hm, Ha, Hc.
Qed.

(** C10. For a message with a guild context that reaches the plugin loop,
    [onMessage] returns normally exactly when the guild holds a permission
    record for every globally enabled plugin, whether or not the plugin is
    in the guild's enabled set; otherwise it ends in the [TypeError] raised
    at the first enabled plugin without a record. *)
Theorem permission_record_required (b : Bot) (message : Message) (g : Guild.t)
    (st : SpamState) :
  guildOf b message = Some g →
  Props.reachesPlugins b message = true →
  (outcome (onMessage b message st) = Completed ↔
     ∀ pluginId plugin, In (pluginId, plugin) (plugins b) → enabled plugin = true →
                        is_Some (Guild.permissions g !! pluginId))
  ∧ ((∃ pluginId plugin, In (pluginId, plugin) (plugins b) ∧ enabled plugin = true
                         ∧ Guild.permissions g !! pluginId = None) →
     ∃ pluginId plugin, In (pluginId, plugin) (plugins b) ∧ enabled plugin = true
                        ∧ Guild.permissions g !! pluginId = None
                        ∧ outcome (onMessage b message st) = TypeError pluginId).
Proof.
  intros Hg Hr. rewrite (onMessage_reaches b message st Hr), Hg.
  split; [apply routePlugins_completed |].
  intros (p & pl & Hin & Hen & Hnone).
  destruct (outcome (routePlugins b (Some g) message (plugins b) st)) eqn:Ho.
  - exfalso.
    destruct (proj1 (routePlugins_completed b g message (plugins b) st) Ho
                p pl Hin Hen) as [x Hx].
    congruence.
  - destruct (routePlugins_typeError _ _ _ _ _ _ Ho) as (ql & Hin' & Hen' & Hp').
    exists pluginId, ql. by auto.
  - by destruct (routePlugins_past_lookup b (Some g) message (plugins b) st).
Qed.

End PermissionRecords.

Lemma permission_record_required_witness :
  Router.outcome (Router.onMessage bot1 (inGuild "!p hello") []) = Router.Completed
  ∧ ∃ pluginId plugin,
      In (pluginId, plugin) (Router.plugins bot3) ∧ Router.enabled plugin = true
      ∧ Guild.permissions g3 !! pluginId = None
      ∧ Router.outcome (Router.onMessage bot3 (inG3 "!p hello") [])
        = Router.TypeError pluginId.
Proof.
  split.
  - apply (@permission_record_required asciiLowering listedUsers countingGuard
             bot1 (inGuild "!p hello") g1 [] eq_refl eq_refl).
    intros pluginId plugin [Heq | []] _. inversion Heq. by eexists.
  - apply (@permission_record_required asciiLowering listedUsers countingGuard
             bot3 (inG3 "!p hello") g3 [] eq_refl eq_refl).
    exists "greeter", greeter. repeat split. by left.
Defined.

(** ** Execution of the surviving candidates *)

Section Execution.
Context `{JsString.Lowering} `{PermissionResolver} `{SpamGuard}.
Import Router.

Lemma executed_app (t1 t2 : list Event) :
  executed (t1 ++ t2) = executed t1 ++ executed t2.
Proof.
  induction t1 as [|e t1 IH]; simpl; [reflexivity |].
  destruct e; simpl; by rewrite IH.
Qed.

Lemma execute_invocations g message pluginId plugin cs :
  execute g message pluginId plugin cs
  = flat_map (Props.invocation message pluginId plugin)
             (List.filter (scopeMatches g) cs).
Proof.
  induction cs as [|c cs IH]; simpl; [reflexivity |].
  rewrite IH. destruct (scopeMatches g c); reflexivity.
Qed.

Lemma executed_execute g message pluginId plugin cs :
  executed (execute g message pluginId plugin cs)
  = map (pair pluginId) (List.filter (scopeMatches g) cs).
Proof.
  induction cs as [|c cs IH]; simpl; [reflexivity |].
  rewrite executed_app, IH.
  destruct (scopeMatches g c); [| reflexivity].
  by destruct (doMessageAction c message _).
Qed.

Lemma spamScan_events userId rest cs (st : SpamState) :
  executed (spamScan userId rest cs st).2 = [].
Proof.
  revert st. induction rest as [|c rest IH]; intros st; simpl; [reflexivity |].
  destruct (bypassSpamDetection c); simpl; [apply IH |].
  by destruct (isRestricted userId (onAction userId st)).
Qed.

Lemma spamDetection_events (b : Bot) message cs (st : SpamState) :
  executed (spamDetection b message cs st).2 = [].
Proof.
  unfold spamDetection. destruct (negb _ && negb _); [apply spamScan_events | reflexivity].
Qed.

Lemma evaluate_executed (b : Bot) g message pluginId plugin (st : SpamState) :
  executed (trace (evaluate b g message pluginId plugin st))
  = map (pair pluginId)
      (List.filter (scopeMatches g)
         ((spamDetection b message (candidates g message plugin) st).1.1
          ++ allMatches message plugin)).
Proof.
  unfold evaluate.
  pose proof (spamDetection_events b message (candidates g message plugin) st) as He.
  destruct (spamDetection b message (candidates g message plugin) st) as [[kept st'] ev].
  simpl in *. by rewrite executed_app, He, executed_execute.
Qed.

(** *** Commands whose action never throws *)

Lemma filter_silence (f : Command → bool) (l : list Command) :
  (∀ c, f (Props.silence c) = f c) →
  List.filter f (map Props.silence l) = map Props.silence (List.filter f l).
Proof.
  intros Hf. rewrite List.filter_map_swap. f_equal.
  apply List.filter_ext. exact Hf.
Qed.

Lemma prefixMatches_silence g message plugin :
  prefixMatches g message (Props.silencePlugin plugin)
  = map Props.silence (prefixMatches g message plugin).
Proof.
  unfold prefixMatches.
  change (effectivePrefix g (Props.silencePlugin plugin)) with (effectivePrefix g plugin).
  destruct (isCommand g message && _); [| reflexivity].
  simpl. by apply filter_silence.
Qed.

Lemma candidates_silence g message plugin :
  candidates g message (Props.silencePlugin plugin)
  = map Props.silence (candidates g message plugin).
Proof.
  unfold candidates. rewrite prefixMatches_silence, length_map.
  destruct (length (prefixMatches g message plugin) =? 0)%nat; [| reflexivity].
  simpl. by apply filter_silence.
Qed.

Lemma allMatches_silence message plugin :
  allMatches message (Props.silencePlugin plugin)
  = map Props.silence (allMatches message plugin).
Proof. unfold allMatches. simpl. by apply filter_silence. Qed.

Lemma spamScan_silence userId rest cs (st : SpamState) :
  spamScan userId (map Props.silence rest) (map Props.silence cs) st
  = let '(kept, st', ev) := spamScan userId rest cs st in
    (map Props.silence kept, st', ev).
Proof.
  revert st. induction rest as [|c rest IH]; intros st; simpl; [reflexivity |].
  destruct (bypassSpamDetection c); simpl; [apply IH |].
  destruct (isRestricted userId (onAction userId st)) as [[|] st2]; reflexivity.
Qed.

Lemma spamDetection_silence (b : Bot) message cs (st : SpamState) :
  spamDetection (Props.silenceBot b) message (map Props.silence cs) st
  = let '(kept, st', ev) := spamDetection b message cs st in
    (map Props.silence kept, st', ev).
Proof.
  unfold spamDetection. rewrite length_map.
  change (owners (Props.silenceBot b)) with (owners b).
  destruct (negb _ && negb _); [apply spamScan_silence | reflexivity].
Qed.

Lemma scopeMatches_silence g c : scopeMatches g (Props.silence c) = scopeMatches g c.
Proof. reflexivity. Qed.

Lemma silenceExecuted_pair pluginId (cs : list Command) :
  Props.silenceExecuted (map (pair pluginId) cs)
  = map (pair pluginId) (map Props.silence cs).
Proof. unfold Props.silenceExecuted. rewrite !map_map. reflexivity. Qed.

Lemma evaluate_silence (b : Bot) g message pluginId plugin (st : SpamState) :
  Props.sameRouting (evaluate b g message pluginId plugin st)
    (evaluate (Props.silenceBot b) g message pluginId (Props.silencePlugin plugin) st).
Proof.
  unfold Props.sameRouting. rewrite !evaluate_executed, !evaluate_outcome.
  unfold evaluate.
  rewrite candidates_silence, allMatches_silence, spamDetection_silence.
  destruct (spamDetection b message (candidates g message plugin) st) as [[kept st'] ev].
  simpl. repeat split.
  rewrite silenceExecuted_pair, <- map_app. f_equal.
  apply filter_silence. apply scopeMatches_silence.
Qed.

Lemma sameRouting_refl_skip (st : SpamState) : Props.sameRouting (skip st) (skip st).
Proof. by repeat split. Qed.

Lemma routePlugin_silence (b : Bot) g message pluginId plugin (st : SpamState) :
  Props.sameRouting (routePlugin b g message pluginId plugin st)
    (routePlugin (Props.silenceBot b) g message pluginId (Props.silencePlugin plugin) st).
Proof.
  unfold routePlugin.
  change (enabled (Props.silencePlugin plugin)) with (enabled plugin).
  destruct (enabled plugin); [| apply sameRouting_refl_skip].
  destruct g as [guild|]; [| apply evaluate_silence].
  destruct (Guild.permissions guild !! pluginId) as [permission|]; [| by repeat split].
  destruct (allows permission _); [| apply sameRouting_refl_skip].
  destruct (notEnabledInGuild (Some guild) pluginId);
    [apply sameRouting_refl_skip | apply evaluate_silence].
Qed.

Lemma routePlugins_silence (b : Bot) g message ps (st : SpamState) :
  Props.sameRouting (routePlugins b g message ps st)
    (routePlugins (Props.silenceBot b) g message
       (map (fun '(pluginId, p) => (pluginId, Props.silencePlugin p)) ps) st).
Proof.
  revert st. induction ps as [|[p pl] rest IH]; intros st; simpl;
    [apply sameRouting_refl_skip |].
  destruct (routePlugin_silence b g message p pl st) as (Hs & Ho & He).
  rewrite Ho.
  destruct (outcome (routePlugin b g message p pl st)) eqn:Hr.
  - rewrite Hs.
    destruct (IH (spam (routePlugin b g message p pl st))) as (Hs' & Ho' & He').
    unfold Props.sameRouting. simpl. repeat split; [exact Hs' | exact Ho' |].
    rewrite !executed_app, He, He'. unfold Props.silenceExecuted.
    by rewrite map_app.
  - unfold Props.sameRouting. rewrite Hr. auto.
  - unfold Props.sameRouting. rewrite Hr. auto.
Qed.

(** C9. The execution loop turns every candidate that passes the scope
    test into one invocation; an invocation that throws leaves
    [Logger.err] with the plugin's name and the command's trigger right
    behind it and the loop goes on, so the commands invoked are all the
    candidates that pass the scope test, in order.  For the whole of
    [onMessage]: the spam registry, the way the run ends and the sequence
    of commands invoked (of every plugin) are what they are when no action
    throws. *)
Theorem action_failure_isolated (b : Bot) (g : option Guild.t) (message : Message)
    (pluginId : string) (plugin : Plugin) (commands : list Command)
    (st : SpamState) :
  execute g message pluginId plugin commands
    = flat_map (Props.invocation message pluginId plugin)
               (List.filter (scopeMatches g) commands)
  ∧ (∀ c, doMessageAction c message (JsString.split (content message)) = Throws →
          Props.invocation message pluginId plugin c
          = [Exec pluginId c; LogErr (name plugin) (trigger c)])
  ∧ executed (execute g message pluginId plugin commands)
    = map (pair pluginId) (List.filter (scopeMatches g) commands)
  ∧ Props.sameRouting (onMessage b message st) (onMessage (Props.silenceBot b) message st).
Proof.
  split; [apply execute_invocations |].
  split; [intros c Hc; unfold Props.invocation; by rewrite Hc |].
  split; [apply executed_execute |].
  unfold onMessage.
  change (owners (Props.silenceBot b)) with (owners b).
  change (maintenance (Props.silenceBot b)) with (maintenance b).
  change (guildOf (Props.silenceBot b) message) with (guildOf b message).
  change (guildIsInherited (Props.silenceBot b) message)
    with (guildIsInherited b message).
  destruct (bot (author message)); [apply sameRouting_refl_skip |].
  destruct (maintenance b && _); [apply sameRouting_refl_skip |].
  destruct (guildIsInherited b message); [by repeat split |].
  destruct (channelRejected _ _); [apply sameRouting_refl_skip |].
  apply routePlugins_silence.
Qed.

End Execution.

Lemma action_failure_isolated_witness :
  Router.executed (Router.trace (Router.onMessage bot2 (inGuild "!p hello") []))
  = [("faulty", boom); ("faulty", hello); ("greeter", hello); ("greeter", watcher)]
  ∧ Props.invocation (inGuild "!p hello") "faulty" faulty boom
    = [Router.Exec "faulty" boom; Router.LogErr "Faulty" "hello"].
Proof.
  split; [reflexivity |].
  apply (@action_failure_isolated asciiLowering listedUsers countingGuard
           bot2 (Some g1) (inGuild "!p hello") "faulty" faulty [boom; hello] []).
  reflexivity.
Defined.

(** ** The spam gate *)

Section SpamGate.
Context `{JsString.Lowering} `{PermissionResolver} `{SpamGuard}.
Import Router.

Lemma spamScan_hit userId rest cs (st : SpamState) :
  (∃ c, In c rest ∧ bypassSpamDetection c = false) →
  spamScan userId rest cs st
  = (if (isRestricted userId (onAction userId st)).1 then [] else cs,
     (isRestricted userId (onAction userId st)).2,
     [SpamAction userId; SpamCheck userId]).
Proof.
  induction rest as [|c rest IH]; intros (c' & Hin & Hb); simpl; [destruct Hin |].
  destruct (bypassSpamDetection c) eqn:Hc; simpl.
  - apply IH. destruct Hin as [-> | Hin]; [congruence | by exists c'].
  - by destruct (isRestricted userId (onAction userId st)).
Qed.

Lemma spamScan_all_exempt userId rest cs (st : SpamState) :
  forallb bypassSpamDetection rest = true →
  spamScan userId rest cs st = (cs, st, []).
Proof.
  induction rest as [|c rest IH]; simpl; [reflexivity |].
  intros Hall. apply andb_prop in Hall as [Hc Hrest]. rewrite Hc. simpl. by apply IH.
Qed.

Lemma filter_isSpamAction_execute g message pluginId plugin cs :
  List.filter isSpamAction (execute g message pluginId plugin cs) = [].
Proof.
  induction cs as [|c cs IH]; simpl; [reflexivity |].
  rewrite List.filter_app, IH, app_nil_r.
  destruct (scopeMatches g c); [| reflexivity].
  by destruct (doMessageAction c message _).
Qed.


End SpamGate.


(** ** Letter case in the prefix comparisons *)

Section LetterCase.
Context `{JsString.Lowering}.
Import Router.

Lemma lowerChar_caseless (a b : ascii) :
  Props.caseless a = true → (a = b ↔ a = JsString.lowerChar b).
Proof.
  unfold Props.caseless, JsString.lowerChar. intros Ha.
  apply andb_prop in Ha as [Hup Hlow].
  apply negb_true_iff in Hup, Hlow.
  destruct ((65 <=? nat_of_ascii b)%nat && (nat_of_ascii b <=? 90)%nat) eqn:Hb;
    [| tauto].
  apply andb_prop in Hb as [Hb1 Hb2].
  apply Nat.leb_le in Hb1, Hb2.
  split; intros Heq; exfalso.
  - subst b. rewrite (proj2 (Nat.leb_le _ _) Hb1), (proj2 (Nat.leb_le _ _) Hb2) in Hup.
    discriminate.
  - assert (Hn : nat_of_ascii a = nat_of_ascii b + 32).
    { rewrite Heq. apply nat_ascii_embedding. lia. }
    rewrite Hn in Hlow.
    assert (H1 : (97 <=? nat_of_ascii b + 32)%nat = true) by (apply Nat.leb_le; lia).
    assert (H2 : (nat_of_ascii b + 32 <=? 122)%nat = true) by (apply Nat.leb_le; lia).
    rewrite H1, H2 in Hlow. discriminate.
Qed.

Lemma prefix_caseless (p s : string) :
  Props.caselessString p = true →
  String.prefix p s = String.prefix p (JsString.lowerAscii s).
Proof.
  revert p. induction s as [|b s IH]; intros p Hp.
  - destruct p; reflexivity.
  - destruct p as [|a p]; [reflexivity |].
    simpl in Hp. apply andb_prop in Hp as [Ha Hp]. simpl.
    pose proof (lowerChar_caseless a b Ha) as Hiff.
    destruct (ascii_dec a b) as [Hab | Hab];
      destruct (ascii_dec a (JsString.lowerChar b)) as [Hal | Hal];
      try tauto.
    by apply IH.
Qed.

Lemma lowerChar_not_upper (a b : ascii) :
  Props.isUpper a = true → a ≠ JsString.lowerChar b.
Proof.
  unfold Props.isUpper, JsString.lowerChar. intros Ha Heq.
  destruct ((65 <=? nat_of_ascii b)%nat && (nat_of_ascii b <=? 90)%nat) eqn:Hb.
  - apply andb_prop in Hb as [Hb1 Hb2]. apply Nat.leb_le in Hb1, Hb2.
    assert (Hn : nat_of_ascii a = nat_of_ascii b + 32).
    { rewrite Heq. apply nat_ascii_embedding. lia. }
    apply andb_prop in Ha as [_ Ha2]. apply Nat.leb_le in Ha2. lia.
  - subst b. congruence.
Qed.

Lemma prefix_upper_never (p s : string) :
  Props.hasUpper p = true → String.prefix p (JsString.lowerAscii s) = false.
Proof.
  revert s. induction p as [|a p IH]; intros s Hp; [discriminate |].
  destruct s as [|b s]; [reflexivity |]. simpl.
  destruct (ascii_dec a (JsString.lowerChar b)) as [Heq | Hne]; [| reflexivity].
  simpl in Hp. apply orb_prop in Hp as [Ha | Hp]; [| by apply IH].
  by destruct (lowerChar_not_upper a b Ha).
Qed.

Lemma prefix_app (p s : string) :
  String.prefix p s = true ↔ ∃ rest, s = (p ++ rest)%string.
Proof.
  revert s. induction p as [|a p IH]; intros s.
  - simpl. split; [intros _; by exists s | by destruct s].
  - destruct s as [|b s]; simpl.
    + split; [discriminate | intros [rest [=]]].
    + destruct (ascii_dec a b) as [-> | Hne].
      * split.
        -- intros Hp. destruct (proj1 (IH s) Hp) as [rest ->]. by exists rest.
        -- intros [rest [= ->]]. apply (proj2 (IH _)). by exists rest.
      * split; [discriminate | intros [rest [= Hba _]]; by destruct Hne].
Qed.

Lemma lowerAscii_app (a rest : string) :
  JsString.lowerAscii (a ++ rest)
  = (JsString.lowerAscii a ++ JsString.lowerAscii rest)%string.
Proof. induction a as [|c a IH]; simpl; [reflexivity | by rewrite IH]. Qed.

Lemma lowerAscii_split (s p r : string) :
  JsString.lowerAscii s = (p ++ r)%string →
  ∃ a rest, s = (a ++ rest)%string ∧ JsString.lowerAscii a = p.
Proof.
  revert s. induction p as [|c p IH]; intros s; simpl.
  - intros _. by exists ""%string, s.
  - destruct s as [|b s]; simpl; [discriminate |].
    intros [= Hc Hs]. destruct (IH s Hs) as (a & rest & -> & Ha).
    exists (String b a), rest. simpl. by rewrite Hc, Ha.
Qed.

(** The lower-cased ASCII text starts with [p] exactly when the text
    starts with some spelling of [p], letter case aside. *)
Lemma startsWith_lowered (s p : string) :
  JsString.startsWith (JsString.lowerAscii s) p = true
  ↔ ∃ a rest, s = (a ++ rest)%string ∧ JsString.lowerAscii a = p.
Proof.
  unfold JsString.startsWith. rewrite prefix_app. split.
  - intros [r Hr]. by eapply lowerAscii_split.
  - intros (a & rest & -> & <-). rewrite lowerAscii_app. by eexists.
Qed.

(** C2, as the code has it.  The effective-prefix check ignores the letter
    case of the message and takes the prefixes as configured: the
    [command]-type triggers of a plugin are tried exactly when the raw
    text starts with the guild prefix and the lower-cased text starts with
    guild prefix + plugin prefix, which for ASCII text means that the
    message starts with some spelling of that prefix, letter case aside;
    every command of the plugin triggered then is a match.  A prefix with
    an upper-case letter in it is never folded, so it matches no ASCII
    message.  The [isCommand] gate is the comparison of the raw text with
    the configured guild prefix, letter case included: a message that does
    not start with the guild prefix letter for letter triggers no
    [command]-type command.  On ASCII text the gate agrees with the
    comparison that ignores the letter case of the message when the guild
    prefix contains no letter. *)
Theorem prefix_comparison (g : Guild.t) (message : Message) (plugin : Plugin) :
  let raw := content message in
  let lowered := JsString.toLowerCase raw in
  let guildPrefix := Guild.commandPrefix g in
  let prefix := effectivePrefix (Some g) plugin in
  isCommand (Some g) message = JsString.startsWith raw guildPrefix
  ∧ prefix = (guildPrefix ++ Router.prefix plugin)%string
  ∧ prefixMatches (Some g) message plugin
    = (if JsString.startsWith raw guildPrefix && JsString.startsWith lowered prefix
       then List.filter (fun c => triggeredBy c message lowered (Some prefix))
                        (commands_command plugin)
       else [])
  ∧ (∀ c, JsString.startsWith raw guildPrefix = true →
          JsString.startsWith lowered prefix = true →
          In c (commands_command plugin) →
          triggeredBy c message lowered (Some prefix) = true →
          In c (prefixMatches (Some g) message plugin))
  ∧ (JsString.startsWith raw guildPrefix = false →
       prefixMatches (Some g) message plugin = [])
  ∧ (JsString.isAscii raw = true →
       (JsString.startsWith lowered prefix = true
        ↔ ∃ a rest, raw = (a ++ rest)%string ∧ JsString.lowerAscii a = prefix))
  ∧ (JsString.isAscii raw = true → Props.hasUpper prefix = true →
       prefixMatches (Some g) message plugin = [])
  ∧ (JsString.isAscii raw = true → Props.caselessString guildPrefix = true →
       isCommand (Some g) message
       = Props.startsWithIgnoringMessageCase raw guildPrefix).
Proof.
  intros raw lowered guildPrefix prefix.
  assert (Hexact : prefixMatches (Some g) message plugin
    = (if JsString.startsWith raw guildPrefix && JsString.startsWith lowered prefix
       then List.filter (fun c => triggeredBy c message lowered (Some prefix))
                        (commands_command plugin)
       else [])) by reflexivity.
  split; [reflexivity |]. split; [reflexivity |]. split; [exact Hexact |].
  split; [| split; [| split; [| split]]].
  - intros c Hraw Hlow Hin Ht. rewrite Hexact, Hraw, Hlow. simpl.
    apply filter_In. by split.
  - intros Hraw. by rewrite Hexact, Hraw.
  - intros Hascii. subst lowered.
    rewrite (JsString.toLowerCase_ascii raw Hascii). apply startsWith_lowered.
  - intros Hascii Hup. rewrite Hexact. subst lowered.
    rewrite (JsString.toLowerCase_ascii raw Hascii).
    unfold JsString.startsWith at 2.
    rewrite (prefix_upper_never _ _ Hup). by rewrite andb_false_r.
  - intros Hascii Hc.
    unfold isCommand, Props.startsWithIgnoringMessageCase, JsString.startsWith.
    fold raw. rewrite (JsString.toLowerCase_ascii raw Hascii).
    by apply prefix_caseless.
Qed.

End LetterCase.

Lemma prefix_comparison_witness :
  In hello (Router.prefixMatches (Some g1) (inGuild "!P Hello") greeter)
  ∧ Router.prefixMatches (Some g4) (inG4 "T!p hello") greeter = []
  ∧ (∃ a rest, "!P Hello" = (a ++ rest)%string ∧ JsString.lowerAscii a = "!p ")
  ∧ Router.prefixMatches (Some g1) (inGuild "!p hello") shouting = []
  ∧ Router.isCommand (Some g1) (inGuild "!P Hello")
    = Props.startsWithIgnoringMessageCase "!P Hello" "!".
Proof.
  destruct (@prefix_comparison asciiLowering g1 (inGuild "!P Hello") greeter)
    as (_ & _ & _ & Hmatch & _ & Hfold & _ & Hcaseless).
  destruct (@prefix_comparison asciiLowering g4 (inG4 "T!p hello") greeter)
    as (_ & _ & _ & _ & Hraw & _).
  destruct (@prefix_comparison asciiLowering g1 (inGuild "!p hello") shouting)
    as (_ & _ & _ & _ & _ & _ & Hupper & _).
  split; [| split; [| split; [| split]]].
  - apply Hmatch; try reflexivity. by left.
  - apply Hraw. reflexivity.
  - apply Hfold; reflexivity.
  - apply Hupper; reflexivity.
  - apply Hcaseless; reflexivity.
Defined.

(** C2, as stated, fails, whatever [toLowerCase] does outside ASCII: in
    guild [g4], whose prefix is [t!], the message [T!p hello] starts with the
    prefix once letter case is ignored, yet the gate is closed and the
    command [hello] is not invoked, while [t!p hello] invokes it. *)
Lemma isCommand_is_case_sensitive :
  (∀ L : JsString.Lowering, ¬ @Props.isCommandIgnoresMessageCase L)
  ∧ Props.startsWithIgnoringMessageCase "T!p hello" (Guild.commandPrefix g4) = true
  ∧ Router.isCommand (Some g4) (inG4 "T!p hello") = false
  ∧ Router.executed (Router.trace (Router.onMessage bot4 (inG4 "T!p hello") []))
    = [("greeter", watcher)]
  ∧ Router.executed (Router.trace (Router.onMessage bot4 (inG4 "t!p hello") []))
    = [("greeter", hello); ("greeter", watcher)].
Proof.
  split; [| repeat split].
  intros L Hclaim.
  specialize (Hclaim g4 (inG4 "T!p hello")).
  unfold Props.startsWithIgnoringMessageCase in Hclaim. simpl in Hclaim.
  rewrite (JsString.toLowerCase_ascii "T!p hello" eq_refl) in Hclaim.
  specialize (Hclaim eq_refl). discriminate Hclaim.
Qed.

(** ** Guild reconciliation *)

Section ObjFacts.
Context {V : Type}.
Implicit Types (o : list (string * V)) (k : string) (v : V).

Lemma includes_In (x : string) (l : list string) : includes x l = true ↔ In x l.
Proof.
  unfold includes. rewrite existsb_exists. split.
  - intros (y & Hin & Heq). apply String.eqb_eq in Heq. by subst.
  - intros Hin. exists x. split; [exact Hin | apply String.eqb_refl].
Qed.

Lemma includes_false (x : string) (l : list string) : includes x l = false ↔ ¬ In x l.
Proof.
  rewrite <- includes_In. destruct (includes x l); split; congruence.
Qed.

Lemma get_Some_In k o : is_Some (Obj.get k o) ↔ In k (Obj.keys o).
Proof.
  induction o as [|[k0 v0] o IH]; simpl.
  - split; [intros [? ?]; discriminate | intros []].
  - destruct (String.eqb_spec k k0) as [-> | Hne].
    + split; [by left | by eexists].
    + rewrite IH. split; [by right | intros [Heq | Hin]; [by subst | exact Hin]].
Qed.

Lemma get_In k v o : Obj.get k o = Some v → In (k, v) o.
Proof.
  induction o as [|[k0 v0] o IH]; simpl; [discriminate |].
  destruct (String.eqb_spec k k0) as [-> | Hne].
  - intros [= ->]. by left.
  - intros Hg. right. by apply IH.
Qed.

Lemma keys_overwrite k v o : Obj.keys (Obj.overwrite k v o) = Obj.keys o.
Proof.
  induction o as [|[k0 v0] o IH]; simpl; [reflexivity |].
  destruct (String.eqb_spec k k0) as [-> | Hne]; simpl; [reflexivity | by rewrite IH].
Qed.

Lemma keys_insertIndex_In n k k' v o :
  In k (Obj.keys (Obj.insertIndex n k' v o)) ↔ k = k' ∨ In k (Obj.keys o).
Proof.
  induction o as [|[k0 v0] o IH]; simpl; [naive_solver |].
  destruct (Obj.arrayIndex k0) as [n'|]; [| simpl; naive_solver].
  destruct (n <? n')%N; simpl; naive_solver.
Qed.

Lemma keys_set_In k k' v o :
  In k (Obj.keys (Obj.set k' v o)) ↔ k = k' ∨ In k (Obj.keys o).
Proof.
  unfold Obj.set. destruct (Obj.get k' o) as [v0|] eqn:Hg.
  - rewrite keys_overwrite. split; [by right |].
    intros [-> | Hin]; [| exact Hin]. apply get_Some_In. by eexists.
  - destruct (Obj.arrayIndex k') as [n|]; [apply keys_insertIndex_In |].
    unfold Obj.keys. rewrite map_app, in_app_iff. simpl. naive_solver.
Qed.

Lemma keys_insertIndex_NoDup n k v o :
  ¬ In k (Obj.keys o) → List.NoDup (Obj.keys o) →
  List.NoDup (Obj.keys (Obj.insertIndex n k v o)).
Proof.
  induction o as [|[k0 v0] o IH]; simpl; intros Hn Hnd.
  - constructor; [intros [] | constructor].
  - destruct (Obj.arrayIndex k0) as [n'|]; [| by constructor].
    destruct (n <? n')%N; [by constructor |].
    inversion Hnd as [|? ? Hnotin Hnd']; subst. simpl.
    constructor; [| apply IH; [naive_solver | exact Hnd']].
    rewrite keys_insertIndex_In. naive_solver.
Qed.

Lemma NoDup_snoc (l : list string) (x : string) :
  ¬ In x l → List.NoDup l → List.NoDup (l ++ [x]).
Proof.
  induction l as [|y l IH]; simpl; intros Hn Hnd.
  - constructor; [intros [] | constructor].
  - inversion Hnd as [|? ? Hnotin Hnd']; subst.
    constructor; [| apply IH; [naive_solver | exact Hnd']].
    rewrite in_app_iff. simpl. naive_solver.
Qed.

Lemma keys_set_NoDup k v o : List.NoDup (Obj.keys o) → List.NoDup (Obj.keys (Obj.set k v o)).
Proof.
  intros Hnd. unfold Obj.set. destruct (Obj.get k o) as [v0|] eqn:Hg.
  - by rewrite keys_overwrite.
  - assert (Hn : ¬ In k (Obj.keys o)).
    { intros Hin. apply get_Some_In in Hin as [x Hx]. congruence. }
    destruct (Obj.arrayIndex k) as [n|]; [by apply keys_insertIndex_NoDup |].
    unfold Obj.keys. rewrite map_app. simpl. by apply NoDup_snoc.
Qed.

Lemma get_overwrite k k' v o :
  is_Some (Obj.get k' o) →
  Obj.get k (Obj.overwrite k' v o) = if String.eqb k k' then Some v else Obj.get k o.
Proof.
  induction o as [|[k0 v0] o IH]; simpl; [intros [? ?]; discriminate |].
  destruct (String.eqb_spec k' k0) as [-> | Hne]; simpl.
  - intros _. by destruct (String.eqb k k0).
  - intros Hs. rewrite (IH Hs).
    destruct (String.eqb_spec k k0) as [-> | Hne0]; [| reflexivity].
    by destruct (String.eqb_spec k0 k').
Qed.

Lemma get_insertIndex n k k' v o :
  Obj.get k' o = None →
  Obj.get k (Obj.insertIndex n k' v o) = if String.eqb k k' then Some v else Obj.get k o.
Proof.
  induction o as [|[k0 v0] o IH]; simpl; [reflexivity |].
  destruct (String.eqb_spec k' k0) as [-> | Hne]; [discriminate |].
  intros Hg.
  destruct (Obj.arrayIndex k0) as [n'|]; [| reflexivity].
  destruct (n <? n')%N; [reflexivity |]. simpl. rewrite (IH Hg).
  destruct (String.eqb_spec k k0) as [-> | Hne0]; [| reflexivity].
  by destruct (String.eqb_spec k0 k').
Qed.

Lemma get_app_new k k' v o :
  Obj.get k' o = None →
  Obj.get k (o ++ [(k', v)]) = if String.eqb k k' then Some v else Obj.get k o.
Proof.
  induction o as [|[k0 v0] o IH]; simpl; [reflexivity |].
  destruct (String.eqb_spec k' k0) as [-> | Hne]; [discriminate |].
  intros Hg. rewrite (IH Hg).
  destruct (String.eqb_spec k k0) as [-> | Hne0]; [| reflexivity].
  by destruct (String.eqb_spec k0 k').
Qed.

Lemma get_set k k' v o :
  Obj.get k (Obj.set k' v o) = if String.eqb k k' then Some v else Obj.get k o.
Proof.
  unfold Obj.set. destruct (Obj.get k' o) as [v0|] eqn:Hg.
  - apply get_overwrite. by eexists.
  - destruct (Obj.arrayIndex k') as [n|];
      [by apply get_insertIndex | by apply get_app_new].
Qed.

Lemma get_set_eq k v o : Obj.get k (Obj.set k v o) = Some v.
Proof. by rewrite get_set, String.eqb_refl. Qed.

Lemma get_set_ne k k' v o : k ≠ k' → Obj.get k (Obj.set k' v o) = Obj.get k o.
Proof. intros Hne. rewrite get_set. by destruct (String.eqb_spec k k'). Qed.

Lemma set_get_same k v o : Obj.get k o = Some v → Obj.set k v o = o.
Proof.
  intros Hg. unfold Obj.set. rewrite Hg.
  induction o as [|[k0 v0] o IH]; simpl in *; [discriminate |].
  destruct (String.eqb_spec k k0) as [-> | Hne].
  - by injection Hg as ->.
  - by rewrite IH.
Qed.

Lemma keys_set_held k v o :
  is_Some (Obj.get k o) → Obj.keys (Obj.set k v o) = Obj.keys o.
Proof. intros [v0 Hg]. unfold Obj.set. rewrite Hg. apply keys_overwrite. Qed.

(** A new key changes nothing among the keys a test passes over it. *)
Lemma filter_keys_insertIndex (f : string → bool) n k v o :
  f k = false →
  List.filter f (Obj.keys (Obj.insertIndex n k v o)) = List.filter f (Obj.keys o).
Proof.
  intros Hf. induction o as [|[k0 v0] o IH]; simpl; [by rewrite Hf |].
  destruct (Obj.arrayIndex k0) as [n0|].
  - destruct (n <? n0)%N; simpl; [by rewrite Hf | by rewrite IH].
  - simpl. by rewrite Hf.
Qed.

Lemma filter_keys_set (f : string → bool) k v o :
  f k = false →
  List.filter f (Obj.keys (Obj.set k v o)) = List.filter f (Obj.keys o).
Proof.
  intros Hf. unfold Obj.set. destruct (Obj.get k o) as [v0|].
  - by rewrite keys_overwrite.
  - destruct (Obj.arrayIndex k) as [n|].
    + by apply filter_keys_insertIndex.
    + unfold Obj.keys. rewrite map_app, List.filter_app. simpl.
      by rewrite Hf, app_nil_r.
Qed.

(** [set] keeps the keys in enumeration order. *)
Lemma precedes_new (k k' : string) : Obj.arrayIndex k' = None → Obj.precedes k k' = true.
Proof. unfold Obj.precedes. intros ->. by destruct (Obj.arrayIndex k). Qed.

Lemma enumerated_snoc (l : list string) (k : string) :
  Obj.arrayIndex k = None → Obj.enumerated l = true → Obj.enumerated (l ++ [k]) = true.
Proof.
  intros Hk. induction l as [|x l IH]; simpl; [reflexivity |].
  intros Hl. apply andb_prop in Hl as [Hx Hl].
  rewrite forallb_app, Hx, (IH Hl). simpl. by rewrite (precedes_new x k Hk).
Qed.

Lemma precedes_trans (k x y : string) n n' :
  Obj.arrayIndex k = Some n → Obj.arrayIndex x = Some n' → (n <=? n')%N = true →
  Obj.precedes x y = true → Obj.precedes k y = true.
Proof.
  unfold Obj.precedes. intros -> -> Hle.
  destruct (Obj.arrayIndex y) as [m|]; [| reflexivity].
  intros Hm. apply N.leb_le in Hle, Hm. apply N.leb_le. lia.
Qed.

Lemma precedes_after_name (k x y : string) n :
  Obj.arrayIndex k = Some n → Obj.arrayIndex x = None →
  Obj.precedes x y = true → Obj.precedes k y = true.
Proof.
  unfold Obj.precedes. intros -> ->.
  by destruct (Obj.arrayIndex y).
Qed.

Lemma enumerated_insertIndex n k v o :
  Obj.arrayIndex k = Some n → Obj.enumerated (Obj.keys o) = true →
  Obj.enumerated (Obj.keys (Obj.insertIndex n k v o)) = true.
Proof.
  intros Hk. induction o as [|[k0 v0] o IH]; simpl; [reflexivity |].
  intros Ho. apply andb_prop in Ho as [H0 Ho].
  destruct (Obj.arrayIndex k0) as [n0|] eqn:Hk0.
  - destruct (N.ltb_spec n n0) as [Hlt | Hge]; simpl.
    + rewrite H0, Ho, !andb_true_r.
      assert (Hle : (n <=? n0)%N = true) by (apply N.leb_le; lia).
      apply andb_true_intro. split.
      * unfold Obj.precedes. by rewrite Hk, Hk0.
      * apply forallb_forall. intros y Hy.
        apply (precedes_trans k k0 y n n0 Hk Hk0 Hle).
        by apply (proj1 (forallb_forall _ _) H0).
    + rewrite (IH Ho), andb_true_r.
      apply forallb_forall. intros y Hy.
      apply keys_insertIndex_In in Hy as [-> | Hy].
      * unfold Obj.precedes. rewrite Hk0, Hk. apply N.leb_le. lia.
      * by apply (proj1 (forallb_forall _ _) H0).
  - simpl. rewrite H0, Ho, !andb_true_r.
    apply andb_true_intro. split.
    + by apply precedes_new.
    + apply forallb_forall. intros y Hy.
      apply (precedes_after_name k k0 y n Hk Hk0).
      by apply (proj1 (forallb_forall _ _) H0).
Qed.

Lemma enumerated_set k v o :
  Obj.enumerated (Obj.keys o) = true → Obj.enumerated (Obj.keys (Obj.set k v o)) = true.
Proof.
  intros Ho. unfold Obj.set. destruct (Obj.get k o) as [v0|].
  - by rewrite keys_overwrite.
  - destruct (Obj.arrayIndex k) as [n|] eqn:Hk.
    + by apply enumerated_insertIndex.
    + unfold Obj.keys. rewrite map_app. by apply enumerated_snoc.
Qed.

(** In enumeration order nothing comes before an array index but a
    smaller one. *)
Lemma enumerated_before (l1 l2 : list string) (x y : string) n :
  Obj.enumerated (l1 ++ x :: l2) = true → In y l2 → Obj.arrayIndex y = Some n →
  ∃ m, Obj.arrayIndex x = Some m ∧ (m <= n)%N.
Proof.
  induction l1 as [|z l1 IH]; simpl; intros Hl Hy Hn.
  - apply andb_prop in Hl as [Hx _].
    pose proof (proj1 (forallb_forall _ _) Hx y Hy) as Hp.
    unfold Obj.precedes in Hp. rewrite Hn in Hp.
    destruct (Obj.arrayIndex x) as [m|]; [| discriminate].
    exists m. split; [reflexivity | by apply N.leb_le].
  - apply andb_prop in Hl as [_ Hl]. by apply IH.
Qed.

Lemma keys_remove_In k k' o :
  In k (Obj.keys (Obj.remove k' o)) ↔ k ≠ k' ∧ In k (Obj.keys o).
Proof.
  induction o as [|[k0 v0] o IH]; simpl; [naive_solver |].
  destruct (String.eqb_spec k' k0) as [-> | Hne]; simpl; naive_solver.
Qed.

Lemma keys_remove_NoDup k o : List.NoDup (Obj.keys o) → List.NoDup (Obj.keys (Obj.remove k o)).
Proof.
  induction o as [|[k0 v0] o IH]; simpl; intros Hnd; [constructor |].
  inversion Hnd as [|? ? Hnotin Hnd']; subst.
  destruct (String.eqb_spec k k0) as [-> | Hne]; simpl; [by apply IH |].
  constructor; [| by apply IH].
  rewrite keys_remove_In. tauto.
Qed.

Lemma get_remove_ne k k' o : k ≠ k' → Obj.get k (Obj.remove k' o) = Obj.get k o.
Proof.
  intros Hne. induction o as [|[k0 v0] o IH]; simpl; [reflexivity |].
  destruct (String.eqb_spec k' k0) as [-> | Hne0]; simpl.
  - destruct (String.eqb_spec k k0); [contradiction | exact IH].
  - by rewrite IH.
Qed.

End ObjFacts.

Section Reconciliation.
Variable defaultPrefix : string.
Variable client : list DiscordGuild.

Local Abbreviation keysOf st := (Obj.keys (Registry._guilds st)).
Local Abbreviation newGuildIds := (map dg_id client).

Lemma loadDiscordAdmins_loaded (id : string) (g : Guild.t) :
  Props.adminsLoaded client id (Guild.loadDiscordAdmins (clientGuild client id) g).
Proof.
  unfold Props.adminsLoaded. destruct (clientGuild client id); [| reflexivity].
  by destruct g.
Qed.

Lemma addedGuilds_In (old new : list string) (k : string) :
  In k (Registry.addedGuilds old new) ↔ In k new ∧ ¬ In k old.
Proof.
  unfold Registry.addedGuilds. rewrite filter_In, negb_true_iff, includes_false.
  reflexivity.
Qed.

Lemma removedGuilds_In (old new : list string) (k : string) :
  In k (Registry.removedGuilds old new) ↔ In k old ∧ ¬ In k new.
Proof.
  unfold Registry.removedGuilds. rewrite filter_In, negb_true_iff, includes_false.
  reflexivity.
Qed.

Lemma filter_none {A} (f : A → bool) (l : list A) :
  (∀ x, In x l → f x = false) → List.filter f l = [].
Proof.
  induction l as [|x l IH]; simpl; intros Hf; [reflexivity |].
  rewrite (Hf x (or_introl eq_refl)). apply IH. intros y Hy. apply Hf. by right.
Qed.

(** *** The three loops of [updateGuilds] *)

Lemma newGuilds_keys (l : list string) (st : Registry.state) (k : string) :
  In k (keysOf (fold_left (fun s id => Registry.newGuild defaultPrefix id s) l st))
  ↔ In k (keysOf st) ∨ In k l.
Proof.
  revert st. induction l as [|x l IH]; intros st; simpl; [tauto |].
  rewrite IH. simpl. rewrite keys_set_In. naive_solver.
Qed.

Lemma newGuilds_NoDup (l : list string) (st : Registry.state) :
  List.NoDup (keysOf st) →
  List.NoDup (keysOf (fold_left (fun s id => Registry.newGuild defaultPrefix id s) l st)).
Proof.
  revert st. induction l as [|x l IH]; intros st Hnd; simpl; [exact Hnd |].
  apply IH. simpl. by apply keys_set_NoDup.
Qed.

Lemma deletes_guilds (l : list string) (st : Registry.state) :
  Registry._guilds (fold_left (fun s id => Registry.delete id s) l st)
  = Registry._guilds st.
Proof.
  revert st. induction l as [|x l IH]; intros st; simpl; [reflexivity |].
  by rewrite IH.
Qed.

Lemma loadDiscordAdmins_keys (id : string) (st : Registry.state) (k : string) :
  In k (keysOf (Registry.loadDiscordAdmins client id st)) ↔ In k (keysOf st).
Proof.
  unfold Registry.loadDiscordAdmins, Registry.get.
  destruct (Obj.get id (Registry._guilds st)) as [g|] eqn:Hg; [| reflexivity].
  simpl. rewrite keys_set_In. split; [| tauto].
  intros [-> | Hin]; [| exact Hin].
  apply get_Some_In. by eexists.
Qed.

Lemma loadDiscordAdmins_NoDup (id : string) (st : Registry.state) :
  List.NoDup (keysOf st) → List.NoDup (keysOf (Registry.loadDiscordAdmins client id st)).
Proof.
  intros Hnd. unfold Registry.loadDiscordAdmins.
  destruct (Registry.get id st); [| exact Hnd]. simpl. by apply keys_set_NoDup.
Qed.

Lemma loadAll_keys (l : list string) (st : Registry.state) (k : string) :
  In k (keysOf (fold_left (fun s id => Registry.loadDiscordAdmins client id s) l st))
  ↔ In k (keysOf st).
Proof.
  revert st. induction l as [|x l IH]; intros st; simpl; [reflexivity |].
  by rewrite IH, loadDiscordAdmins_keys.
Qed.

Lemma loadAll_NoDup (l : list string) (st : Registry.state) :
  List.NoDup (keysOf st) →
  List.NoDup (keysOf (fold_left (fun s id => Registry.loadDiscordAdmins client id s) l st)).
Proof.
  revert st. induction l as [|x l IH]; intros st Hnd; simpl; [exact Hnd |].
  apply IH. by apply loadDiscordAdmins_NoDup.
Qed.

(** Once loaded, the native admins of [id] stay loaded through any further
    [loadDiscordAdmins]. *)

Lemma loadDiscordAdmins_at (id : string) (st : Registry.state) :
  is_Some (Registry.get id st) →
  Props.loadedAt client id (Registry.loadDiscordAdmins client id st).
Proof.
  intros [g Hg]. unfold Props.loadedAt, Registry.loadDiscordAdmins. rewrite Hg.
  exists (Guild.loadDiscordAdmins (clientGuild client id) g).
  split; [apply get_set_eq | apply loadDiscordAdmins_loaded].
Qed.

Lemma loadDiscordAdmins_keeps (id id' : string) (st : Registry.state) :
  Props.loadedAt client id st → Props.loadedAt client id (Registry.loadDiscordAdmins client id' st).
Proof.
  intros (g & Hg & Hl).
  destruct (string_dec id id') as [<- | Hne].
  - unfold Props.loadedAt, Registry.loadDiscordAdmins. rewrite Hg.
    exists g. unfold Registry.get. simpl. rewrite Hl.
    split; [apply get_set_eq | exact Hl].
  - exists g. split; [| exact Hl].
    unfold Registry.loadDiscordAdmins, Registry.get in *.
    destruct (Obj.get id' (Registry._guilds st)); [| exact Hg].
    simpl. by rewrite get_set_ne.
Qed.

Lemma loadAll_keeps (id : string) (l : list string) (st : Registry.state) :
  Props.loadedAt client id st →
  Props.loadedAt client id (fold_left (fun s id' => Registry.loadDiscordAdmins client id' s) l st).
Proof.
  revert st. induction l as [|x l IH]; intros st Hl; simpl; [exact Hl |].
  apply IH. by apply loadDiscordAdmins_keeps.
Qed.

Lemma loadAll_at (id : string) (l : list string) (st : Registry.state) :
  In id l → In id (keysOf st) →
  Props.loadedAt client id (fold_left (fun s id' => Registry.loadDiscordAdmins client id' s) l st).
Proof.
  revert st. induction l as [|x l IH]; intros st Hin Hk; simpl; [destruct Hin |].
  destruct (string_dec x id) as [-> | Hne].
  - apply loadAll_keeps, loadDiscordAdmins_at. by apply get_Some_In.
  - destruct Hin as [Heq | Hin]; [contradiction |].
    apply IH; [exact Hin | by apply loadDiscordAdmins_keys].
Qed.

Lemma loadDiscordAdmins_fixed (id : string) (st : Registry.state) :
  Props.loadedAt client id st → Registry.loadDiscordAdmins client id st = st.
Proof.
  intros (g & Hg & Hl). unfold Registry.loadDiscordAdmins. rewrite Hg, Hl.
  unfold Registry.get in Hg. rewrite (set_get_same _ _ _ Hg). by destruct st.
Qed.

Lemma loadAll_fixed (l : list string) (st : Registry.state) :
  (∀ id, In id l → Props.loadedAt client id st) →
  fold_left (fun s id => Registry.loadDiscordAdmins client id s) l st = st.
Proof.
  induction l as [|x l IH]; intros Hall; simpl; [reflexivity |].
  rewrite loadDiscordAdmins_fixed by (apply Hall; by left).
  apply IH. intros id Hin. apply Hall. by right.
Qed.

(** *** Whole runs *)

Lemma updateGuilds_keys (st : Registry.state) (k : string) :
  In k (keysOf (Registry.updateGuilds defaultPrefix client st))
  ↔ In k (keysOf st) ∨ In k newGuildIds.
Proof.
  unfold Registry.updateGuilds.
  rewrite loadAll_keys, deletes_guilds, newGuilds_keys, addedGuilds_In.
  destruct (in_dec string_dec k (keysOf st)); tauto.
Qed.

Lemma updateGuilds_NoDup (st : Registry.state) :
  List.NoDup (keysOf st) →
  List.NoDup (keysOf (Registry.updateGuilds defaultPrefix client st)).
Proof.
  intros Hnd. unfold Registry.updateGuilds.
  apply loadAll_NoDup. rewrite deletes_guilds. by apply newGuilds_NoDup.
Qed.

Lemma updateGuilds_loaded (st : Registry.state) (id : string) :
  In id newGuildIds →
  Props.loadedAt client id (Registry.updateGuilds defaultPrefix client st).
Proof.
  intros Hin. unfold Registry.updateGuilds. apply loadAll_at; [exact Hin |].
  rewrite deletes_guilds, newGuilds_keys, addedGuilds_In.
  destruct (in_dec string_dec id (keysOf st)); tauto.
Qed.

(** A registry that holds exactly the connected guilds, native admins
    loaded, is a fixed point of [updateGuilds]. *)
Lemma updateGuilds_fixed (st : Registry.state) :
  (∀ k, In k (keysOf st) ↔ In k newGuildIds) →
  (∀ id, In id newGuildIds → Props.loadedAt client id st) →
  Registry.updateGuilds defaultPrefix client st = st.
Proof.
  intros Hkeys Hloaded. unfold Registry.updateGuilds.
  assert (Ha : Registry.addedGuilds (keysOf st) newGuildIds = []).
  { apply filter_none. intros x Hx. apply negb_false_iff, includes_In. by apply Hkeys. }
  assert (Hr : Registry.removedGuilds (keysOf st) newGuildIds = []).
  { apply filter_none. intros x Hx. apply negb_false_iff, includes_In. by apply Hkeys. }
  rewrite Ha, Hr. simpl. by apply loadAll_fixed.
Qed.

Lemma settled_keys (l : list string) (st : Registry.state) (k : string) :
  In k (keysOf (Props.deletesSettled l st)) ↔ In k (keysOf st) ∧ ¬ In k l.
Proof.
  unfold Props.deletesSettled.
  revert st. induction l as [|x l IH]; intros st; simpl; [tauto |].
  rewrite IH. simpl. rewrite keys_remove_In. naive_solver.
Qed.

Lemma settled_get (l : list string) (st : Registry.state) (k : string) :
  ¬ In k l → Registry.get k (Props.deletesSettled l st) = Registry.get k st.
Proof.
  unfold Props.deletesSettled.
  revert st. induction l as [|x l IH]; intros st Hn; simpl; [reflexivity |].
  rewrite IH by (intros Hin; apply Hn; by right).
  unfold Registry.get. simpl. apply get_remove_ne. intros ->. apply Hn. by left.
Qed.

Lemma settled_NoDup (l : list string) (st : Registry.state) :
  List.NoDup (keysOf st) → List.NoDup (keysOf (Props.deletesSettled l st)).
Proof.
  unfold Props.deletesSettled.
  revert st. induction l as [|x l IH]; intros st Hnd; simpl; [exact Hnd |].
  apply IH. simpl. by apply keys_remove_NoDup.
Qed.

(** *** A second run *)

Lemma loadDiscordAdmins_same_keys (id : string) (st : Registry.state) :
  keysOf (Registry.loadDiscordAdmins client id st) = keysOf st.
Proof.
  unfold Registry.loadDiscordAdmins, Registry.get.
  destruct (Obj.get id (Registry._guilds st)) as [g|] eqn:Hg; [| reflexivity].
  simpl. apply keys_set_held. by eexists.
Qed.

Lemma loadAll_same_keys (l : list string) (st : Registry.state) :
  keysOf (fold_left (fun s id => Registry.loadDiscordAdmins client id s) l st)
  = keysOf st.
Proof.
  revert st. induction l as [|x l IH]; intros st; simpl; [reflexivity |].
  by rewrite IH, loadDiscordAdmins_same_keys.
Qed.

Lemma newGuilds_filter (f : string → bool) (l : list string) (st : Registry.state) :
  (∀ x, In x l → f x = false) →
  List.filter f (keysOf (fold_left (fun s id => Registry.newGuild defaultPrefix id s) l st))
  = List.filter f (keysOf st).
Proof.
  revert st. induction l as [|x l IH]; intros st Hf; simpl; [reflexivity |].
  rewrite IH by (intros y Hy; apply Hf; by right). simpl.
  apply filter_keys_set. apply Hf. by left.
Qed.

Lemma deletes_keep_listeners (l : list string) (st : Registry.state) :
  Registry.listeners (fold_left (fun s id => Registry.delete id s) l st)
  = Registry.listeners st.
Proof.
  revert st. induction l as [|x l IH]; intros st; simpl; [reflexivity |].
  by rewrite IH.
Qed.

Lemma deletes_issued (l : list string) (st : Registry.state) :
  Registry.issued (fold_left (fun s id => Registry.delete id s) l st)
  = Registry.issued st
    ++ map (fun id => DbDelete "Guilds" [("discordGuildId", id)]) l.
Proof.
  revert st. induction l as [|x l IH]; intros st; simpl; [by rewrite app_nil_r |].
  rewrite IH. simpl. by rewrite <- app_assoc.
Qed.

Lemma updateGuilds_removed_again (st : Registry.state) :
  Registry.removedGuilds (keysOf (Registry.updateGuilds defaultPrefix client st))
                         newGuildIds
  = Registry.removedGuilds (keysOf st) newGuildIds.
Proof.
  unfold Registry.updateGuilds, Registry.removedGuilds.
  rewrite loadAll_same_keys, deletes_guilds. apply newGuilds_filter.
  intros x Hx. apply addedGuilds_In in Hx as [Hx _].
  by apply negb_false_iff, includes_In.
Qed.

Lemma updateGuilds_added_again (st : Registry.state) :
  Registry.addedGuilds (keysOf (Registry.updateGuilds defaultPrefix client st))
                       newGuildIds = [].
Proof.
  apply filter_none. intros x Hx. apply negb_false_iff, includes_In.
  apply updateGuilds_keys. by right.
Qed.

Lemma updateGuilds_again (st : Registry.state) :
  let st1 := Registry.updateGuilds defaultPrefix client st in
  Registry.updateGuilds defaultPrefix client st1
  = fold_left (fun s id => Registry.delete id s)
              (Registry.removedGuilds (keysOf st) newGuildIds) st1.
Proof.
  intros st1. unfold Registry.updateGuilds at 1. fold st1.
  subst st1. rewrite updateGuilds_added_again, updateGuilds_removed_again.
  cbn [fold_left]. apply loadAll_fixed. intros id Hin.
  destruct (updateGuilds_loaded st id Hin) as (g & Hg & Hl).
  exists g. split; [| exact Hl].
  unfold Registry.get in *. by rewrite deletes_guilds.
Qed.


End Reconciliation.



(** ** Scenarios of the specification, run on the sample data *)

(** Scenario A: guild prefix [!], plugin prefix [p ], trigger [hello]. *)
Example scenario_A_with_guild_prefix :
  Router.executed (Router.trace (Router.onMessage bot1 (inGuild "!p hello") []))
  = [("greeter", hello); ("greeter", watcher)].
Proof. reflexivity. Qed.

Example scenario_A_without_guild_prefix :
  Router.executed (Router.trace (Router.onMessage bot1 (inGuild "p hello") []))
  = [("greeter", watcher)].
Proof. reflexivity. Qed.

(** Scenario B: empty enabled-plugin set, two enabled plugins: both run. *)
Example scenario_B_both_plugins :
  map fst (Router.executed (Router.trace (Router.onMessage bot2 (inGuild "!p hello") [])))
  = ["faulty"; "faulty"; "greeter"; "greeter"].
Proof. reflexivity. Qed.

(** A command with scope [pm] is passed over in a guild and runs in a direct
    message. *)
Example scope_pm_in_guild :
  Router.execute (Some g1) (inGuild "x") "pmOnly" pmOnly [pmWatcher] = [].
Proof. reflexivity. Qed.

Example scope_pm_in_direct_message :
  Router.execute None (direct "x") "pmOnly" pmOnly [pmWatcher]
  = [Router.Exec "pmOnly" pmWatcher].
Proof. reflexivity. Qed.

Example split_on_single_spaces : JsString.split "a  b c" = ["a"; ""; "b"; "c"].
Proof. reflexivity. Qed.

(** * Further properties *)

(** ** What [onMessage] executes *)

Section Executed.
Context `{JsString.Lowering} `{PermissionResolver} `{SpamGuard}.
Import Router.

Lemma spamScan_kept userId rest cs (st : SpamState) :
  (spamScan userId rest cs st).1.1 = [] ∨ (spamScan userId rest cs st).1.1 = cs.
Proof.
  revert st. induction rest as [|c rest IH]; intros st; simpl; [by right |].
  destruct (bypassSpamDetection c); simpl; [apply IH |].
  destruct (isRestricted userId (onAction userId st)) as [[|] st2]; simpl; auto.
Qed.

Lemma spamDetection_kept (b : Bot) message cs (st : SpamState) :
  (spamDetection b message cs st).1.1 = []
  ∨ (spamDetection b message cs st).1.1 = cs.
Proof.
  unfold spamDetection. destruct (negb _ && negb _); [apply spamScan_kept | by right].
Qed.

Lemma candidates_triggered g message plugin c :
  In c (candidates g message plugin) → RouterProps.triggeredIn g message plugin c.
Proof.
  unfold candidates, RouterProps.triggeredIn.
  destruct (length (prefixMatches g message plugin) =? 0)%nat eqn:Hl.
  - apply Nat.eqb_eq, length_zero_iff_nil in Hl.
    intros Hin. apply filter_In in Hin as [Hin Ht]. right. left. by repeat split.
  - clear Hl. unfold prefixMatches.
    destruct (isCommand g message) eqn:Hc; simpl; [| intros []].
    destruct (JsString.startsWith _ (effectivePrefix g plugin)) eqn:Hs; [| intros []].
    intros Hin. apply filter_In in Hin as [Hin Ht]. left. by repeat split.
Qed.

Lemma allMatches_triggered g message plugin c :
  In c (allMatches message plugin) → RouterProps.triggeredIn g message plugin c.
Proof.
  unfold allMatches, RouterProps.triggeredIn. intros Hin.
  apply filter_In in Hin as [Hin Ht]. right. right. by split.
Qed.

Lemma evaluate_sound (b : Bot) g message pluginId plugin (st : SpamState) p c :
  In (p, c) (executed (trace (evaluate b g message pluginId plugin st))) →
  p = pluginId ∧ RouterProps.triggeredIn g message plugin c
  ∧ scopeMatches g c = true.
Proof.
  rewrite evaluate_executed, in_map_iff. intros (c' & Heq & Hin).
  inversion Heq; subst p c'. apply filter_In in Hin as [Hin Hs].
  split; [reflexivity |]. split; [| exact Hs].
  apply in_app_or in Hin as [Hin | Hin]; [| by apply allMatches_triggered].
  apply candidates_triggered.
  destruct (spamDetection_kept b message (candidates g message plugin) st) as [Hk | Hk];
    rewrite Hk in Hin; [destruct Hin | exact Hin].
Qed.

Lemma notEnabledInGuild_false (guild : Guild.t) (pluginId : string) :
  notEnabledInGuild (Some guild) pluginId = false →
  Guild.enabledPlugins guild = ∅ ∨ pluginId ∈ Guild.enabledPlugins guild.
Proof.
  unfold notEnabledInGuild. intros Hg.
  apply andb_false_iff in Hg as [Hin | Hsize].
  - right. apply negb_false_iff in Hin. by apply bool_decide_eq_true in Hin.
  - left. apply Nat.ltb_ge in Hsize.
    apply leibniz_equiv, size_empty_inv. lia.
Qed.

Lemma channelRejected_false (guild : Guild.t) (message : Message) :
  channelRejected (Some guild) message = false →
  Guild.allowedChannelIds guild = ∅
  ∨ channel message ∈ Guild.allowedChannelIds guild.
Proof.
  unfold channelRejected. intros Hg.
  apply andb_false_iff in Hg as [Hin | Hsize].
  - right. apply negb_false_iff in Hin. by apply bool_decide_eq_true in Hin.
  - left. apply Nat.ltb_ge in Hsize.
    apply leibniz_equiv, size_empty_inv. lia.
Qed.

Lemma routePlugin_sound (b : Bot) g message pluginId plugin (st : SpamState) p c :
  In (p, c) (executed (trace (routePlugin b g message pluginId plugin st))) →
  p = pluginId ∧ enabled plugin = true
  ∧ RouterProps.triggeredIn g message plugin c ∧ scopeMatches g c = true
  ∧ match g with
    | None => True
    | Some guild =>
        (∃ permission, Guild.permissions guild !! pluginId = Some permission
                       ∧ allows permission (id (author message)) = true)
        ∧ (Guild.enabledPlugins guild = ∅ ∨ pluginId ∈ Guild.enabledPlugins guild)
    end.
Proof.
  unfold routePlugin.
  destruct (enabled plugin); [| intros []].
  destruct g as [guild|].
  - destruct (Guild.permissions guild !! pluginId) as [permission|] eqn:Hp; [| intros []].
    destruct (allows permission (id (author message))) eqn:Ha; [| intros []].
    destruct (notEnabledInGuild (Some guild) pluginId) eqn:Hn; [intros [] |].
    intros Hin. destruct (evaluate_sound _ _ _ _ _ _ _ _ Hin) as (Hpid & Ht & Hs).
    repeat split; try assumption.
    + by exists permission.
    + by apply notEnabledInGuild_false.
  - intros Hin. destruct (evaluate_sound _ _ _ _ _ _ _ _ Hin) as (Hpid & Ht & Hs).
    by repeat split.
Qed.

Lemma routePlugins_sound (b : Bot) g message ps (st : SpamState) p c :
  In (p, c) (executed (trace (routePlugins b g message ps st))) →
  ∃ plugin, In (p, plugin) ps ∧ enabled plugin = true
    ∧ RouterProps.triggeredIn g message plugin c ∧ scopeMatches g c = true
    ∧ match g with
      | None => True
      | Some guild =>
          (∃ permission, Guild.permissions guild !! p = Some permission
                         ∧ allows permission (id (author message)) = true)
          ∧ (Guild.enabledPlugins guild = ∅ ∨ p ∈ Guild.enabledPlugins guild)
      end.
Proof.
  revert st. induction ps as [|[q ql] rest IH]; intros st; simpl; [intros [] |].
  assert (Hhere : In (p, c) (executed (trace (routePlugin b g message q ql st))) →
                  ∃ plugin, In (p, plugin) ((q, ql) :: rest) ∧ enabled plugin = true
                    ∧ RouterProps.triggeredIn g message plugin c
                    ∧ scopeMatches g c = true
                    ∧ match g with
                      | None => True
                      | Some guild =>
                          (∃ permission,
                             Guild.permissions guild !! p = Some permission
                             ∧ allows permission (id (author message)) = true)
                          ∧ (Guild.enabledPlugins guild = ∅
                             ∨ p ∈ Guild.enabledPlugins guild)
                      end).
  { intros Hin. destruct (routePlugin_sound _ _ _ _ _ _ _ _ Hin) as (-> & He & Ht & Hs & Hg).
    exists ql. repeat split; try assumption. by left. }
  destruct (outcome (routePlugin b g message q ql st)); simpl;
    [| exact Hhere | exact Hhere].
  rewrite executed_app. intros Hin. apply in_app_or in Hin as [Hin | Hin].
  - by apply Hhere.
  - destruct (IH _ Hin) as (pl & Hpl & Hrest). exists pl. split; [by right | exact Hrest].
Qed.

Lemma onMessage_routes (b : Bot) message (st : SpamState) p c :
  In (p, c) (executed (trace (onMessage b message st))) →
  Props.reachesPlugins b message = true
  ∧ In (p, c) (executed (trace (routePlugins b (guildOf b message) message
                                  (plugins b) st))).
Proof.
  unfold onMessage, Props.reachesPlugins.
  destruct (bot (author message)); [intros [] |].
  destruct (maintenance b && _); [intros [] |].
  destruct (guildIsInherited b message); [intros [] |].
  destruct (channelRejected _ _); [intros [] |].
  by split.
Qed.

(** X1. Whatever [onMessage] invokes is a command of an enabled plugin
    registered under the reported identifier, matched by its own
    [triggeredBy] (a [words] trigger only when no [command] trigger of the
    plugin matched), with a scope that fits the context; and the author is
    no bot. *)
Theorem executed_commands_are_triggered (b : Bot) (message : Message)
    (st : SpamState) (p : string) (c : Command) :
  In (p, c) (executed (trace (onMessage b message st))) →
  bot (author message) = false
  ∧ ∃ plugin, In (p, plugin) (plugins b) ∧ enabled plugin = true
      ∧ RouterProps.triggeredIn (guildOf b message) message plugin c
      ∧ scopeMatches (guildOf b message) c = true.
Proof.
  intros Hin. destruct (onMessage_routes _ _ _ _ _ Hin) as [Hr Hin'].
  split.
  - unfold Props.reachesPlugins in Hr.
    apply andb_prop in Hr as [Hr _]. apply andb_prop in Hr as [Hr _].
    apply andb_prop in Hr as [Hb _].
    by apply negb_true_iff in Hb.
  - destruct (routePlugins_sound _ _ _ _ _ _ _ Hin') as (pl & ? & ? & ? & ? & _).
    by exists pl.
Qed.

(** X2. Whatever [onMessage] invokes passed every gate: in maintenance
    mode the author is an owner, and in a guild context the guild holds a
    permission record of the plugin that allows the author, the plugin is
    in the enabled set or that set is empty, and the channel is in the
    allowed set or that set is empty. *)
Theorem executed_commands_are_cleared (b : Bot) (message : Message)
    (st : SpamState) (p : string) (c : Command) :
  In (p, c) (executed (trace (onMessage b message st))) →
  (maintenance b = true → Owner.isOwner (id (author message)) (owners b) = true)
  ∧ RouterProps.cleared (guildOf b message) message p.
Proof.
  intros Hin. destruct (onMessage_routes _ _ _ _ _ Hin) as [Hr Hin'].
  unfold Props.reachesPlugins in Hr.
  apply andb_prop in Hr as [Hr Hc]. apply andb_prop in Hr as [Hr _].
  apply andb_prop in Hr as [_ Hm].
  apply negb_true_iff in Hm, Hc.
  split.
  - intros Hmaint. rewrite Hmaint in Hm. simpl in Hm. by apply negb_false_iff in Hm.
  - destruct (routePlugins_sound _ _ _ _ _ _ _ Hin') as (pl & _ & _ & _ & _ & Hg).
    unfold RouterProps.cleared.
    destruct (guildOf b message) as [guild|]; [| exact I].
    destruct Hg as [Hperm Hen]. repeat split; try assumption.
    by apply channelRejected_false.
Qed.

(** X3. Without a guild context [onMessage] always returns normally: that
    is a direct message, or a guild identifier under which [Guild._guilds]
    has no property at all.  An identifier the registry does not hold but
    [Object.prototype] has a property for is no such case: a message with
    it, from an author who is no bot and whom maintenance mode does not
    stop, ends in the [TypeError] of line 64, nothing invoked and the spam
    registry untouched. *)
Theorem no_guild_context_never_throws (b : Bot) (message : Message)
    (st : SpamState) :
  (guild message = None → outcome (onMessage b message st) = Completed)
  ∧ (∀ gid, guild message = Some gid →
       Obj.read gid (guilds b) = Obj.Undefined →
       outcome (onMessage b message st) = Completed)
  ∧ (∀ gid, guild message = Some gid →
       Obj.read gid (guilds b) = Obj.Inherited →
       bot (author message) = false →
       maintenance b = false
         ∨ Owner.isOwner (id (author message)) (owners b) = true →
       onMessage b message st
       = {| spam := st; trace := []; outcome := NotAGuild |}).
Proof.
  assert (Hnone : guildOf b message = None → guildIsInherited b message = false →
                  outcome (onMessage b message st) = Completed).
  { intros Hg Ha. unfold onMessage. rewrite Hg, Ha.
    destruct (bot (author message)); [reflexivity |].
    destruct (maintenance b && _); [reflexivity |].
    simpl. apply routePlugins_no_guild. }
  split; [| split].
  - intros Hd. apply Hnone; unfold guildOf, guildIsInherited; by rewrite Hd.
  - intros gid Hgid Hread.
    apply Hnone; unfold guildOf, guildIsInherited; rewrite Hgid.
    + unfold Obj.read in Hread. destruct (Obj.get gid (guilds b)); [discriminate | done].
    + by rewrite Hread.
  - intros gid Hgid Hread Hb Hm. unfold onMessage, guildIsInherited.
    rewrite Hgid, Hread, Hb. simpl.
    by destruct Hm as [-> | ->]; [| rewrite andb_false_r].
Qed.

(** X4. When every prefix/word candidate of a plugin bypasses spam
    detection, evaluating the plugin leaves the spam registry alone, calls
    neither [onAction] nor [isRestricted], and keeps every candidate,
    restricted author or not. *)
Theorem exempt_candidates_skip_spam_gate (b : Bot) (g : option Guild.t)
    (message : Message) (pluginId : string) (plugin : Plugin) (st : SpamState) :
  forallb bypassSpamDetection (candidates g message plugin) = true →
  let r := evaluate b g message pluginId plugin st in
  spam r = st
  ∧ List.filter isSpamEvent (trace r) = []
  ∧ Props.survivors b g message plugin st
    = candidates g message plugin ++ allMatches message plugin.
Proof.
  intros Hall r.
  assert (Hgate : spamDetection b message (candidates g message plugin) st
                  = (candidates g message plugin, st, [])).
  { unfold spamDetection. destruct (negb _ && negb _); [| reflexivity].
    by apply spamScan_all_exempt. }
  subst r. unfold evaluate, Props.survivors. rewrite Hgate. simpl.
  repeat split. apply execute_no_spam.
Qed.

End Executed.

Section Accounting.
Context `{JsString.Lowering} `{PermissionResolver} `{SpamGuard}.
Import Router.

Lemma spamScan_actions userId rest cs (st : SpamState) :
  List.filter isSpamAction (spamScan userId rest cs st).2 = []
  ∨ List.filter isSpamAction (spamScan userId rest cs st).2 = [SpamAction userId].
Proof.
  revert st. induction rest as [|c rest IH]; intros st; simpl; [by left |].
  destruct (bypassSpamDetection c); simpl; [apply IH |].
  destruct (isRestricted userId (onAction userId st)); by right.
Qed.

Lemma routePlugin_actions (b : Bot) g message pluginId plugin (st : SpamState) :
  let r := routePlugin b g message pluginId plugin st in
  List.filter isSpamAction (trace r) = []
  ∨ List.filter isSpamAction (trace r) = [SpamAction (id (author message))].
Proof.
  assert (Hev : ∀ g',
    List.filter isSpamAction (trace (evaluate b g' message pluginId plugin st)) = []
    ∨ List.filter isSpamAction (trace (evaluate b g' message pluginId plugin st))
      = [SpamAction (id (author message))]).
  { intros g'. unfold evaluate, spamDetection.
    destruct (negb _ && negb _).
    - pose proof (spamScan_actions (id (author message))
                    (candidates g' message plugin) (candidates g' message plugin) st) as Hs.
      destruct (spamScan _ _ _ st) as [[kept st'] ev]. simpl in *.
      by rewrite List.filter_app, filter_isSpamAction_execute, app_nil_r.
    - simpl. left. apply filter_isSpamAction_execute. }
  intros r. subst r. unfold routePlugin.
  destruct (enabled plugin); [| by left].
  destruct g as [guild|]; [| apply Hev].
  destruct (Guild.permissions guild !! pluginId) as [permission|]; [| by left].
  destruct (allows permission _); [| by left].
  destruct (notEnabledInGuild (Some guild) pluginId); [by left | apply Hev].
Qed.

Lemma routePlugins_actions (b : Bot) g message ps (st : SpamState) :
  ∃ n : nat, (n ≤ length ps)%nat
       ∧ List.filter isSpamAction (trace (routePlugins b g message ps st))
         = repeat (SpamAction (id (author message))) n.
Proof.
  revert st. induction ps as [|[q ql] rest IH]; intros st; simpl.
  - exists 0. by split.
  - pose proof (routePlugin_actions b g message q ql st) as Hq. simpl in Hq.
    destruct (outcome (routePlugin b g message q ql st)); simpl.
    + destruct (IH (spam (routePlugin b g message q ql st))) as (n & Hn & Hrest).
      rewrite List.filter_app, Hrest.
      destruct Hq as [-> | ->].
      * exists n. split; [lia | reflexivity].
      * exists (S n). split; [lia | reflexivity].
    + destruct Hq as [-> | ->].
      * exists 0. split; [lia | reflexivity].
      * exists 1. split; [lia | reflexivity].
    + destruct Hq as [-> | ->].
      * exists 0. split; [lia | reflexivity].
      * exists 1. split; [lia | reflexivity].
Qed.

(** X5. One message registers spam actions for its author only, and at
    most one per installed plugin. *)
Theorem spam_actions_bounded (b : Bot) (message : Message) (st : SpamState) :
  ∃ n : nat, (n ≤ length (plugins b))%nat
       ∧ List.filter isSpamAction (trace (onMessage b message st))
         = repeat (SpamAction (id (author message))) n.
Proof.
  unfold onMessage.
  destruct (bot (author message)); [exists 0; split; [lia | reflexivity] |].
  destruct (maintenance b && _); [exists 0; split; [lia | reflexivity] |].
  destruct (guildIsInherited b message); [exists 0; split; [lia | reflexivity] |].
  destruct (channelRejected _ _); [exists 0; split; [lia | reflexivity] |].
  apply routePlugins_actions.
Qed.

Lemma routePlugins_app (b : Bot) g message ps1 ps2 (st : SpamState) :
  routePlugins b g message (ps1 ++ ps2) st =
    let r1 := routePlugins b g message ps1 st in
    match outcome r1 with
    | Completed =>
        let r2 := routePlugins b g message ps2 (spam r1) in
        {| spam := spam r2; trace := trace r1 ++ trace r2; outcome := outcome r2 |}
    | TypeError _ | NotAGuild => r1
    end.
Proof.
  revert st. induction ps1 as [|[q ql] rest IH]; intros st; simpl.
  - by destruct (routePlugins b g message ps2 st).
  - destruct (outcome (routePlugin b g message q ql st)) eqn:Hq; simpl.
    + rewrite IH. simpl.
      destruct (outcome (routePlugins b g message rest _)) eqn:Hr; simpl;
        [by rewrite app_assoc | by rewrite Hr | by rewrite Hr].
    + by rewrite Hq.
    + by rewrite Hq.
Qed.

(** X6. When an enabled plugin has no permission record in the guild, a
    message that reaches the plugin loop is routed through the plugins
    listed before it and no further: the trace and the spam registry are
    those of the earlier plugins alone, whatever plugins follow. *)
Theorem abort_keeps_earlier_plugins_only (b : Bot) (message : Message)
    (guild : Guild.t) (st : SpamState) (ps1 ps2 : list (string * Plugin))
    (p : string) (pl : Plugin) :
  plugins b = ps1 ++ (p, pl) :: ps2 →
  guildOf b message = Some guild →
  Props.reachesPlugins b message = true →
  enabled pl = true →
  Guild.permissions guild !! p = None →
  let r := onMessage b message st in
  let r1 := routePlugins b (Some guild) message ps1 st in
  trace r = trace r1 ∧ spam r = spam r1 ∧ outcome r ≠ Completed.
Proof.
  intros Hps Hg Hr Hen Hp r r1. subst r r1.
  rewrite (onMessage_reaches b message st Hr), Hg, Hps, routePlugins_app. simpl.
  destruct (outcome (routePlugins b (Some guild) message ps1 st)) eqn:Ho1.
  - assert (Hhere : ∀ st', routePlugin b (Some guild) message p pl st'
                           = {| spam := st'; trace := []; outcome := TypeError p |}).
    { intros st'. unfold routePlugin. by rewrite Hen, Hp. }
    rewrite Hhere. simpl. by rewrite app_nil_r.
  - rewrite Ho1. by repeat split.
  - rewrite Ho1. by repeat split.
Qed.

End Accounting.

Lemma executed_commands_are_triggered_witness :
  ∃ plugin, In ("greeter", plugin) (Router.plugins bot1)
            ∧ Router.enabled plugin = true
            ∧ Router.scopeMatches (Some g1) hello = true.
Proof.
  destruct (@executed_commands_are_triggered asciiLowering listedUsers countingGuard
              bot1 (inGuild "!p hello") [] "greeter" hello)
    as [_ (pl & Hin & Hen & _ & Hs)].
  - vm_compute. by left.
  - exists pl. by repeat split.
Defined.

Lemma executed_commands_are_cleared_witness :
  @RouterProps.cleared listedUsers (Some g1) (inGuild "!p hello") "greeter".
Proof.
  apply (@executed_commands_are_cleared asciiLowering listedUsers countingGuard
           bot1 (inGuild "!p hello") [] "greeter" hello).
  vm_compute. by left.
Defined.

Lemma no_guild_context_never_throws_witness :
  Router.outcome (Router.onMessage bot3 (direct "!p hello") []) = Router.Completed
  ∧ Router.outcome (Router.onMessage bot3 (inGuildOf "g9" "!p hello") [])
    = Router.Completed
  ∧ Router.onMessage bot3 (inGuildOf "constructor" "!p hello") []
    = {| Router.spam := []; Router.trace := []; Router.outcome := Router.NotAGuild |}.
Proof.
  split; [| split].
  - apply (@no_guild_context_never_throws asciiLowering listedUsers countingGuard
             bot3 (direct "!p hello") []).
    reflexivity.
  - destruct (@no_guild_context_never_throws asciiLowering listedUsers countingGuard
                bot3 (inGuildOf "g9" "!p hello") []) as (_ & Hfree & _).
    apply (Hfree "g9"); reflexivity.
  - destruct (@no_guild_context_never_throws asciiLowering listedUsers countingGuard
                bot3 (inGuildOf "constructor" "!p hello") []) as (_ & _ & Hheld).
    apply (Hheld "constructor"); try reflexivity. by left.
Defined.

Lemma exempt_candidates_skip_spam_gate_witness :
  Router.candidates (Some g1) (inGuild "!p ping") pinger = [ping]
  ∧ (isRestricted "alice" (onAction "alice" tenActions)).1 = true
  ∧ Router.spam
      (Router.evaluate bot1 (Some g1) (inGuild "!p ping") "pinger" pinger tenActions)
    = tenActions
  ∧ Props.survivors bot1 (Some g1) (inGuild "!p ping") pinger tenActions = [ping].
Proof.
  destruct (@exempt_candidates_skip_spam_gate asciiLowering countingGuard
              bot1 (Some g1) (inGuild "!p ping") "pinger" pinger tenActions)
    as (Hspam & _ & Hkept).
  - reflexivity.
  - split; [reflexivity |]. split; [reflexivity |].
    split; [exact Hspam | exact Hkept].
Defined.

Lemma abort_keeps_earlier_plugins_only_witness :
  Router.trace (Router.onMessage bot3 (inG3 "!p hello") []) = [].
Proof.
  apply (@abort_keeps_earlier_plugins_only asciiLowering listedUsers countingGuard
           bot3 (inG3 "!p hello") g3 [] [] [("faulty", faulty)] "greeter" greeter);
    reflexivity.
Defined.

(** ** The enabled-plugin set of a guild *)

Section EnabledPlugins.
Context `{JsString.Lowering} `{PermissionResolver} `{SpamGuard}.
Import Router.

Lemma run_eta (r : Run) :
  {| spam := spam r; trace := trace r; outcome := outcome r |} = r.
Proof. by destruct r. Qed.

Lemma evaluateAll_outcome (b : Bot) g message ps (st : SpamState) :
  outcome (Props.evaluateAll b g message ps st) = Completed.
Proof. destruct ps as [|[p pl] rest]; reflexivity. Qed.

Lemma routePlugins_all_enabled (b : Bot) (g : Guild.t) message ps (st : SpamState) :
  Guild.enabledPlugins g = ∅ →
  (∀ pluginId plugin, In (pluginId, plugin) ps → enabled plugin = true →
                      is_Some (Guild.permissions g !! pluginId)) →
  routePlugins b (Some g) message ps st
  = Props.evaluateAll b (Some g) message
      (List.filter (fun p => enabled p.2 && Props.authorized g message p.1) ps) st.
Proof.
  intros He. revert st.
  induction ps as [|[p pl] rest IH]; intros st Hrec; [reflexivity |].
  assert (Hrest : ∀ pluginId plugin, In (pluginId, plugin) rest →
                    enabled plugin = true →
                    is_Some (Guild.permissions g !! pluginId))
    by (intros q ql Hin; apply Hrec; by right).
  cbn [routePlugins List.filter fst snd]. unfold routePlugin, Props.authorized.
  destruct (enabled pl) eqn:Hen; cbn [negb andb].
  - destruct (Hrec p pl (or_introl eq_refl) Hen) as [permission Hp]. rewrite Hp.
    destruct (allows permission (id (author message))); cbn [negb].
    + rewrite (notEnabledInGuild_empty g p He), evaluate_outcome.
      cbn [Props.evaluateAll]. rewrite (IH _ Hrest).
      by rewrite evaluateAll_outcome.
    + cbn [skip outcome spam trace app]. rewrite (IH _ Hrest). apply run_eta.
  - cbn [skip outcome spam trace app]. rewrite (IH _ Hrest). apply run_eta.
Qed.

Lemma evaluateAll_invokes (b : Bot) g message ps (st : SpamState) p pl c :
  In (p, pl) ps → In c (allMatches message pl) → scopeMatches g c = true →
  In (p, c) (executed (trace (Props.evaluateAll b g message ps st))).
Proof.
  intros Hin Hc Hs. revert st.
  induction ps as [|[q ql] rest IH]; intros st; [destruct Hin |].
  cbn [Props.evaluateAll trace]. rewrite executed_app. apply in_or_app.
  destruct Hin as [[= -> ->] | Hin]; [left | right; by apply IH].
  rewrite evaluate_executed. apply in_map, filter_In. split; [| exact Hs].
  apply in_or_app. by right.
Qed.

Lemma routePlugins_without (b b' : Bot) (g : Guild.t) message ps
    (st : SpamState) (p : string) :
  owners b = owners b' →
  notEnabledInGuild (Some g) p = true →
  is_Some (Guild.permissions g !! p) →
  routePlugins b (Some g) message ps st
  = routePlugins b' (Some g) message (Obj.remove p ps) st.
Proof.
  intros Ho Hgate [permission Hp]. revert st.
  induction ps as [|[q ql] rest IH]; intros st; [reflexivity |].
  cbn [routePlugins Obj.remove].
  destruct (String.eqb_spec p q) as [<- | Hne].
  - assert (Hskip : routePlugin b (Some g) message p ql st = skip st).
    { unfold routePlugin. rewrite Hp, Hgate.
      destruct (enabled ql); cbn [negb]; [| reflexivity].
      by destruct (allows permission _). }
    rewrite Hskip. cbn [skip outcome spam trace app]. rewrite IH. apply run_eta.
  - cbn [routePlugins]. rewrite (routePlugin_owners b b' _ _ _ _ _ Ho).
    destruct (outcome (routePlugin b' (Some g) message q ql st));
      [by rewrite IH | reflexivity | reflexivity].
Qed.

(** C3, as the code has it.  In a guild whose enabled-plugin set is empty
    the gate of line 85 rejects no plugin: when every globally enabled
    plugin has its permission record, a message that reaches the plugin
    loop is routed by evaluating, in order, every installed plugin that is
    globally enabled and whose record allows the author, and every
    [all]-type command such a plugin matches is invoked when its scope
    fits.  In a guild whose set is not empty a plugin outside the set is
    skipped: none of its commands is invoked, and when its permission
    record exists the run is the run of the bot without that plugin. *)
Theorem enabledPlugins_sentinel (b : Bot) (g : Guild.t) (message : Message)
    (st : SpamState) :
  guildOf b message = Some g →
  (Guild.enabledPlugins g = ∅ →
     Props.reachesPlugins b message = true →
     (∀ pluginId plugin, In (pluginId, plugin) (plugins b) →
                         enabled plugin = true →
                         is_Some (Guild.permissions g !! pluginId)) →
     onMessage b message st
     = Props.evaluateAll b (Some g) message
         (List.filter (fun p => enabled p.2 && Props.authorized g message p.1)
                      (plugins b)) st
     ∧ ∀ pluginId plugin c,
         In (pluginId, plugin) (plugins b) →
         enabled plugin = true →
         Props.authorized g message pluginId = true →
         In c (allMatches message plugin) →
         scopeMatches (Some g) c = true →
         In (pluginId, c) (executed (trace (onMessage b message st))))
  ∧ (Guild.enabledPlugins g ≠ ∅ →
     ∀ pluginId, pluginId ∉ Guild.enabledPlugins g →
       (∀ c, ¬ In (pluginId, c) (executed (trace (onMessage b message st))))
       ∧ (is_Some (Guild.permissions g !! pluginId) →
          onMessage b message st
          = onMessage (Props.withoutPlugin pluginId b) message st)).
Proof.
  intros Hg. split.
  - intros He Hr Hrec.
    assert (Hrun : onMessage b message st
              = Props.evaluateAll b (Some g) message
                  (List.filter
                     (fun p => enabled p.2 && Props.authorized g message p.1)
                     (plugins b)) st).
    { rewrite (onMessage_reaches b message st Hr), Hg.
      by apply routePlugins_all_enabled. }
    split; [exact Hrun |].
    intros pluginId plugin c Hin Hen Hauth Hc Hs. rewrite Hrun.
    apply (evaluateAll_invokes _ _ _ _ _ pluginId plugin c); [| exact Hc | exact Hs].
    apply filter_In. split; [exact Hin |]. cbn [fst snd]. by rewrite Hen, Hauth.
  - intros Hne pluginId Hnotin.
    assert (Hgate : notEnabledInGuild (Some g) pluginId = true).
    { unfold notEnabledInGuild.
      by rewrite (size_pos_of_nonempty _ Hne), bool_decide_eq_false_2. }
    split.
    + intros c Hin.
      destruct (onMessage_routes _ _ _ _ _ Hin) as [_ Hin']. rewrite Hg in Hin'.
      destruct (routePlugins_sound _ _ _ _ _ _ _ Hin')
        as (pl & _ & _ & _ & _ & _ & [Hempty | Hmember]); contradiction.
    + intros Hrec. unfold onMessage.
      change (owners (Props.withoutPlugin pluginId b)) with (owners b).
      change (maintenance (Props.withoutPlugin pluginId b)) with (maintenance b).
      change (guildOf (Props.withoutPlugin pluginId b) message)
        with (guildOf b message).
      change (guildIsInherited (Props.withoutPlugin pluginId b) message)
        with (guildIsInherited b message).
      change (plugins (Props.withoutPlugin pluginId b))
        with (Obj.remove pluginId (plugins b)).
      destruct (bot (author message)); [reflexivity |].
      destruct (maintenance b && _); [reflexivity |].
      destruct (guildIsInherited b message); [reflexivity |].
      destruct (channelRejected _ _); [reflexivity |].
      rewrite Hg. by apply routePlugins_without.
Qed.

End EnabledPlugins.

Lemma enabledPlugins_sentinel_witness :
  Router.onMessage bot2 (inGuild "!p hello") []
  = Props.evaluateAll bot2 (Some g1) (inGuild "!p hello")
      [("faulty", faulty); ("greeter", greeter)] []
  ∧ In ("greeter", watcher)
       (Router.executed (Router.trace (Router.onMessage bot2 (inGuild "!p hello") [])))
  ∧ (∀ c, ¬ In ("faulty", c)
              (Router.executed
                 (Router.trace (Router.onMessage bot2 (inG2 "bots" "!p hello") []))))
  ∧ Router.onMessage bot2 (inG2 "bots" "!p hello") []
    = Router.onMessage (Props.withoutPlugin "faulty" bot2) (inG2 "bots" "!p hello") [].
Proof.
  destruct (@enabledPlugins_sentinel asciiLowering listedUsers countingGuard
              bot2 g1 (inGuild "!p hello") [] eq_refl) as [Hempty _].
  destruct Hempty as [Hrun Hall]; [reflexivity | reflexivity | |].
  { intros p pl [[= <- <-] | [[= <- <-] | []]] _; by eexists. }
  destruct (@enabledPlugins_sentinel asciiLowering listedUsers countingGuard
              bot2 g2 (inG2 "bots" "!p hello") [] eq_refl) as [_ Hlisted].
  destruct (Hlisted ltac:(simpl; set_solver) "faulty" ltac:(simpl; set_solver))
    as [Hnone Hsame].
  split; [exact Hrun |]. split; [| split; [exact Hnone |]].
  - apply (Hall "greeter" greeter watcher); try reflexivity.
    + right. by left.
    + by left.
  - apply Hsame. by eexists.
Defined.

(** C3, as stated, fails: guild [g8] has the empty set and the plugin
    [greeter] is installed and globally enabled, but its permission record
    in [g8] does not allow [alice]; her message reaches the plugin loop and
    the plugin is passed over, where evaluating it would have invoked two
    commands. *)
Lemma unauthorized_author_plugin_not_evaluated :
  ¬ Props.emptySetEvaluatesEveryEnabledPlugin
  ∧ Guild.enabledPlugins g8 = ∅
  ∧ Props.reachesPlugins bot8 (inGuildOf "g8" "!p hello") = true
  ∧ Router.onMessage bot8 (inGuildOf "g8" "!p hello") [] = Router.skip []
  ∧ Router.executed
      (Router.trace
         (Router.evaluate bot8 (Some g8) (inGuildOf "g8" "!p hello") "greeter" greeter []))
    = [("greeter", hello); ("greeter", watcher)].
Proof.
  split; [| repeat split].
  intros Hclaim.
  specialize (Hclaim asciiLowering listedUsers countingGuard
                bot8 g8 (inGuildOf "g8" "!p hello") [] eq_refl eq_refl eq_refl).
  discriminate Hclaim.
Qed.

(** ** Owners in memory and in the table *)

Lemma addRows_spec (rows : list string) (s : gset string) :
  OwnerLoad.addRows rows s = s ∪ list_to_set rows.
Proof.
  unfold OwnerLoad.addRows. revert s.
  induction rows as [|r rows IH]; intros s; simpl; [set_solver |].
  rewrite IH. set_solver.
Qed.

(** X7. After [setOwners] with a non-empty array the owners are exactly the
    given identifiers other than the empty string; the empty string is never
    an owner, whatever the set holds. *)
Theorem isOwner_after_setOwners (ids : list string) (st : Owner.state) (x : string) :
  Owner.isOwner "" (Owner._owners st) = false
  ∧ (ids ≠ [] →
     (Owner.isOwner x (Owner._owners (Owner.setOwners ids st)) = true
      ↔ x ≠ "" ∧ In x ids)).
Proof.
  split; [reflexivity |].
  intros Hne. rewrite (setOwners_nonempty ids st Hne). simpl.
  unfold Owner.isOwner. rewrite andb_true_iff, negb_true_iff, bool_decide_eq_true.
  rewrite elem_of_list_to_set, list_elem_of_In.
  destruct (String.eqb_spec x ""); split; intros [? ?]; split; congruence.
Qed.

Lemma isOwner_after_setOwners_witness :
  Owner.isOwner "ann" (Owner._owners (Owner.setOwners ["ann"; ""] (Owner.mkState {["root"]} [])))
  = true.
Proof.
  apply (isOwner_after_setOwners ["ann"; ""] (Owner.mkState {["root"]} []) "ann").
  - discriminate.
  - split; [discriminate | by left].
Defined.

(** X8. Owners survive a restart: once the delete and the inserts of
    [setOwners] have been carried out, the table holds the given identifiers,
    and [getOwners] on an empty in-memory set loads from those rows the very
    set [setOwners] left in memory.  With a non-empty in-memory set
    [getOwners] answers from memory and issues no select. *)
Theorem owners_survive_restart (ids rows0 : list string) (st : Owner.state) :
  (ids ≠ [] →
   let st' := Owner.setOwners_then ids (Owner.setOwners ids st) in
   let written := drop (length (Owner.effects st)) (Owner.effects st') in
   Owner.persisted rows0 written = ids
   ∧ (OwnerLoad.getOwners (Owner.persisted rows0 written) (Owner.mkState ∅ [])).2
     = Owner._owners st'
   ∧ OwnerLoad.getOwners rows0 st' = (st', Owner._owners st'))
  ∧ (Owner._owners st ≠ ∅ →
     OwnerLoad.getOwners rows0 st = (st, Owner._owners st)).
Proof.
  assert (Hcached : ∀ s : Owner.state, Owner._owners s ≠ ∅ →
                    OwnerLoad.getOwners rows0 s = (s, Owner._owners s)).
  { intros s Hs. unfold OwnerLoad.getOwners.
    destruct (size (Owner._owners s)) eqn:Hsize; [| reflexivity].
    exfalso. apply Hs. by apply leibniz_equiv, size_empty_inv. }
  split; [| apply Hcached].
  intros Hne st' written.
  assert (Hw : written
               = Owner.AssignOwners (list_to_set ids)
                 :: Owner.Db (DbDelete "Owners" [])
                 :: map (fun id => Owner.Db (DbInsert "Owners" [("discordUserId", id)])) ids).
  { subst written st'. rewrite (setOwners_nonempty ids st Hne). simpl.
    rewrite <- app_assoc. apply drop_app_length. }
  assert (Hrows : Owner.persisted rows0 written = ids).
  { rewrite Hw. exact (persisted_inserts ids []). }
  split; [exact Hrows |]. split.
  - rewrite Hrows. unfold OwnerLoad.getOwners. cbn [Owner._owners].
    rewrite size_empty. cbn [Nat.eqb snd]. rewrite addRows_spec. subst st'. rewrite (setOwners_nonempty ids st Hne). simpl.
    set_solver.
  - apply Hcached. subst st'. rewrite (setOwners_nonempty ids st Hne). simpl.
    destruct ids as [|i ids]; [congruence |]. set_solver.
Qed.

Lemma owners_survive_restart_witness :
  (OwnerLoad.getOwners ["ann"; "bob"] (Owner.mkState ∅ [])).2
  = list_to_set ["ann"; "bob"].
Proof.
  destruct (owners_survive_restart ["ann"; "bob"] ["root"] (Owner.mkState {["root"]} []))
    as [Hround _].
  destruct Hround as (Hrows & Hload & _); [discriminate |].
  rewrite Hrows in Hload. exact Hload.
Defined.

(** ** Guild settings in memory and in the tables *)

Section DbFacts.

Lemma run_app (db : Db.t) (ops1 ops2 : list DbOp) :
  Db.run db (ops1 ++ ops2) = Db.run (Db.run db ops1) ops2.
Proof. unfold Db.run. apply fold_left_app. Qed.

Lemma select_app (table : string) (f : DbFilter) (db1 db2 : Db.t) :
  Db.select table f (db1 ++ db2) = Db.select table f db1 ++ Db.select table f db2.
Proof. unfold Db.select. by rewrite List.filter_app, map_app. Qed.

Lemma select_deleted (table : string) (f : DbFilter) (db : Db.t) :
  Db.select table f (Db.apply db (DbDelete table f)) = [].
Proof.
  unfold Db.select. simpl. induction db as [|e db IH]; simpl; [reflexivity |].
  destruct (Db.selected table f e) eqn:He; simpl; [exact IH |].
  by rewrite He.
Qed.

Lemma matches_guild (id id' : string) (row : Db.Row) :
  Db.matches [("discordGuildId", id)] row = true →
  Db.matches [("discordGuildId", id')] row = true → id = id'.
Proof.
  unfold Db.matches. simpl.
  destruct (Obj.get "discordGuildId" row) as [v|]; [| discriminate].
  rewrite !andb_true_r. intros H1 H2.
  apply String.eqb_eq in H1, H2. congruence.
Qed.

Lemma select_other_guild (table : string) (id other : string) (db : Db.t) :
  other ≠ id →
  Db.select table [("discordGuildId", other)]
    (Db.apply db (DbDelete table [("discordGuildId", id)]))
  = Db.select table [("discordGuildId", other)] db.
Proof.
  intros Hne. unfold Db.select. simpl. f_equal.
  induction db as [|e db IH]; simpl; [reflexivity |].
  destruct (Db.selected table [("discordGuildId", id)] e) eqn:Hd; simpl.
  - rewrite IH.
    destruct (Db.selected table [("discordGuildId", other)] e) eqn:Ho; [| reflexivity].
    exfalso. unfold Db.selected in Hd, Ho.
    apply andb_prop in Hd as [_ Hd]. apply andb_prop in Ho as [_ Ho].
    apply Hne. symmetry. by eapply matches_guild.
  - by rewrite IH.
Qed.

Lemma run_inserts {A} (table : string) (row : A → Db.Row) (xs : list A) (db : Db.t) :
  Db.run db (map (fun x => DbInsert table (row x)) xs)
  = db ++ map (fun x => (table, row x)) xs.
Proof.
  unfold Db.run. revert db.
  induction xs as [|x xs IH]; intros db; simpl; [by rewrite app_nil_r |].
  by rewrite IH, <- app_assoc.
Qed.

Lemma addAll_spec (rows : list string) (s : gset string) :
  fold_left (fun s row => s ∪ {[row]}) rows s = s ∪ list_to_set rows.
Proof. exact (addRows_spec rows s). Qed.

End DbFacts.

Section GuildTables.
Import GuildOps.

Lemma select_enabled_rows (id : string) (xs : list string) :
  Db.column "pluginId"
    (Db.select "GuildEnabledPlugins" [("discordGuildId", id)]
       (map (fun x => ("GuildEnabledPlugins",
                       [("pluginId", x); ("discordGuildId", id)])) xs))
  = xs.
Proof.
  induction xs as [|x xs IH]; [reflexivity |].
  unfold Db.select in *. cbn [map List.filter].
  unfold Db.selected at 1. cbn [fst snd]. unfold Db.matches. simpl.
  rewrite String.eqb_refl. simpl. by rewrite IH.
Qed.

Lemma select_enabled_rows_other (id other : string) (xs : list string) :
  other ≠ id →
  Db.select "GuildEnabledPlugins" [("discordGuildId", other)]
    (map (fun x => ("GuildEnabledPlugins",
                    [("pluginId", x); ("discordGuildId", id)])) xs)
  = [].
Proof.
  intros Hne. induction xs as [|x xs IH]; [reflexivity |].
  unfold Db.select in *. cbn [map List.filter].
  unfold Db.selected at 1. cbn [fst snd]. unfold Db.matches. simpl.
  destruct (String.eqb_spec id other); [congruence |]. simpl. exact IH.
Qed.

(** X9. The enabled-plugin set survives a restart: once the delete and the
    inserts of [setPluginEnabled] have been carried out, the rows of the
    guild in [GuildEnabledPlugins] are the members of the in-memory set,
    [_loadEnabledPlugins] on a new guild object rebuilds that set, and the
    rows of every other guild are what they were. *)
Theorem enabledPlugins_survive_restart (installed : list string) (p : string)
    (enabled : bool) (g : Guild.t) (db : Db.t) (defaultPrefix : string) :
  let g' := (Guild.setPluginEnabled installed p enabled g).1 in
  let db' := Db.run db ((Guild.setPluginEnabled installed p enabled g).2
                        ++ Guild.setPluginEnabled_then g') in
  let rows := Db.column "pluginId"
                (Db.select "GuildEnabledPlugins" (guildFilter g) db') in
  Guild.enabledPlugins
    (_loadEnabledPlugins rows (Guild.fresh defaultPrefix (Guild.discordId g)))
  = Guild.enabledPlugins g'
  ∧ ∀ other, other ≠ Guild.discordId g →
      Db.select "GuildEnabledPlugins" [("discordGuildId", other)] db'
      = Db.select "GuildEnabledPlugins" [("discordGuildId", other)] db.
Proof.
  intros g' db' rows.
  assert (Hdb : db' = Db.apply db (DbDelete "GuildEnabledPlugins" (guildFilter g))
                      ++ map (fun x => ("GuildEnabledPlugins",
                                         [("pluginId", x);
                                          ("discordGuildId", Guild.discordId g)]))
                             (elements (Guild.enabledPlugins g'))).
  { subst db'. rewrite run_app. unfold Guild.setPluginEnabled_then.
    rewrite (run_inserts "GuildEnabledPlugins"
               (fun x => [("pluginId", x); ("discordGuildId", Guild.discordId g')])).
    reflexivity. }
  split.
  - subst rows. rewrite Hdb, select_app. unfold guildFilter.
    rewrite select_deleted. simpl app. rewrite select_enabled_rows.
    unfold _loadEnabledPlugins. simpl. rewrite addAll_spec.
    rewrite list_to_set_elements_L. set_solver.
  - intros other Hne. rewrite Hdb, select_app.
    rewrite (select_enabled_rows_other _ _ _ Hne), app_nil_r.
    by apply select_other_guild.
Qed.

Lemma select_channel_rows (id : string) (xs : list string) :
  Db.column "discordChannelId"
    (Db.select "AllowedChannels" [("discordGuildId", id)]
       (map (fun x => ("AllowedChannels",
                       [("discordGuildId", id); ("discordChannelId", x)])) xs))
  = xs.
Proof.
  induction xs as [|x xs IH]; [reflexivity |].
  unfold Db.select in *. cbn [map List.filter].
  unfold Db.selected at 1. cbn [fst snd]. unfold Db.matches. simpl.
  rewrite String.eqb_refl. simpl. by rewrite IH.
Qed.

(** X10. The allowed-channel setter keeps every given channel in memory
    but stores one row at most: once its delete and its callback have been
    carried out, the rows of the guild in [AllowedChannels] hold the first
    given channel only, and that is all [_loadAllowedChannels] brings back
    on a new guild object. *)
Theorem allowedChannels_store_first_only (ids : list string) (g : Guild.t)
    (db : Db.t) (defaultPrefix : string) :
  let g' := (set_allowedChannelIds ids g).1 in
  let db' := Db.run db ((set_allowedChannelIds ids g).2
                        ++ set_allowedChannelIds_then ids g') in
  let rows := Db.column "discordChannelId"
                (Db.select "AllowedChannels" (guildFilter g) db') in
  Guild.allowedChannelIds g' = list_to_set ids
  ∧ rows = take 1 ids
  ∧ Guild.allowedChannelIds
      (_loadAllowedChannels rows (Guild.fresh defaultPrefix (Guild.discordId g)))
    = list_to_set (take 1 ids).
Proof.
  intros g' db' rows.
  assert (Hthen : set_allowedChannelIds_then ids g'
                  = map (fun x => DbInsert "AllowedChannels"
                                    [("discordGuildId", Guild.discordId g);
                                     ("discordChannelId", x)]) (take 1 ids)).
  { by destruct ids. }
  assert (Hrows : rows = take 1 ids).
  { subst rows db'. rewrite run_app, Hthen.
    rewrite (run_inserts "AllowedChannels"
               (fun x => [("discordGuildId", Guild.discordId g);
                          ("discordChannelId", x)])).
    rewrite select_app. unfold guildFilter.
    change (Db.run db (set_allowedChannelIds ids g).2)
      with (Db.apply db (DbDelete "AllowedChannels"
                           [("discordGuildId", Guild.discordId g)])).
    rewrite select_deleted. simpl app. apply select_channel_rows. }
  split; [reflexivity |]. split; [exact Hrows |].
  rewrite Hrows. unfold _loadAllowedChannels. simpl. rewrite addAll_spec. set_solver.
Qed.

End GuildTables.

Lemma enabledPlugins_survive_restart_witness :
  let g' := (Guild.setPluginEnabled ["greeter"; "faulty"] "faulty" false Samples.g6).1 in
  let db' := Db.run Samples.db0
               ((Guild.setPluginEnabled ["greeter"; "faulty"] "faulty" false Samples.g6).2
                ++ Guild.setPluginEnabled_then g') in
  Db.select "GuildEnabledPlugins" [("discordGuildId", "g1")] db'
  = Db.select "GuildEnabledPlugins" [("discordGuildId", "g1")] Samples.db0.
Proof.
  intros g' db'.
  apply (enabledPlugins_survive_restart ["greeter"; "faulty"] "faulty" false
           Samples.g6 Samples.db0 "!").
  discriminate.
Defined.

(** The rows of guild [g6] after the allowed channels were set to [bots] and
    [general]: one row. *)
Example allowedChannels_two_given_one_stored :
  Db.select "AllowedChannels" [("discordGuildId", "g6")]
    (Db.run Samples.db0
       ((GuildOps.set_allowedChannelIds ["bots"; "general"] Samples.g6).2
        ++ GuildOps.set_allowedChannelIds_then ["bots"; "general"] Samples.g6))
  = [[("discordGuildId", "g6"); ("discordChannelId", "bots")]].
Proof. reflexivity. Qed.

(** ** Plugins coming and going *)

Section PluginLifecycle.
Context `{JsString.Lowering} `{PermissionResolver} `{SpamGuard}.
Import Router.

(** X11. [onPluginDeleted] drops the permission record of the plugin and
    takes it out of the enabled set, and touches no other plugin's record or
    membership.  When the plugin was the only one listed, the set becomes
    empty: plugins the gate rejected before are all let through after. *)
Theorem onPluginDeleted_effect (p : string) (g : Guild.t) :
  let g' := Guild.onPluginDeleted p g in
  Guild.permissions g' !! p = None
  ∧ (p ∉ Guild.enabledPlugins g')
  ∧ (∀ q, q ≠ p →
       Guild.permissions g' !! q = Guild.permissions g !! q
       ∧ (q ∈ Guild.enabledPlugins g' ↔ q ∈ Guild.enabledPlugins g))
  ∧ (Guild.enabledPlugins g = {[p]} →
     ∀ q, q ≠ p →
       notEnabledInGuild (Some g) q = true
       ∧ notEnabledInGuild (Some g') q = false).
Proof.
  intros g'.
  assert (Hperm : Guild.permissions g' = delete p (Guild.permissions g)) by reflexivity.
  assert (Hen : Guild.enabledPlugins g' = Guild.enabledPlugins g ∖ {[p]}) by reflexivity.
  rewrite Hperm, Hen.
  split; [apply lookup_delete_eq |]. split; [set_solver |]. split.
  - intros q Hne. split; [by apply lookup_delete_ne | set_solver].
  - intros Hs q Hne. split.
    + unfold notEnabledInGuild. rewrite Hs, size_singleton.
      rewrite bool_decide_eq_false_2; [reflexivity | set_solver].
    + apply notEnabledInGuild_empty. rewrite Hen, Hs. set_solver.
Qed.

Lemma pluginsLoaded_records (ids : list string) (g : Guild.t) (p : string) :
  In p ids ∨ is_Some (Guild.permissions g !! p) →
  is_Some (Guild.permissions (GuildOps.pluginsLoaded ids g) !! p).
Proof.
  unfold GuildOps.pluginsLoaded. revert g.
  induction ids as [|i ids IH]; intros g; simpl.
  - intros [[] | Hs]. exact Hs.
  - intros Hin. apply IH. simpl.
    destruct (decide (i = p)) as [-> | Hne].
    + right. rewrite lookup_insert_eq. by eexists.
    + destruct Hin as [[Heq | Hin] | Hs]; [contradiction | by left |].
      right. by rewrite lookup_insert_ne.
Qed.

(** X12. A guild that [plugin-loaded] has reached for every registered
    plugin holds a permission record for each, so routing a message in it
    always returns normally. *)
Theorem routing_completes_once_plugins_loaded (b : Bot) (message : Message)
    (g0 : Guild.t) (st : SpamState) :
  guildOf b message = Some (GuildOps.pluginsLoaded (Obj.keys (plugins b)) g0) →
  outcome (onMessage b message st) = Completed.
Proof.
  intros Hg. unfold onMessage. rewrite (guildOf_held _ _ _ Hg).
  destruct (bot (author message)); [reflexivity |].
  destruct (maintenance b && _); [reflexivity |].
  destruct (channelRejected _ _); [reflexivity |].
  rewrite Hg. apply routePlugins_completed.
  intros pluginId plugin Hin _. apply pluginsLoaded_records. left.
  unfold Obj.keys. apply in_map_iff. by exists (pluginId, plugin).
Qed.

End PluginLifecycle.

Import Samples.

Lemma onPluginDeleted_effect_witness :
  Router.notEnabledInGuild (Some g2) "faulty" = true
  ∧ Router.notEnabledInGuild (Some (Guild.onPluginDeleted "greeter" g2)) "faulty" = false.
Proof.
  apply (onPluginDeleted_effect "greeter" g2); [reflexivity | discriminate].
Defined.

Lemma routing_completes_once_plugins_loaded_witness :
  Router.outcome (Router.onMessage bot7 (inG7 "!p hello") []) = Router.Completed.
Proof.
  apply (@routing_completes_once_plugins_loaded asciiLowering listedUsers countingGuard
           bot7 (inG7 "!p hello") (Guild.fresh "!" "g7") []).
  reflexivity.
Defined.

(** ** Permissions and admins of a guild *)

Section Principals.
Context `{UserRoles}.
Import GuildOps.

(** X13. [setPluginPermission] ends in a [TypeError] exactly when the guild
    has no permission record of the plugin.  Otherwise the record gets the
    given principals and keeps its identifiers, every other record and
    setting of the guild stays as it is, and one delete on [Permissions]
    for this guild and plugin is issued.  After [onPluginLoaded] for the
    plugin it always succeeds. *)
Theorem setPluginPermission_needs_record (p : string) (userRoles : list UserRole)
    (g : Guild.t) :
  (setPluginPermission p userRoles g = None ↔ Guild.permissions g !! p = None)
  ∧ (∀ g' ops, setPluginPermission p userRoles g = Some (g', ops) →
       (∃ old, Guild.permissions g !! p = Some old
               ∧ Guild.permissions g' !! p
                 = Some (mkPermission (perm_discordGuildId old)
                           (perm_pluginId old) userRoles))
       ∧ (∀ q, q ≠ p → Guild.permissions g' !! q = Guild.permissions g !! q)
       ∧ Guild.enabledPlugins g' = Guild.enabledPlugins g
       ∧ Guild.allowedChannelIds g' = Guild.allowedChannelIds g
       ∧ Guild._admins g' = Guild._admins g
       ∧ ops = [DbDelete "Permissions"
                  [("discordGuildId", Guild.discordId g); ("pluginId", p)]])
  ∧ is_Some (setPluginPermission p userRoles (Guild.onPluginLoaded p g).1).
Proof.
  unfold setPluginPermission. split; [| split].
  - destruct (Guild.permissions g !! p); split; congruence.
  - intros g' ops.
    destruct (Guild.permissions g !! p) as [old|]; [| discriminate].
    intros [= <- <-]. simpl. split; [| split].
    + exists old. split; [reflexivity | apply lookup_insert_eq].
    + intros q Hne. by apply lookup_insert_ne.
    + by repeat split.
  - simpl. rewrite lookup_insert_eq. by eexists.
Qed.

Lemma anyDescribes_spec (admins : list UserRole) (u : string) (acc : bool) :
  anyDescribes admins u acc = acc || existsb (fun a => describes a u) admins.
Proof.
  unfold anyDescribes. revert acc.
  induction admins as [|a admins IH]; intros acc; simpl; [by rewrite orb_false_r |].
  rewrite IH. destruct (describes a u), acc; reflexivity.
Qed.

Lemma isAdmin_spec (u : string) (g : Guild.t) :
  isAdmin u g = true ↔
  ∃ a, In a (Guild._admins g ++ Guild._discordAdmins g) ∧ describes a u = true.
Proof.
  unfold isAdmin. rewrite !anyDescribes_spec. simpl.
  destruct (existsb (fun a => describes a u) (Guild._admins g)) eqn:He; simpl.
  - split; [| reflexivity]. intros _.
    apply existsb_exists in He as (a & Hin & Ha).
    exists a. split; [apply in_or_app; by left | exact Ha].
  - rewrite existsb_exists. split.
    + intros (a & Hin & Ha). exists a. split; [apply in_or_app; by right | exact Ha].
    + intros (a & Hin & Ha). apply in_app_or in Hin as [Hin | Hin].
      * assert (Ht : existsb (fun a => describes a u) (Guild._admins g) = true)
          by (apply existsb_exists; by exists a).
        congruence.
      * by exists a.
Qed.

(** X14. [isGuildAdmin] answers [false] when either identifier is empty,
    ends in a [TypeError] exactly when both are given and the registry does
    not hold the guild, and answers [true] exactly when the guild is held
    and one of its explicit or native admins describes the user. *)
Theorem isGuildAdmin_cases (discordUserId discordGuildId : string)
    (st : Registry.state) :
  (discordUserId = "" ∨ discordGuildId = "" →
     isGuildAdmin discordUserId discordGuildId st = Answer false)
  ∧ (isGuildAdmin discordUserId discordGuildId st = NoSuchGuild ↔
       discordUserId ≠ "" ∧ discordGuildId ≠ ""
       ∧ Registry.get discordGuildId st = None)
  ∧ (isGuildAdmin discordUserId discordGuildId st = Answer true ↔
       discordUserId ≠ "" ∧ discordGuildId ≠ ""
       ∧ ∃ g a, Registry.get discordGuildId st = Some g
                ∧ In a (Guild._admins g ++ Guild._discordAdmins g)
                ∧ describes a discordUserId = true).
Proof.
  unfold isGuildAdmin.
  destruct (String.eqb_spec discordGuildId "") as [Hg | Hg];
    destruct (String.eqb_spec discordUserId "") as [Hu | Hu]; simpl;
    try (split; [reflexivity |]; split; split;
         [discriminate | intros (? & ? & _); congruence
         | discriminate | intros (? & ? & _); congruence]).
  split; [intros [? | ?]; congruence |].
  destruct (Registry.get discordGuildId st) as [g|] eqn:Hget.
  - split; [split; [discriminate | intros (_ & _ & ?); discriminate] |].
    split.
    + intros [= Ha]. apply isAdmin_spec in Ha as (a & Hin & Ha).
      repeat split; try assumption. by exists g, a.
    + intros (_ & _ & g' & a & [= <-] & Hin & Ha).
      f_equal. apply isAdmin_spec. by exists a.
  - split; [split; [by intros _ | reflexivity] |].
    split; [discriminate | intros (_ & _ & g' & a & ? & _); discriminate].
Qed.

Lemma adminRoles_In (gid : string) (roles : list DiscordRole) (a : UserRole) :
  In a (Guild.adminRoles gid roles) ↔
  ∃ role, In role roles ∧ role_administrator role = true
          ∧ a = mkUserRole None (Some (role_id role)) gid.
Proof.
  induction roles as [|r roles IH]; simpl.
  - split; [intros [] | intros (? & [] & _)].
  - destruct (role_administrator r) eqn:Hr; simpl; rewrite IH; split.
    + intros [<- | (role & Hin & Ha & ->)]; [exists r | exists role]; by auto.
    + intros (role & [<- | Hin] & Ha & ->); [by left | right; by exists role].
    + intros (role & Hin & Ha & ->). exists role. by auto.
    + intros (role & [<- | Hin] & Ha & ->); [congruence | by exists role].
Qed.

(** X15. [loadDiscordAdmins] derives the native admins from scratch: after
    it, a user is an admin exactly when an explicit admin describes them,
    or the principal of the Discord guild's owner does, or the principal
    of one of its administrator roles does; native admins held before
    count no more. *)
Theorem native_admins_rederived (dg : DiscordGuild) (g : Guild.t) (u : string) :
  let g' := Guild.loadDiscordAdmins (Some dg) g in
  isAdmin u g' = true ↔
    (∃ a, In a (Guild._admins g) ∧ describes a u = true)
    ∨ describes (mkUserRole (Some (dg_ownerID dg)) None (Guild.discordId g)) u = true
    ∨ ∃ role, In role (dg_roles dg) ∧ role_administrator role = true
              ∧ describes (mkUserRole None (Some (role_id role)) (Guild.discordId g)) u
                = true.
Proof.
  intros g'. subst g'. rewrite isAdmin_spec. simpl. split.
  - intros (a & Hin & Ha). apply in_app_or in Hin as [Hin | [<- | Hin]].
    + left. by exists a.
    + right. by left.
    + right. right. apply adminRoles_In in Hin as (role & Hin & Hr & ->).
      by exists role.
  - intros [(a & Hin & Ha) | [Ho | (role & Hin & Hr & Ha)]].
    + exists a. split; [apply in_or_app; by left | exact Ha].
    + eexists. split; [apply in_or_app; right; by left | exact Ho].
    + eexists. split; [| exact Ha].
      apply in_or_app. right. right. apply adminRoles_In. by exists role.
Qed.

End Principals.

Lemma setPluginPermission_needs_record_witness :
  GuildOps.setPluginPermission "faulty" [ann] g6 = None
  ∧ is_Some (GuildOps.setPluginPermission "greeter" [ann] g6).
Proof.
  split.
  - apply (setPluginPermission_needs_record "faulty" [ann] g6). reflexivity.
  - destruct (GuildOps.setPluginPermission "greeter" [ann] g6) eqn:Hs; [by eexists |].
    apply (setPluginPermission_needs_record "greeter" [ann] g6) in Hs. discriminate.
Defined.

Lemma isGuildAdmin_cases_witness :
  GuildOps.isGuildAdmin "ann" "nowhere" registry6 = GuildOps.NoSuchGuild
  ∧ GuildOps.isGuildAdmin "ann" "g6" registry6 = GuildOps.Answer true
  ∧ GuildOps.isGuildAdmin "" "nowhere" registry6 = GuildOps.Answer false.
Proof.
  split; [| split].
  - apply (@isGuildAdmin_cases byUserId "ann" "nowhere" registry6).
    repeat split; discriminate.
  - apply (@isGuildAdmin_cases byUserId "ann" "g6" registry6).
    split; [discriminate |]. split; [discriminate |].
    exists g6, (mkUserRole (Some "ann") None "g6"). repeat split. by left.
  - apply (@isGuildAdmin_cases byUserId "" "nowhere" registry6). by left.
Defined.

Lemma native_admins_rederived_witness :
  GuildOps.isAdmin "ann"
    (Guild.loadDiscordAdmins (Some (mkDiscordGuild "g1" "ann" [])) g1) = true.
Proof.
  apply (@native_admins_rederived byUserId (mkDiscordGuild "g1" "ann" []) g1 "ann").
  right. left. reflexivity.
Defined.

(** ** Initialisation of a guild *)

Section Init.
Context `{UserRoles}.
Import GuildOps.

(** X16. When the select on [GuildSettings] returns no row, [_init] logs
    [GuildSettings not found] and stops there: the guild object is left as
    it was, and no select on [Admins], [AllowedChannels] or
    [GuildEnabledPlugins] is issued, whatever rows those tables hold.  A
    guild fresh from its constructor therefore stays with empty channel and
    plugin sets, which the router reads as every channel and every plugin
    allowed. *)
Theorem init_without_settings (a : Answers) (g : Guild.t) :
  settingsRows a = [] →
  let r := _init a g in
  guild r = g
  ∧ logged r = ["GuildSettings not found"]
  ∧ issued r = _tryAdd (guildsRows a) g
               ++ [DbSelect "GuildSettings" ["prefix"] (guildFilter g)]
  ∧ (∀ defaultPrefix id message pluginId,
       g = Guild.fresh defaultPrefix id →
       Router.channelRejected (Some (guild r)) message = false
       ∧ Router.notEnabledInGuild (Some (guild r)) pluginId = false).
Proof.
  intros Hs r. subst r. unfold _init. rewrite Hs.
  cbn [_loadGuildSettings guild logged issued].
  split; [reflexivity |]. split; [reflexivity |]. split; [reflexivity |].
  intros defaultPrefix id message pluginId ->. split.
  - unfold Router.channelRejected.
    change (Guild.allowedChannelIds (Guild.fresh defaultPrefix id))
      with (∅ : gset string).
    rewrite size_empty. apply andb_false_r.
  - by apply notEnabledInGuild_empty.
Qed.

(** X17. When the select on [GuildSettings] returns rows, [_init] logs
    nothing, takes the prefix of the first row, and only adds to what the
    guild object holds: the rows selected join the explicit admins, the
    allowed channels and the enabled plugins already there; permission
    records and native admins are not touched.  The two inserts of
    [_tryAdd] are issued exactly when the select on [Guilds] returned no
    row. *)
Theorem init_with_settings (a : Answers) (g : Guild.t) (p : string)
    (rest : list string) :
  settingsRows a = p :: rest →
  let r := _init a g in
  logged r = []
  ∧ Guild.commandPrefix (guild r) = p
  ∧ Guild.allowedChannelIds (guild r)
    = Guild.allowedChannelIds g ∪ list_to_set (channelsRows a)
  ∧ Guild.enabledPlugins (guild r)
    = Guild.enabledPlugins g ∪ list_to_set (pluginsRows a)
  ∧ Guild._admins (guild r)
    = Guild._admins g ++ map (fun id => getById id (Guild.discordId g)) (adminsRows a)
  ∧ Guild.permissions (guild r) = Guild.permissions g
  ∧ Guild._discordAdmins (guild r) = Guild._discordAdmins g
  ∧ (In (DbInsert "GuildSettings" (guildFilter g)) (issued r) ↔ guildsRows a = []).
Proof.
  intros Hs r. subst r. unfold _init. rewrite Hs. simpl.
  rewrite !addAll_spec.
  repeat split; try reflexivity.
  - unfold _tryAdd. destruct (guildsRows a); simpl; [reflexivity |].
    intros [Hin | [Hin | [Hin | [Hin | [Hin | []]]]]]; discriminate.
  - intros ->. simpl. right. right. by left.
Qed.

End Init.

Lemma init_without_settings_witness :
  GuildOps.guild
    (GuildOps._init (GuildOps.mkAnswers ["g6"] [] ["ann"] ["bots"] ["greeter"])
       (Guild.fresh "!" "g6"))
  = Guild.fresh "!" "g6".
Proof.
  apply (@init_without_settings byUserId
           (GuildOps.mkAnswers ["g6"] [] ["ann"] ["bots"] ["greeter"])
           (Guild.fresh "!" "g6")).
  reflexivity.
Defined.

Lemma init_with_settings_witness :
  Guild.commandPrefix
    (GuildOps.guild
       (GuildOps._init (GuildOps.mkAnswers [] ["?"] ["ann"] ["bots"] ["greeter"])
          (Guild.fresh "!" "g6")))
  = "?".
Proof.
  apply (@init_with_settings byUserId
           (GuildOps.mkAnswers [] ["?"] ["ann"] ["bots"] ["greeter"])
           (Guild.fresh "!" "g6") "?" []).
  reflexivity.
Defined.

(** ** The registry after loading and reconciling *)

Section RegistryAfter.
Variable defaultPrefix : string.

Lemma clientGuild_found (client : list DiscordGuild) (id : string) :
  In id (map dg_id client) →
  ∃ dg, clientGuild client id = Some dg ∧ dg_id dg = id.
Proof.
  unfold clientGuild. induction client as [|d client IH]; simpl; [intros [] |].
  destruct (String.eqb_spec (dg_id d) id) as [Heq | Hne].
  - intros _. by exists d.
  - intros [Heq | Hin]; [contradiction | by apply IH].
Qed.

Lemma newGuilds_get_other (l : list string) (st : Registry.state) (id : string) :
  ¬ In id l →
  Registry.get id (fold_left (fun s x => Registry.newGuild defaultPrefix x s) l st)
  = Registry.get id st.
Proof.
  revert st. induction l as [|x l IH]; intros st Hn; simpl; [reflexivity |].
  rewrite IH by (intros Hin; apply Hn; by right).
  unfold Registry.get. simpl. apply get_set_ne. intros ->. apply Hn. by left.
Qed.

Lemma newGuilds_get (l : list string) (st : Registry.state) (id : string) :
  In id l →
  Registry.get id (fold_left (fun s x => Registry.newGuild defaultPrefix x s) l st)
  = Some (Guild.fresh defaultPrefix id).
Proof.
  revert st. induction l as [|x l IH]; intros st Hin; simpl; [destruct Hin |].
  destruct (in_dec string_dec id l) as [Hl | Hl]; [by apply IH |].
  destruct Hin as [-> | Hin]; [| contradiction].
  rewrite newGuilds_get_other by exact Hl.
  unfold Registry.get. simpl. apply get_set_eq.
Qed.

Lemma loadAll_get_other (client : list DiscordGuild) (l : list string)
    (st : Registry.state) (id : string) :
  ¬ In id l →
  Registry.get id
    (fold_left (fun s x => Registry.loadDiscordAdmins client x s) l st)
  = Registry.get id st.
Proof.
  revert st. induction l as [|x l IH]; intros st Hn; simpl; [reflexivity |].
  rewrite IH by (intros Hin; apply Hn; by right).
  unfold Registry.loadDiscordAdmins.
  destruct (Registry.get x st); [| reflexivity].
  unfold Registry.get. simpl. apply get_set_ne. intros ->. apply Hn. by left.
Qed.

Lemma deletes_get (l : list string) (st : Registry.state) (id : string) :
  Registry.get id (fold_left (fun s x => Registry.delete x s) l st)
  = Registry.get id st.
Proof. unfold Registry.get. by rewrite deletes_guilds. Qed.

(** X18. After [updateGuilds] every connected guild is in the registry and
    its native admins are the principal of the owner followed by the
    principals of the administrator roles the client reports for it.  A
    guild that is no longer connected keeps its entry, unchanged, until its
    delete settles. *)
Theorem updateGuilds_postcondition (client : list DiscordGuild)
    (st : Registry.state) (id : string) :
  (In id (map dg_id client) →
     ∃ g dg, Registry.get id (Registry.updateGuilds defaultPrefix client st) = Some g
             ∧ clientGuild client id = Some dg ∧ dg_id dg = id
             ∧ Guild._discordAdmins g
               = mkUserRole (Some (dg_ownerID dg)) None (Guild.discordId g)
                 :: Guild.adminRoles (Guild.discordId g) (dg_roles dg))
  ∧ (¬ In id (map dg_id client) →
     Registry.get id (Registry.updateGuilds defaultPrefix client st)
     = Registry.get id st).
Proof.
  split.
  - intros Hin.
    destruct (updateGuilds_loaded defaultPrefix client st id Hin) as (g & Hg & Hl).
    destruct (clientGuild_found client id Hin) as (dg & Hdg & Hid).
    exists g, dg. repeat split; try assumption.
    unfold Props.adminsLoaded in Hl. rewrite Hdg in Hl.
    apply (f_equal Guild._discordAdmins) in Hl. simpl in Hl. by rewrite <- Hl.
  - intros Hn. unfold Registry.updateGuilds.
    rewrite loadAll_get_other by exact Hn. rewrite deletes_get.
    apply newGuilds_get_other. rewrite addedGuilds_In. tauto.
Qed.

Lemma newGuilds_listeners (l : list string) (st : Registry.state) :
  Registry.listeners (fold_left (fun s x => Registry.newGuild defaultPrefix x s) l st)
  = Registry.listeners st
    ++ flat_map (fun id => [("plugin-loaded", id); ("plugin-deleted", id)]) l.
Proof.
  revert st. induction l as [|x l IH]; intros st; simpl; [by rewrite app_nil_r |].
  rewrite IH. simpl. by rewrite <- app_assoc.
Qed.

Lemma deletes_listeners (l : list string) (st : Registry.state) :
  Registry.listeners (fold_left (fun s x => Registry.delete x s) l st)
  = Registry.listeners st.
Proof. revert st. induction l as [|x l IH]; intros st; simpl; [reflexivity | by rewrite IH]. Qed.

Lemma loadAll_listeners (client : list DiscordGuild) (l : list string)
    (st : Registry.state) :
  Registry.listeners
    (fold_left (fun s x => Registry.loadDiscordAdmins client x s) l st)
  = Registry.listeners st.
Proof.
  revert st. induction l as [|x l IH]; intros st; simpl; [reflexivity |].
  rewrite IH. unfold Registry.loadDiscordAdmins. by destruct (Registry.get x st).
Qed.

Lemma settled_listeners (l : list string) (st : Registry.state) :
  Registry.listeners (Props.deletesSettled l st) = Registry.listeners st.
Proof.
  unfold Props.deletesSettled.
  revert st. induction l as [|x l IH]; intros st; simpl; [reflexivity | by rewrite IH].
Qed.

(** X19. Listeners are only ever added: a run of [updateGuilds] registers
    [plugin-loaded] and [plugin-deleted] once for each guild it creates and
    removes none, and deleting a guild, settled or not, leaves the
    listeners of that guild registered. *)
Theorem listeners_are_never_removed (client : list DiscordGuild)
    (st : Registry.state) (removed : list string) :
  let st1 := Registry.updateGuilds defaultPrefix client st in
  Registry.listeners st1
    = Registry.listeners st
      ++ flat_map (fun id => [("plugin-loaded", id); ("plugin-deleted", id)])
           (Registry.addedGuilds (Obj.keys (Registry._guilds st)) (map dg_id client))
  ∧ Registry.listeners (Props.deletesSettled removed st1) = Registry.listeners st1.
Proof.
  intros st1. split; [| apply settled_listeners].
  subst st1. unfold Registry.updateGuilds.
  by rewrite loadAll_listeners, deletes_listeners, newGuilds_listeners.
Qed.


End RegistryAfter.

Lemma updateGuilds_postcondition_witness :
  ∃ g, Registry.get "g5" (Registry.updateGuilds "!" client5 registry1) = Some g
       ∧ Guild._discordAdmins g
         = [mkUserRole (Some "ann") None "g5"; mkUserRole None (Some "r1") "g5"].
Proof.
  destruct (updateGuilds_postcondition "!" client5 registry1 "g5") as [Hin _].
  destruct Hin as (g & dg & Hg & Hdg & _ & Hadmins); [by left |].
  exists g. split; [exact Hg |].
  vm_compute in Hg. inversion Hg; subst g.
  vm_compute in Hdg. inversion Hdg; subst dg. reflexivity.
Defined.


(** ** Event bus *)

Section Bus.
Context {L D : Type}.

Lemma lookup_on (a a' : string) (l : L) (acts : gmap string (list L)) :
  default acts (EventBus.on a l acts) !! a'
  = if decide (a = a') then
      match acts !! a with
      | Some ls => Some (ls ++ [l])
      | None => if Obj.isInherited a then None else Some [l]
      end
    else acts !! a'.
Proof.
  unfold EventBus.on. destruct (acts !! a) as [ls|] eqn:Ha; simpl.
  - rewrite lookup_insert. by destruct (decide (a = a')).
  - destruct (Obj.isInherited a); simpl.
    + destruct (decide (a = a')) as [<- | Hne]; [exact Ha | reflexivity].
    + rewrite lookup_insert. by destruct (decide (a = a')).
Qed.

Lemma lookup_registerAll_inherited (calls : list (string * L))
    (acts : gmap string (list L)) (a : string) :
  Obj.isInherited a = true → acts !! a = None →
  EventBus.registerAll calls acts !! a = None.
Proof.
  intros Hi. unfold EventBus.registerAll. revert acts.
  induction calls as [|[a' l] calls IH]; intros acts Ha; simpl; [exact Ha |].
  apply IH. rewrite lookup_on.
  destruct (decide (a' = a)) as [-> | Hne]; [| exact Ha].
  by rewrite Ha, Hi.
Qed.

Lemma lookup_registerAll (calls : list (string * L)) (acts : gmap string (list L))
    (a : string) :
  Obj.isInherited a = false →
  EventBus.registerAll calls acts !! a
  = match acts !! a, EventBus.registeredFor a calls with
    | None, [] => None
    | o, ls => Some (default [] o ++ ls)
    end.
Proof.
  intros Hi. unfold EventBus.registerAll, EventBus.registeredFor. revert acts.
  induction calls as [|[a' l] calls IH]; intros acts; simpl.
  - destruct (acts !! a); simpl; [by rewrite app_nil_r | reflexivity].
  - rewrite IH, lookup_on.
    destruct (String.eqb_spec a' a) as [-> | Hne]; simpl.
    + rewrite decide_True by reflexivity. rewrite Hi.
      destruct (acts !! a); simpl; by rewrite <- ?app_assoc.
    + by rewrite decide_False.
Qed.

(** X21. After any sequence of [on] calls on the empty [actions],
    [triggerEvent] for an action whose name is no property of
    [Object.prototype] calls exactly the listeners registered for that
    action, each with the data, in the order they were registered, and no
    listener of another action; when nobody registered for it, it calls
    nothing and warns, naming the action.  Under a name that
    [Object.prototype] has a property for nothing can be registered ([on]
    throws), and [triggerEvent] neither warns nor calls a listener: it
    throws when the inherited function takes a parameter and does nothing
    otherwise. *)
Theorem triggerEvent_calls_registered (calls : list (string * L)) (a : string)
    (data : D) (l : L) :
  let actions := EventBus.registerAll calls ∅ in
  EventBus.triggerEvent a data actions
  = (if Obj.isInherited a then
       match Obj.inheritedLength a with
       | Some (S _) => EventBus.Raised
       | _ => EventBus.Called []
       end
     else
       match EventBus.registeredFor a calls with
       | [] => EventBus.Warned ("Cannot trigger inexistent action: **" ++ a ++ "**")%string
       | ls => EventBus.Called (map (fun l => (l, data)) ls)
       end)
  ∧ EventBus.on a l actions
    = (if Obj.isInherited a then None
       else Some (<[a := EventBus.registeredFor a calls ++ [l]]> actions)).
Proof.
  intros actions. subst actions. unfold EventBus.triggerEvent, EventBus.on.
  destruct (Obj.isInherited a) eqn:Hi.
  - rewrite lookup_registerAll_inherited by (exact Hi || apply lookup_empty).
    by split.
  - rewrite lookup_registerAll by exact Hi. rewrite lookup_empty.
    by destruct (EventBus.registeredFor a calls).
Qed.

End Bus.

Example triggerEvent_inherited_names :
  EventBus.triggerEvent "toString" 0 (EventBus.registerAll [("toString", 1)] ∅)
  = EventBus.Called []
  ∧ EventBus.triggerEvent "constructor" 0 (∅ : gmap string (list nat)) = EventBus.Raised
  ∧ EventBus.triggerEvent "plugin-loaded" 0
      (EventBus.registerAll [("plugin-loaded", 1); ("constructor", 2); ("plugin-loaded", 3)] ∅)
    = EventBus.Called [(1, 0); (3, 0)].
Proof. repeat split. Qed.

(** ** Start-up *)

Section StartUp.
Import BotIndex.

Lemma length_append_slash (p : string) :
  String.length (p ++ "/")%string = S (String.length p).
Proof. induction p as [|a p IH]; simpl; [reflexivity | by rewrite IH]. Qed.

Lemma get_last_slash (p : string) :
  String.get (String.length p) (p ++ "/")%string = Some "/"%char.
Proof. induction p as [|a p IH]; simpl; [reflexivity | exact IH]. Qed.

Lemma substring_all_but_slash (p : string) :
  String.substring 0 (String.length p) (p ++ "/")%string = p.
Proof. induction p as [|a p IH]; simpl; [reflexivity | by rewrite IH]. Qed.

Lemma ends_with_slash (p : string) :
  String.get (String.length p - 1) p = Some "/"%char → ∃ q, p = (q ++ "/")%string.
Proof.
  induction p as [|a p IH]; simpl; [discriminate |].
  destruct p as [|b p].
  - simpl. intros [= ->]. by exists ""%string.
  - simpl in *. rewrite Nat.sub_0_r in *. intros Hg.
    destruct (IH Hg) as (q & Hq). exists (String a q). simpl. by rewrite Hq.
Qed.

(** X22. [handleArgs] takes one trailing slash off the configuration path:
    given [p/] the path becomes [p]; a non-empty path that does not end in
    a slash is taken as it is; [--config-path], when given and not empty,
    wins over [-c]; and with neither option, or only empty ones, the path
    stays what it was. *)
Theorem handleArgs_strips_one_slash (p current : string) (c : option string) :
  handleArgs (Some (p ++ "/")%string) c current = p
  ∧ handleArgs None (Some (p ++ "/")%string) current = p
  ∧ (p ≠ "" → (∀ q, p ≠ (q ++ "/")%string) →
     handleArgs (Some p) c current = p ∧ handleArgs None (Some p) current = p)
  ∧ handleArgs None None current = current
  ∧ handleArgs (Some "") (Some "") current = current.
Proof.
  assert (Hbody : ∀ s c', truthy (Some s) = true →
            handleArgs (Some s) c' current
            = match String.get (String.length s - 1) s with
              | Some "/"%char => String.substring 0 (String.length s - 1) s
              | _ => s
              end
            ∧ handleArgs None (Some s) current
              = match String.get (String.length s - 1) s with
                | Some "/"%char => String.substring 0 (String.length s - 1) s
                | _ => s
                end).
  { intros s c' Ht. unfold handleArgs.
    change (truthy None) with false. cbv iota. by rewrite !Ht. }
  assert (Hslash : match String.get (String.length (p ++ "/")%string - 1)
                           (p ++ "/")%string with
                   | Some "/"%char =>
                       String.substring 0 (String.length (p ++ "/")%string - 1)
                         (p ++ "/")%string
                   | _ => (p ++ "/")%string
                   end = p).
  { rewrite length_append_slash. simpl. rewrite Nat.sub_0_r.
    by rewrite get_last_slash, substring_all_but_slash. }
  assert (Hts : truthy (Some (p ++ "/")%string) = true) by by destruct p.
  destruct (Hbody _ c Hts) as [H1 H2].
  split; [by rewrite H1 |]. split; [by rewrite H2 |].
  split; [| by split].
  intros Hne Hq.
  assert (Ht : truthy (Some p) = true).
  { simpl. by destruct (String.eqb_spec p ""). }
  assert (Hplain : match String.get (String.length p - 1) p with
                   | Some "/"%char => String.substring 0 (String.length p - 1) p
                   | _ => p
                   end = p).
  { destruct (String.get (String.length p - 1) p) as [ch|] eqn:Hg; [| reflexivity].
    destruct (Ascii.eqb_spec ch "/"%char) as [-> | Hch].
    - destruct (ends_with_slash p Hg) as (q & ->). by destruct (Hq q).
    - destruct ch as [[] [] [] [] [] [] [] []]; try reflexivity. by destruct Hch. }
  destruct (Hbody _ c Ht) as [H3 H4].
  split; [by rewrite H3 | by rewrite H4].
Qed.

Lemma missing_false (v : option string) : missing v = false ↔ present v.
Proof.
  unfold missing, present. destruct v as [s|].
  - destruct (String.eqb_spec s ""); split; try congruence.
    + intros (s' & [= <-] & Hs). contradiction.
    + intros _. by exists s.
  - split; [discriminate | intros (s & ? & _); discriminate].
Qed.

(** X23. [loadConfig] gets past its checks exactly when [bot.json] could
    be read and [token], [applicationId], [oauth2Secret] and [redirectURI]
    are all there and not empty; in every other case the process exits. *)
Theorem loadConfig_ready_iff (required : option AppConfig) (c : AppConfig) :
  loadConfig required = Ready c ↔
  required = Some c
  ∧ present (token c) ∧ present (applicationId c)
  ∧ present (oauth2Secret c) ∧ present (redirectURI c).
Proof.
  rewrite <- !missing_false. unfold loadConfig.
  destruct required as [c'|]; [| split; [discriminate | intros [? _]; discriminate]].
  destruct (missing (token c')) eqn:H1;
    [split; [discriminate | intros ([= <-] & ? & _); congruence] |].
  destruct (missing (applicationId c')) eqn:H2;
    [split; [discriminate | intros ([= <-] & _ & ? & _); congruence] |].
  destruct (missing (oauth2Secret c')) eqn:H3;
    [split; [discriminate | intros ([= <-] & _ & _ & ? & _); congruence] |].
  destruct (missing (redirectURI c')) eqn:H4;
    [split; [discriminate | intros ([= <-] & _ & _ & _ & ?); congruence] |].
  split.
  - intros [= <-]. by repeat split.
  - by intros ([= <-] & _).
Qed.

End StartUp.

Lemma handleArgs_strips_one_slash_witness :
  BotIndex.handleArgs (Some "/etc/bot") (Some "other/") "instance" = "/etc/bot".
Proof.
  apply (handleArgs_strips_one_slash "/etc/bot" "instance" (Some "other/")).
  - discriminate.
  - intros q Hq.
    assert (Hg : String.get (String.length "/etc/bot" - 1) "/etc/bot"
                 = String.get (String.length (q ++ "/")%string - 1) (q ++ "/")%string)
      by (by rewrite <- Hq).
    rewrite length_append_slash in Hg. simpl in Hg.
    rewrite Nat.sub_0_r, get_last_slash in Hg. discriminate.
Defined.

Lemma loadConfig_ready_iff_witness :
  BotIndex.loadConfig
    (Some (BotIndex.mkAppConfig (Some "t") (Some "1") (Some "s") (Some "http://x")))
  = BotIndex.Ready (BotIndex.mkAppConfig (Some "t") (Some "1") (Some "s") (Some "http://x")).
Proof.
  apply (loadConfig_ready_iff
           (Some (BotIndex.mkAppConfig (Some "t") (Some "1") (Some "s") (Some "http://x")))).
  split; [reflexivity |]. repeat split; eexists; (split; [reflexivity | discriminate]).
Defined.

(** ** Dashboard models *)

Section DashboardUsers.
Import Dashboard.

Lemma set_In {V} (k : string) (v : V) (o : list (string * V)) :
  In (k, v) (Obj.set k v o).
Proof. apply get_In, get_set_eq. Qed.

Lemma getByTag_None (tag : string) (users : list (string * User)) :
  getByTag tag users = None ↔ ∀ k u, In (k, u) users → _tag u ≠ tag.
Proof.
  induction users as [|[k0 u0] users IH]; simpl.
  - split; [intros _ ? ? [] | reflexivity].
  - destruct (String.eqb_spec (_tag u0) tag) as [Heq | Hne].
    + split; [discriminate |]. intros Hall. by destruct (Hall k0 u0 (or_introl eq_refl)).
    + rewrite IH. split.
      * intros Hall k u [[= <- <-] | Hin]; [exact Hne | by eapply Hall].
      * intros Hall k u Hin. eapply Hall. by right.
Qed.

Lemma getByTag_Some (tag : string) (users : list (string * User)) (u : User) :
  getByTag tag users = Some u →
  ∃ before k after,
    users = before ++ (k, u) :: after ∧ _tag u = tag
    ∧ ∀ k' u', In (k', u') before → _tag u' ≠ tag.
Proof.
  induction users as [|[k0 u0] users IH]; simpl; [discriminate |].
  destruct (String.eqb_spec (_tag u0) tag) as [Heq | Hne].
  - intros [= <-]. exists [], k0, users. repeat split; [exact Heq | intros ? ? []].
  - intros Hg. destruct (IH Hg) as (before & k & after & -> & Ht & Hb).
    exists ((k0, u0) :: before), k, after. repeat split; [exact Ht |].
    intros k' u' [[= <- <-] | Hin]; [exact Hne | by eapply Hb].
Qed.

(** X24. [getByTag] returns a loaded user that carries the tag, the first
    one in the order [for ... in] lists the keys of [_users], and returns
    [undefined] exactly when no loaded user carries it; right after
    [create] for a user with that tag (and an identifier other than
    [__proto__]) it always finds one.  The order is not the order of
    registration: [create] keeps the identifiers that are array indices
    in ascending order before all others, so of the users that carry the
    tag, one registered under an array index is never returned in place
    of one registered under a smaller index. *)
Theorem getByTag_finds_loaded_user (tag : string) (users : list (string * User)) :
  (getByTag tag users = None ↔ ∀ k u, In (k, u) users → _tag u ≠ tag)
  ∧ (∀ u, getByTag tag users = Some u →
       ∃ before k after,
         users = before ++ (k, u) :: after ∧ _tag u = tag
         ∧ ∀ k' u', In (k', u') before → _tag u' ≠ tag)
  ∧ (∀ options, discordId options ≠ "__proto__" →
       _tag (newUser options) = tag →
       ∃ u, getByTag tag (createUser options users).2 = Some u ∧ _tag u = tag)
  ∧ (Obj.enumerated (Obj.keys users) = true →
     (∀ options, Obj.enumerated (Obj.keys (createUser options users).2) = true)
     ∧ ∀ k u n, In (k, u) users → _tag u = tag → Obj.arrayIndex k = Some n →
         ∃ k0 u0 n0, getByTag tag users = Some u0 ∧ In (k0, u0) users
                     ∧ Obj.arrayIndex k0 = Some n0 ∧ (n0 <= n)%N).
Proof.
  split; [apply getByTag_None |].
  split; [apply getByTag_Some |].
  split.
  { intros options _ Ht. simpl.
    destruct (getByTag tag (Obj.set (discordId options) (newUser options) users))
      as [u|] eqn:Hg.
    - exists u. split; [reflexivity |].
      by destruct (getByTag_Some _ _ _ Hg) as (? & ? & ? & _ & ? & _).
    - exfalso.
      exact (proj1 (getByTag_None _ _) Hg _ _
               (set_In (discordId options) (newUser options) users) Ht). }
  intros Henum. split; [intros options; by apply enumerated_set |].
  intros k u n Hin Ht Hn.
  destruct (getByTag tag users) as [u0|] eqn:Hg.
  - destruct (getByTag_Some _ _ _ Hg) as (before & k0 & after & Hus & Ht0 & Hb).
    assert (Hin0 : In (k0, u0) users).
    { rewrite Hus. apply in_or_app. right. by left. }
    rewrite Hus in Hin. apply in_app_or in Hin as [Hin | [[= -> ->] | Hin]].
    + by destruct (Hb _ _ Hin).
    + exists k, u, n. repeat split; try assumption. lia.
    + assert (Hkeys : Obj.keys users
                      = Obj.keys before ++ k0 :: Obj.keys after).
      { rewrite Hus. unfold Obj.keys. by rewrite map_app. }
      rewrite Hkeys in Henum.
      destruct (enumerated_before _ _ k0 k n Henum) as (n0 & Hn0 & Hle);
        [by apply (in_map fst _ (k, u)) | exact Hn |].
      by exists k0, u0, n0.
  - by destruct (proj1 (getByTag_None _ _) Hg _ _ Hin).
Qed.

(** X25. [get] answers without asking the bot whenever [_users] has
    anything under the identifier: right after [create] for an identifier
    it resolves with that user and changes nothing; under an identifier
    that is not loaded but names a property of [Object.prototype] it
    resolves with that property, which is no user.  Only for an
    identifier under which [_users] has nothing does it ask the bot, once,
    and register the user under the identifier of the answer, so asking
    again hits the loaded users when the answer carries the identifier
    asked for. *)
Theorem getUser_uses_loaded_users (options answer again : UserOptions)
    (id : string) (users : list (string * User)) :
  (let users' := (createUser options users).2 in
   getUser (discordId options) answer users'
   = (ResolvedUser (newUser options), users', []))
  ∧ (Obj.read id users = Obj.Inherited →
     getUser id answer users = (ResolvedInherited, users, []))
  ∧ (Obj.read id users = Obj.Undefined →
     let '(user, users', asked) := getUser id answer users in
     user = ResolvedUser (newUser answer)
     ∧ users' = Obj.set (discordId answer) (newUser answer) users
     ∧ asked = [QueryBot "discotron-dashboard" "get-user-info"
                  [("discordId", id)] None]
     ∧ (discordId answer = id →
        getUser id again users' = (ResolvedUser (newUser answer), users', []))).
Proof.
  split; [| split].
  - simpl. unfold getUser, Obj.read. by rewrite get_set_eq.
  - intros Hread. unfold getUser. by rewrite Hread.
  - intros Hmiss. unfold getUser. rewrite Hmiss. simpl.
    repeat split. intros <-. unfold Obj.read. by rewrite get_set_eq.
Qed.

End DashboardUsers.

Section DashboardPlugins.
Import Dashboard.
Context {P : Type}.
Variable idOf : P -> string.

Local Abbreviation createAll data plugins :=
  (fold_left (fun ps plugin => createPlugin idOf plugin ps) data plugins).

Lemma createAll_keeps (all data : list P) (plugins : list (string * P)) (k : string) :
  (∃ y, Obj.get k plugins = Some y ∧ idOf y = k ∧ In y all) →
  incl data all →
  ∃ y, Obj.get k (createAll data plugins) = Some y ∧ idOf y = k ∧ In y all.
Proof.
  revert plugins. induction data as [|x data IH]; intros plugins Hk Hincl; simpl;
    [exact Hk |].
  apply IH; [| intros y Hy; apply Hincl; by right].
  unfold createPlugin. destruct (string_dec k (idOf x)) as [-> | Hne].
  - exists x. rewrite get_set_eq. repeat split. apply Hincl. by left.
  - by rewrite get_set_ne.
Qed.

Lemma createAll_get (all data : list P) (plugins : list (string * P)) (x : P) :
  In x data → incl data all →
  ∃ y, Obj.get (idOf x) (createAll data plugins) = Some y
       ∧ idOf y = idOf x ∧ In y all.
Proof.
  revert plugins. induction data as [|x0 data IH]; intros plugins Hin Hincl; simpl;
    [destruct Hin |].
  assert (Hrest : incl data all) by (intros y Hy; apply Hincl; by right).
  destruct Hin as [-> | Hin]; [| by apply IH].
  apply createAll_keeps; [| exact Hrest].
  exists x. unfold createPlugin. rewrite get_set_eq. repeat split.
  apply Hincl. by left.
Qed.

Lemma createAll_NoDup (data : list P) (plugins : list (string * P)) :
  List.NoDup (Obj.keys plugins) → List.NoDup (Obj.keys (createAll data plugins)).
Proof.
  revert plugins. induction data as [|x data IH]; intros plugins Hnd; simpl;
    [exact Hnd |].
  apply IH. by apply keys_set_NoDup.
Qed.

Lemma createAll_nonempty (data : list P) (plugins : list (string * P)) :
  data ≠ [] ∨ plugins ≠ [] → createAll data plugins ≠ [].
Proof.
  revert plugins. induction data as [|x data IH]; intros plugins; simpl.
  - intros [Hd | Hp]; [congruence | exact Hp].
  - intros _. apply IH. right. unfold createPlugin. intros Hnil.
    pose proof (get_set_eq (idOf x) x plugins) as Hg.
    rewrite Hnil in Hg. discriminate.
Qed.


End DashboardPlugins.

Section DashboardGuild.
Import Dashboard.

Lemma addOthers_spec (p : string) (plugins : list string) (s : gset string) :
  addOthers p plugins s = s ∪ (list_to_set plugins ∖ {[p]}).
Proof.
  revert s. induction plugins as [|q rest IH]; intros s; simpl.
  - set_solver.
  - destruct (String.eqb_spec q p) as [-> | Hne]; simpl; rewrite IH; set_solver.
Qed.

(** X27. The dashboard's copy of [setPluginEnabled] ends with the set the
    bot computes: once its callback on the plugin list has run, the
    enabled set equals the one [Guild.setPluginEnabled] leaves on the bot,
    given the same set before and the same installed plugins.  Until that
    callback runs, disabling a plugin on the empty set leaves the
    dashboard's set empty. *)
Theorem dashboard_agrees_with_bot (installed : list string) (guildId p : string)
    (enabled : bool) (g : Guild.t) :
  setPluginEnabled_settled installed guildId p enabled (Guild.enabledPlugins g)
  = Guild.enabledPlugins (Guild.setPluginEnabled installed p enabled g).1
  ∧ (setPluginEnabled guildId p false ∅).1 = (∅, true).
Proof.
  split; [| reflexivity].
  unfold setPluginEnabled_settled, setPluginEnabled, Guild.setPluginEnabled,
    setPluginEnabled_then.
  cbn [fst Guild.with_enabledPlugins Guild.enabledPlugins].
  destruct (size (Guild.enabledPlugins g) =? 0)%nat.
  - destruct enabled; cbn [negb]; [reflexivity |].
    by rewrite addOthers_spec, addAllBut_spec.
  - reflexivity.
Qed.

End DashboardGuild.

Lemma getByTag_finds_loaded_user_witness :
  let users := (Dashboard.createUser bob (Dashboard.createUser bob43 []).2).2 in
  Obj.keys users = ["42"; "43"]
  ∧ Dashboard.getByTag "bob#0001" users = Some (Dashboard.newUser bob)
  ∧ (∃ u, Dashboard.getByTag "bob#0001" (Dashboard.createUser bob []).2 = Some u
          ∧ Dashboard._tag u = "bob#0001")
  ∧ ∃ k0 u0 n0, Dashboard.getByTag "bob#0001" users = Some u0 ∧ In (k0, u0) users
                ∧ Obj.arrayIndex k0 = Some n0 ∧ (n0 <= 43)%N.
Proof.
  intros users.
  split; [reflexivity |]. split; [reflexivity |].
  destruct (getByTag_finds_loaded_user "bob#0001" []) as (_ & _ & Hcreate & _).
  split; [apply Hcreate; [discriminate | reflexivity] |].
  destruct (getByTag_finds_loaded_user "bob#0001" users) as (_ & _ & _ & Horder).
  destruct (Horder eq_refl) as [_ Hleast].
  apply (Hleast "43" (Dashboard.newUser bob43) 43%N); [| reflexivity | reflexivity].
  right. by left.
Defined.

Lemma getUser_uses_loaded_users_witness :
  Dashboard.getUser "42" bob []
  = (Dashboard.ResolvedUser (Dashboard.newUser bob), [("42", Dashboard.newUser bob)],
     [Dashboard.QueryBot "discotron-dashboard" "get-user-info" [("discordId", "42")] None])
  ∧ Dashboard.getUser "constructor" bob [] = (Dashboard.ResolvedInherited, [], []).
Proof.
  destruct (getUser_uses_loaded_users eve bob eve "42" []) as (_ & _ & Hmiss).
  specialize (Hmiss eq_refl).
  destruct (getUser_uses_loaded_users eve bob eve "constructor" []) as (_ & Hheld & _).
  split; [| apply Hheld; reflexivity].
  destruct (Dashboard.getUser "42" bob []) as [[user users'] asked].
  destruct Hmiss as (-> & -> & -> & _). reflexivity.
Defined.


(** ** Explicit admins and the command prefix *)

Section AdminsAndPrefix.
Context `{UserRoles}.
Import GuildOps.

Lemma restamp_twice (g : Guild.t) (usersRoles : list UserRole) :
  map (restamp g) (map (restamp g) usersRoles) = map (restamp g) usersRoles.
Proof. rewrite map_map. reflexivity. Qed.

(** X28. The [admins] setter replaces the explicit admins by the given
    principals, each rebuilt for this guild (user and role identifiers
    kept, guild identifier set to the guild's own): afterwards a user is an
    admin exactly when one of the rebuilt principals or a native admin
    describes them, and explicit admins held before count no more. *)
Theorem set_admins_replaces (usersRoles : list UserRole) (g : Guild.t) (u : string) :
  let g' := (set_admins usersRoles g).1 in
  Guild._admins g' = map (restamp g) usersRoles
  ∧ (∀ a, In a (Guild._admins g') → ur_discordGuildId a = Guild.discordId g)
  ∧ (isAdmin u g' = true ↔
       (∃ ur, In ur usersRoles ∧ describes (restamp g ur) u = true)
       ∨ (∃ a, In a (Guild._discordAdmins g) ∧ describes a u = true))
  ∧ (set_admins usersRoles g).2 = [DbDelete "Admins" (guildFilter g)].
Proof.
  intros g'.
  assert (Hadmins : Guild._admins g' = map (restamp g) usersRoles).
  { subst g'. unfold set_admins. simpl. apply restamp_twice. }
  split; [exact Hadmins |]. split; [| split; [| reflexivity]].
  - intros a Hin. rewrite Hadmins in Hin.
    apply in_map_iff in Hin as (ur & <- & _). reflexivity.
  - rewrite isAdmin_spec, Hadmins.
    change (Guild._discordAdmins g') with (Guild._discordAdmins g). split.
    + intros (a & Hin & Ha). apply in_app_or in Hin as [Hin | Hin].
      * left. apply in_map_iff in Hin as (ur & <- & Hin). by exists ur.
      * right. by exists a.
    + intros [(ur & Hin & Ha) | (a & Hin & Ha)].
      * exists (restamp g ur). split; [| exact Ha].
        apply in_or_app. left. apply in_map_iff. by exists ur.
      * exists a. split; [apply in_or_app; by right | exact Ha].
Qed.

End AdminsAndPrefix.

Section PrefixTable.
Import GuildOps.

Lemma matches_after_prefix (id p : string) (row : Db.Row) :
  Db.matches [("discordGuildId", id)] (Obj.set "prefix" p row)
  = Db.matches [("discordGuildId", id)] row.
Proof.
  unfold Db.matches. simpl. by rewrite get_set_ne.
Qed.

Lemma select_after_prefix (id p : string) (db : Db.t) :
  Db.column "prefix"
    (Db.select "GuildSettings" [("discordGuildId", id)]
       (Db.apply db (DbUpdate "GuildSettings" [("prefix", p)]
                       [("discordGuildId", id)])))
  = repeat p (length (Db.select "GuildSettings" [("discordGuildId", id)] db)).
Proof.
  unfold Db.select, Db.apply.
  induction db as [|[table row] db IH]; [reflexivity |].
  cbn [map].
  destruct (Db.selected "GuildSettings" [("discordGuildId", id)] (table, row)) eqn:Hs.
  - cbn [fst snd fold_left].
    assert (Hs' : Db.selected "GuildSettings" [("discordGuildId", id)]
                    (table, Obj.set "prefix" p row) = true).
    { unfold Db.selected in *. cbn [fst snd] in *. by rewrite matches_after_prefix. }
    cbn [List.filter]. rewrite Hs', Hs. cbn [map snd length repeat Db.column].
    rewrite get_set_eq. f_equal. exact IH.
  - cbn [List.filter]. rewrite Hs. exact IH.
Qed.

(** X29. The command prefix survives a restart only if the guild has a row
    in [GuildSettings]: the setter changes the prefix in memory and issues
    one update; once it is carried out, [_loadGuildSettings] reads the new
    prefix back when such a row exists, and is rejected, as before the
    update, when there is none. *)
Theorem commandPrefix_survives_with_settings_row (p : string) (g g0 : Guild.t)
    (db : Db.t) :
  let db' := Db.run db (set_commandPrefix p g).2 in
  let rows := Db.column "prefix" (Db.select "GuildSettings" (guildFilter g) db') in
  Guild.commandPrefix (set_commandPrefix p g).1 = p
  ∧ (Db.select "GuildSettings" (guildFilter g) db ≠ [] →
     _loadGuildSettings rows g0 = Some (with_commandPrefix p g0))
  ∧ (Db.select "GuildSettings" (guildFilter g) db = [] →
     _loadGuildSettings rows g0 = None).
Proof.
  intros db' rows.
  assert (Hrows : rows = repeat p (length (Db.select "GuildSettings" (guildFilter g) db))).
  { subst rows db'. unfold guildFilter. apply select_after_prefix. }
  split; [reflexivity |]. rewrite Hrows. split.
  - intros Hne. by destruct (Db.select "GuildSettings" (guildFilter g) db).
  - by intros ->.
Qed.

End PrefixTable.

Lemma set_admins_replaces_witness :
  GuildOps.isAdmin "bob"
    (GuildOps.set_admins [mkUserRole (Some "bob") None "elsewhere"] g6).1 = true.
Proof.
  apply (@set_admins_replaces byUserId
           [mkUserRole (Some "bob") None "elsewhere"] g6 "bob").
  left. exists (mkUserRole (Some "bob") None "elsewhere"). split; [by left | reflexivity].
Defined.

Lemma commandPrefix_survives_with_settings_row_witness :
  let db := [("GuildSettings", [("discordGuildId", "g6"); ("prefix", "!")])] in
  GuildOps._loadGuildSettings
    (Db.column "prefix"
       (Db.select "GuildSettings" (GuildOps.guildFilter g6)
          (Db.run db (GuildOps.set_commandPrefix "?" g6).2)))
    (Guild.fresh "!" "g6")
  = Some (GuildOps.with_commandPrefix "?" (Guild.fresh "!" "g6")).
Proof.
  intros db.
  apply (commandPrefix_survives_with_settings_row "?" g6 (Guild.fresh "!" "g6") db).
  discriminate.
Defined.
